(** * A shallow embedding of the shooter's simulation core

    Sources embedded here: [lib/game/types.ts], [lib/game/CollisionDetector.ts],
    [lib/game/Base.ts], [lib/game/EnemyFactory.ts] and the engine file holding
    the classes [GameEngine] and [Enemy].

    Modelling conventions.
    - A JavaScript [number] that only ever holds integers in the source
      (timestamps of [Date.now()], counters, score, health, damage, level) is
      a [Z].  A [number] that holds fractions (coordinates, velocities,
      multipliers, lifetimes) is an exact rational [Q]; [==] is equality of
      rationals.  Rounding errors of binary floating point, [NaN] and the
      infinities are outside the model.
    - Every class is a [Module] whose record [t] is the object's fields; a
      method taking [this] becomes a function taking and returning the record.
    - [Date.now()] and [Math.random()] read a [World]: the stream of values the
      platform will answer, consumed one value per call; a draw is a number of
      [0, 1) by its type.
    - [Math.sqrt], [Math.cos], [Math.sin], [Math.atan2] and [Math.PI] have no
      exact rational counterpart; the functions using them take them from a
      [MathLib] record.  A division by zero, [NaN] in JavaScript, is 0 in [Q];
      the source divides by a variable only to aim the single bullet of an
      enemy, and by zero only for an enemy standing on the point aimed at.
    - Drawing, image loading and the calls into the sound manager do not write
      any field modelled here and are left out. *)

From Stdlib Require Import ZArith QArith Qminmax Qround Lia Lqa List String Bool.
Import ListNotations.

Open Scope Z_scope.
Open Scope Q_scope.

(** ** Platform primitives *)

(** [Math.round]: nearest integer, halves towards plus infinity. *)
Definition Math_round (q : Q) : Z := Qfloor (q + 0.5).

(** [Math.floor], used as an array index. *)
Definition Math_floor (q : Q) : Z := Qfloor q.

Record MathLib := {
  Math_PI : Q;
  Math_sqrt : Q -> Q;
  Math_cos : Q -> Q;
  Math_sin : Q -> Q;
  Math_atan2 : Q -> Q -> Q
}.

(** JavaScript comparisons of numbers, as booleans. *)
Definition Qltb (a b : Q) : bool := negb (Qle_bool b a).
Definition Qleb (a b : Q) : bool := Qle_bool a b.

(** A value [Math.random()] can answer: a number of [0, 1). *)
Record Unit01 := {
  u01 : Q;
  u01_ok : Qleb 0 u01 && Qltb u01 1 = true
}.

(** The answers the platform gives to the successive calls of [Date.now()]
    and of [Math.random()]. *)
Record World := {
  clock : nat -> Z;
  random : nat -> Unit01
}.

Definition Date_now (w : World) : Z * World :=
  (clock w 0%nat, {| clock := fun n => clock w (S n); random := random w |}).

Definition Math_random (w : World) : Q * World :=
  (u01 (random w 0%nat),
   {| clock := clock w; random := fun n => random w (S n) |}).

(** [a[Math.floor(r * a.length)]] for [r] drawn by [Math.random()]: the index
    is within the array whenever the array is not empty, and [d] is never
    returned then. *)
Definition pick {A} (r : Q) (l : list A) (d : A) : A :=
  nth (Z.to_nat (Math_floor (r * inject_Z (Z.of_nat (List.length l))))) l d.

(** [a.splice(i, 1)] for [0 <= i]: removes the element at [i] when there is
    one, and nothing when [i] is past the end. *)
Definition splice1 {A} (i : nat) (l : list A) : list A :=
  firstn i l ++ skipn (S i) l.

(** Assignment to the element at [i] of an array of objects. *)
Fixpoint assign {A} (i : nat) (v : A) (l : list A) : list A :=
  match l, i with
  | [], _ => []
  | _ :: tl, O => v :: tl
  | hd :: tl, S i' => hd :: assign i' v tl
  end.

(** [a.forEach((elt, i) => body)] on an array that [body] may mutate: the
    length is read once, before the first call; index [k] is visited when it
    is still present in the array at that time, with the element found there. *)
Section ForEach.
Context {St A : Type}.
Variable arr : St -> list A.
Variable body : A -> nat -> St -> St.

Fixpoint forEach_from (n k : nat) (s : St) : St :=
  match n with
  | O => s
  | S n' =>
      forEach_from n' (S k)
        match nth_error (arr s) k with
        | Some a => body a k s
        | None => s
        end
  end.

Definition forEach (s : St) : St := forEach_from (List.length (arr s)) 0 s.
End ForEach.

(** ** types.ts *)

Module Position.
Record t := { x : Q; y : Q }.
End Position.

Module Size.
Record t := { width : Q; height : Q }.
End Size.

Inductive EnemyType :=
| STARKENT | SCROLL | ZKSYN | TAIKO   (* level 1 *)
| LINEA | OP                          (* level 2 *)
| ARB | POLYGON.                      (* level 3 *)

Module EnemyConfig.
Record t := {
  type : EnemyType;
  health : Z;
  speed : Q;
  imagePath : string;
  width : Q;
  height : Q;
  canShoot : bool;
  shootInterval : Z;
  level : Z;
  bulletsPerShot : option Z;
  bulletSpeed : option Q
}.
End EnemyConfig.

Module Bullet.
Record t := {
  x : Q;
  y : Q;
  vx : Q;
  vy : Q;
  width : Q;
  height : Q;
  isPlayerBullet : bool;
  damage : Z
}.
End Bullet.

Module GameState.
Record t := {
  score : Z;
  level : Z;
  playerHealth : Z;
  maxPlayerHealth : Z;
  isGameOver : bool;
  isPaused : bool;
  levelStartTime : Z;
  levelDuration : option Z;   (* [None]: [undefined], no such level *)
  enemiesKilled : Z;
  bulletsShot : Z;
  bulletsHit : Z;
  gameStartTime : Z;
  combo : Z;
  comboMultiplier : Q;
  lastKillTime : Z
}.

Definition set_score (v : Z) (g : t) : t :=
  {| score := v; level := level g; playerHealth := playerHealth g;
     maxPlayerHealth := maxPlayerHealth g; isGameOver := isGameOver g;
     isPaused := isPaused g; levelStartTime := levelStartTime g;
     levelDuration := levelDuration g; enemiesKilled := enemiesKilled g;
     bulletsShot := bulletsShot g; bulletsHit := bulletsHit g;
     gameStartTime := gameStartTime g; combo := combo g;
     comboMultiplier := comboMultiplier g;
     lastKillTime := lastKillTime g |}.

Definition set_level (v : Z) (g : t) : t :=
  {| score := score g; level := v; playerHealth := playerHealth g;
     maxPlayerHealth := maxPlayerHealth g; isGameOver := isGameOver g;
     isPaused := isPaused g; levelStartTime := levelStartTime g;
     levelDuration := levelDuration g; enemiesKilled := enemiesKilled g;
     bulletsShot := bulletsShot g; bulletsHit := bulletsHit g;
     gameStartTime := gameStartTime g; combo := combo g;
     comboMultiplier := comboMultiplier g;
     lastKillTime := lastKillTime g |}.

Definition set_playerHealth (v : Z) (g : t) : t :=
  {| score := score g; level := level g; playerHealth := v;
     maxPlayerHealth := maxPlayerHealth g; isGameOver := isGameOver g;
     isPaused := isPaused g; levelStartTime := levelStartTime g;
     levelDuration := levelDuration g; enemiesKilled := enemiesKilled g;
     bulletsShot := bulletsShot g; bulletsHit := bulletsHit g;
     gameStartTime := gameStartTime g; combo := combo g;
     comboMultiplier := comboMultiplier g;
     lastKillTime := lastKillTime g |}.

Definition set_maxPlayerHealth (v : Z) (g : t) : t :=
  {| score := score g; level := level g; playerHealth := playerHealth g;
     maxPlayerHealth := v; isGameOver := isGameOver g;
     isPaused := isPaused g; levelStartTime := levelStartTime g;
     levelDuration := levelDuration g; enemiesKilled := enemiesKilled g;
     bulletsShot := bulletsShot g; bulletsHit := bulletsHit g;
     gameStartTime := gameStartTime g; combo := combo g;
     comboMultiplier := comboMultiplier g;
     lastKillTime := lastKillTime g |}.

Definition set_isGameOver (v : bool) (g : t) : t :=
  {| score := score g; level := level g; playerHealth := playerHealth g;
     maxPlayerHealth := maxPlayerHealth g; isGameOver := v;
     isPaused := isPaused g; levelStartTime := levelStartTime g;
     levelDuration := levelDuration g; enemiesKilled := enemiesKilled g;
     bulletsShot := bulletsShot g; bulletsHit := bulletsHit g;
     gameStartTime := gameStartTime g; combo := combo g;
     comboMultiplier := comboMultiplier g;
     lastKillTime := lastKillTime g |}.

Definition set_isPaused (v : bool) (g : t) : t :=
  {| score := score g; level := level g; playerHealth := playerHealth g;
     maxPlayerHealth := maxPlayerHealth g; isGameOver := isGameOver g;
     isPaused := v; levelStartTime := levelStartTime g;
     levelDuration := levelDuration g; enemiesKilled := enemiesKilled g;
     bulletsShot := bulletsShot g; bulletsHit := bulletsHit g;
     gameStartTime := gameStartTime g; combo := combo g;
     comboMultiplier := comboMultiplier g;
     lastKillTime := lastKillTime g |}.

Definition set_levelStartTime (v : Z) (g : t) : t :=
  {| score := score g; level := level g; playerHealth := playerHealth g;
     maxPlayerHealth := maxPlayerHealth g; isGameOver := isGameOver g;
     isPaused := isPaused g; levelStartTime := v;
     levelDuration := levelDuration g; enemiesKilled := enemiesKilled g;
     bulletsShot := bulletsShot g; bulletsHit := bulletsHit g;
     gameStartTime := gameStartTime g; combo := combo g;
     comboMultiplier := comboMultiplier g;
     lastKillTime := lastKillTime g |}.

Definition set_levelDuration (v : option Z) (g : t) : t :=
  {| score := score g; level := level g; playerHealth := playerHealth g;
     maxPlayerHealth := maxPlayerHealth g; isGameOver := isGameOver g;
     isPaused := isPaused g; levelStartTime := levelStartTime g;
     levelDuration := v; enemiesKilled := enemiesKilled g;
     bulletsShot := bulletsShot g; bulletsHit := bulletsHit g;
     gameStartTime := gameStartTime g; combo := combo g;
     comboMultiplier := comboMultiplier g;
     lastKillTime := lastKillTime g |}.

Definition set_enemiesKilled (v : Z) (g : t) : t :=
  {| score := score g; level := level g; playerHealth := playerHealth g;
     maxPlayerHealth := maxPlayerHealth g; isGameOver := isGameOver g;
     isPaused := isPaused g; levelStartTime := levelStartTime g;
     levelDuration := levelDuration g; enemiesKilled := v;
     bulletsShot := bulletsShot g; bulletsHit := bulletsHit g;
     gameStartTime := gameStartTime g; combo := combo g;
     comboMultiplier := comboMultiplier g;
     lastKillTime := lastKillTime g |}.

Definition set_bulletsShot (v : Z) (g : t) : t :=
  {| score := score g; level := level g; playerHealth := playerHealth g;
     maxPlayerHealth := maxPlayerHealth g; isGameOver := isGameOver g;
     isPaused := isPaused g; levelStartTime := levelStartTime g;
     levelDuration := levelDuration g; enemiesKilled := enemiesKilled g;
     bulletsShot := v; bulletsHit := bulletsHit g;
     gameStartTime := gameStartTime g; combo := combo g;
     comboMultiplier := comboMultiplier g;
     lastKillTime := lastKillTime g |}.

Definition set_bulletsHit (v : Z) (g : t) : t :=
  {| score := score g; level := level g; playerHealth := playerHealth g;
     maxPlayerHealth := maxPlayerHealth g; isGameOver := isGameOver g;
     isPaused := isPaused g; levelStartTime := levelStartTime g;
     levelDuration := levelDuration g; enemiesKilled := enemiesKilled g;
     bulletsShot := bulletsShot g; bulletsHit := v;
     gameStartTime := gameStartTime g; combo := combo g;
     comboMultiplier := comboMultiplier g;
     lastKillTime := lastKillTime g |}.

Definition set_combo (v : Z) (g : t) : t :=
  {| score := score g; level := level g; playerHealth := playerHealth g;
     maxPlayerHealth := maxPlayerHealth g; isGameOver := isGameOver g;
     isPaused := isPaused g; levelStartTime := levelStartTime g;
     levelDuration := levelDuration g; enemiesKilled := enemiesKilled g;
     bulletsShot := bulletsShot g; bulletsHit := bulletsHit g;
     gameStartTime := gameStartTime g; combo := v;
     comboMultiplier := comboMultiplier g;
     lastKillTime := lastKillTime g |}.

Definition set_comboMultiplier (v : Q) (g : t) : t :=
  {| score := score g; level := level g; playerHealth := playerHealth g;
     maxPlayerHealth := maxPlayerHealth g; isGameOver := isGameOver g;
     isPaused := isPaused g; levelStartTime := levelStartTime g;
     levelDuration := levelDuration g; enemiesKilled := enemiesKilled g;
     bulletsShot := bulletsShot g; bulletsHit := bulletsHit g;
     gameStartTime := gameStartTime g; combo := combo g;
     comboMultiplier := v; lastKillTime := lastKillTime g |}.

Definition set_lastKillTime (v : Z) (g : t) : t :=
  {| score := score g; level := level g; playerHealth := playerHealth g;
     maxPlayerHealth := maxPlayerHealth g; isGameOver := isGameOver g;
     isPaused := isPaused g; levelStartTime := levelStartTime g;
     levelDuration := levelDuration g; enemiesKilled := enemiesKilled g;
     bulletsShot := bulletsShot g; bulletsHit := bulletsHit g;
     gameStartTime := gameStartTime g; combo := combo g;
     comboMultiplier := comboMultiplier g; lastKillTime := v |}.
End GameState.

Module ScorePopup.
Record t := { x : Q; y : Q; value : Z; lifetime : Q; maxLifetime : Q }.
End ScorePopup.

Module Particle.
Record t := {
  x : Q; y : Q; vx : Q; vy : Q;
  lifetime : Q; maxLifetime : Q;
  color : string;
  size : Q
}.
End Particle.

Inductive PowerUpType := SPEED_BOOST | RAPID_FIRE | SHIELD | MULTI_SHOT.

Definition PowerUpType_eqb (a b : PowerUpType) : bool :=
  match a, b with
  | SPEED_BOOST, SPEED_BOOST | RAPID_FIRE, RAPID_FIRE
  | SHIELD, SHIELD | MULTI_SHOT, MULTI_SHOT => true
  | _, _ => false
  end.

Module PowerUp.
Record t := {
  x : Q; y : Q;
  type : PowerUpType;
  lifetime : Q; maxLifetime : Q; size : Q
}.
End PowerUp.

Module Boss.
Record t := {
  position : Position.t;
  size : Size.t;
  health : Z;
  maxHealth : Z;
  speed : Q;
  lastShotTime : Z;
  shootInterval : Z
}.
End Boss.

(** ** CollisionDetector.ts *)

Module CollisionDetector.
Definition rectRectCollision
    (pos1 : Position.t) (size1 : Size.t) (pos2 : Position.t) (size2 : Size.t) : bool :=
  Qltb (Position.x pos1) (Position.x pos2 + Size.width size2) &&
  Qltb (Position.x pos2) (Position.x pos1 + Size.width size1) &&
  Qltb (Position.y pos1) (Position.y pos2 + Size.height size2) &&
  Qltb (Position.y pos2) (Position.y pos1 + Size.height size1).
End CollisionDetector.

(** ** Base.ts *)

Module Base.
Record t := {
  position : Position.t;
  size : Size.t;
  health : Z;
  maxHealth : Z;
  speed : Q
}.

Definition new (canvasWidth canvasHeight : Q) : t :=
  let size := {| Size.width := 60; Size.height := 60 |} in
  {| size := size;
     position := {| Position.x := 50;
                    Position.y := canvasHeight / 2 - Size.height size / 2 |};
     health := 100;
     maxHealth := 100;
     speed := 7 |}.

Definition set_y (v : Q) (b : t) : t :=
  {| position := {| Position.x := Position.x (position b); Position.y := v |};
     size := size b; health := health b; maxHealth := maxHealth b;
     speed := speed b |}.

Definition set_health (v : Z) (b : t) : t :=
  {| position := position b; size := size b; health := v;
     maxHealth := maxHealth b; speed := speed b |}.

Definition set_maxHealth (v : Z) (b : t) : t :=
  {| position := position b; size := size b; health := health b;
     maxHealth := v; speed := speed b |}.

Definition moveUp (canvasHeight speedMultiplier : Q) (b : t) : t :=
  set_y (Qmax 0 (Position.y (position b) - speed b * speedMultiplier)) b.

Definition moveDown (canvasHeight speedMultiplier : Q) (b : t) : t :=
  set_y (Qmin (canvasHeight - Size.height (size b))
              (Position.y (position b) + speed b * speedMultiplier)) b.

Definition getCenter (b : t) : Position.t :=
  {| Position.x := Position.x (position b) + Size.width (size b);
     Position.y := Position.y (position b) + Size.height (size b) / 2 |}.

Definition takeDamage (amount : Z) (b : t) : t :=
  set_health (Z.max 0 (health b - amount)) b.

Definition isAlive (b : t) : bool := (0 <? health b)%Z.
End Base.

(** ** The class Enemy *)

Module Enemy.
Record t := {
  position : Position.t;
  size : Size.t;
  health : Z;
  maxHealth : Z;
  speed : Q;
  config : EnemyConfig.t;
  lastShotTime : Z;
  verticalDirection : Q       (* 1 for down, -1 for up *)
}.

Definition new (config : EnemyConfig.t) (canvasWidth canvasHeight : Q)
    (w : World) : t * World :=
  let size := {| Size.width := EnemyConfig.width config;
                 Size.height := EnemyConfig.height config |} in
  let (r, w) := Math_random w in
  ({| config := config;
      size := size;
      position := {| Position.x := canvasWidth;
                     Position.y := r * (canvasHeight - Size.height size) |};
      health := EnemyConfig.health config;
      maxHealth := EnemyConfig.health config;
      speed := EnemyConfig.speed config;
      lastShotTime := 0;
      verticalDirection := 1 |}, w).

Definition set_position (v : Position.t) (e : t) : t :=
  {| position := v; size := size e; health := health e;
     maxHealth := maxHealth e; speed := speed e; config := config e;
     lastShotTime := lastShotTime e;
     verticalDirection := verticalDirection e |}.

Definition set_health (v : Z) (e : t) : t :=
  {| position := position e; size := size e; health := v;
     maxHealth := maxHealth e; speed := speed e; config := config e;
     lastShotTime := lastShotTime e;
     verticalDirection := verticalDirection e |}.

Definition set_lastShotTime (v : Z) (e : t) : t :=
  {| position := position e; size := size e; health := health e;
     maxHealth := maxHealth e; speed := speed e; config := config e;
     lastShotTime := v;
     verticalDirection := verticalDirection e |}.

Definition set_verticalDirection (v : Q) (e : t) : t :=
  {| position := position e; size := size e; health := health e;
     maxHealth := maxHealth e; speed := speed e; config := config e;
     lastShotTime := lastShotTime e;
     verticalDirection := v |}.

Definition update (canvasWidth canvasHeight : Q) (e : t) : t :=
  let x1 := Position.x (position e) - speed e in
  let y1 := Position.y (position e) + verticalDirection e * 0.5 in
  let bottom := canvasHeight - Size.height (size e) in
  let e := if Qleb y1 0 || Qleb bottom y1
           then set_verticalDirection (verticalDirection e * -1) e
           else e in
  set_position {| Position.x := x1;
                  Position.y := Qmax 0 (Qmin bottom y1) |} e.

Definition canShoot (currentTime : Z) (e : t) : bool :=
  EnemyConfig.canShoot (config e) &&
  (EnemyConfig.shootInterval (config e) <=? currentTime - lastShotTime e)%Z.

Section Shoot.
Variable M : MathLib.

Definition shoot (playerPosition : Position.t) (e : t) (w : World)
    : list Bullet.t * t * World :=
  let (currentTime, w) := Date_now w in
  if negb (canShoot currentTime e) then ([], e, w) else
  let e := set_lastShotTime currentTime e in
  (* [x || d]: the default replaces [undefined] and also 0 *)
  let bulletsPerShot :=
    match EnemyConfig.bulletsPerShot (config e) with
    | Some n => if (n =? 0)%Z then 1%Z else n
    | None => 1%Z
    end in
  let bulletSpeed :=
    match EnemyConfig.bulletSpeed (config e) with
    | Some v => if Qeq_bool v 0 then 4 else v
    | None => 4
    end in
  let dx := Position.x playerPosition - Position.x (position e) in
  let dy := Position.y playerPosition - Position.y (position e) in
  let distance := Math_sqrt M (dx * dx + dy * dy) in
  if (bulletsPerShot =? 2)%Z then
    let angle1 := Math_atan2 M (dy - 15) dx in
    let angle2 := Math_atan2 M (dy + 15) dx in
    ([ {| Bullet.x := Position.x (position e);
          Bullet.y := Position.y (position e) + Size.height (size e) / 2 - 8;
          Bullet.vx := Math_cos M angle1 * bulletSpeed;
          Bullet.vy := Math_sin M angle1 * bulletSpeed;
          Bullet.width := 10;
          Bullet.height := 10;
          Bullet.isPlayerBullet := false;
          Bullet.damage := 10 |};
       {| Bullet.x := Position.x (position e);
          Bullet.y := Position.y (position e) + Size.height (size e) / 2 + 8;
          Bullet.vx := Math_cos M angle2 * bulletSpeed;
          Bullet.vy := Math_sin M angle2 * bulletSpeed;
          Bullet.width := 10;
          Bullet.height := 10;
          Bullet.isPlayerBullet := false;
          Bullet.damage := 10 |} ], e, w)
  else
    ([ {| Bullet.x := Position.x (position e);
          Bullet.y := Position.y (position e) + Size.height (size e) / 2;
          Bullet.vx := (dx / distance) * bulletSpeed;
          Bullet.vy := (dy / distance) * bulletSpeed;
          Bullet.width := 8;
          Bullet.height := 8;
          Bullet.isPlayerBullet := false;
          Bullet.damage := 10 |} ], e, w).
End Shoot.

Definition takeDamage (amount : Z) (e : t) : t :=
  set_health (Z.max 0 (health e - amount)) e.

Definition getCenter (e : t) : Position.t :=
  {| Position.x := Position.x (position e) + Size.width (size e) / 2;
     Position.y := Position.y (position e) + Size.height (size e) / 2 |}.

Definition isAlive (e : t) : bool := (0 <? health e)%Z.

Definition isOffScreen (e : t) : bool :=
  Qltb (Position.x (position e) + Size.width (size e)) 0.
End Enemy.

(** The three wrappers of CollisionDetector.ts over the rectangle test. *)
Definition bulletEnemyCollision (bullet : Bullet.t) (enemy : Enemy.t) : bool :=
  CollisionDetector.rectRectCollision
    {| Position.x := Bullet.x bullet; Position.y := Bullet.y bullet |}
    {| Size.width := Bullet.width bullet; Size.height := Bullet.height bullet |}
    (Enemy.position enemy) (Enemy.size enemy).

Definition bulletBaseCollision (bullet : Bullet.t) (base : Base.t) : bool :=
  CollisionDetector.rectRectCollision
    {| Position.x := Bullet.x bullet; Position.y := Bullet.y bullet |}
    {| Size.width := Bullet.width bullet; Size.height := Bullet.height bullet |}
    (Base.position base) (Base.size base).

Definition enemyBaseCollision (enemy : Enemy.t) (base : Base.t) : bool :=
  CollisionDetector.rectRectCollision
    (Enemy.position enemy) (Enemy.size enemy)
    (Base.position base) (Base.size base).

(** ** EnemyFactory.ts *)

Module EnemyFactory.
Definition melee (ty : EnemyType) (image : string) : EnemyConfig.t :=
  {| EnemyConfig.type := ty; EnemyConfig.health := 30; EnemyConfig.speed := 3;
     EnemyConfig.imagePath := image;
     EnemyConfig.width := 50; EnemyConfig.height := 50;
     EnemyConfig.canShoot := false; EnemyConfig.shootInterval := 0;
     EnemyConfig.level := 1;
     EnemyConfig.bulletsPerShot := None; EnemyConfig.bulletSpeed := None |}.

Definition gunner (ty : EnemyType) (image : string) : EnemyConfig.t :=
  {| EnemyConfig.type := ty; EnemyConfig.health := 20; EnemyConfig.speed := 2;
     EnemyConfig.imagePath := image;
     EnemyConfig.width := 55; EnemyConfig.height := 55;
     EnemyConfig.canShoot := true; EnemyConfig.shootInterval := 1000;
     EnemyConfig.level := 2;
     EnemyConfig.bulletsPerShot := None; EnemyConfig.bulletSpeed := None |}.

Definition tank (ty : EnemyType) (image : string) : EnemyConfig.t :=
  {| EnemyConfig.type := ty; EnemyConfig.health := 100; EnemyConfig.speed := 2;
     EnemyConfig.imagePath := image;
     EnemyConfig.width := 70; EnemyConfig.height := 70;
     EnemyConfig.canShoot := true; EnemyConfig.shootInterval := 500;
     EnemyConfig.level := 3;
     EnemyConfig.bulletsPerShot := Some 2%Z;
     EnemyConfig.bulletSpeed := Some 6 |}.

(** The table [enemyConfigs], each level's entries in key order. *)
Definition enemyConfigs (level : Z) : option (list EnemyConfig.t) :=
  if (level =? 1)%Z then
    Some [ melee STARKENT "/images/starkent-the-enemy.png";
           melee SCROLL "/images/scroll-the-enemy.jpg";
           melee ZKSYN "/images/zksyn-the-enemy.jpg";
           melee TAIKO "/images/taiko-the-enemy.png" ]
  else if (level =? 2)%Z then
    Some [ gunner LINEA "/images/linea-the-enemy.png";
           gunner OP "/images/op-the-enemy.jpg" ]
  else if (level =? 3)%Z then
    Some [ tank ARB "/images/arb-the-enemy.jpg";
           tank POLYGON "/images/polygon-the-enemy.jpg" ]
  else None.

Definition createRandomEnemy (level : Z) (canvasWidth canvasHeight : Q)
    (w : World) : option Enemy.t * World :=
  match enemyConfigs level with
  | None => (None, w)
  | Some [] => (None, w)
  | Some (c :: cs) =>
      let (r, w) := Math_random w in
      let config := pick r (c :: cs) c in
      let (e, w) := Enemy.new config canvasWidth canvasHeight w in
      (Some e, w)
  end.
End EnemyFactory.

(** ** The class GameEngine *)

(** [Map<PowerUpType, number>]: the entries in insertion order.  [set]
    overwrites the value of a key already present, in place, and appends a new
    key otherwise. *)
Definition ActiveMap := list (PowerUpType * Z).

Fixpoint Map_set (k : PowerUpType) (v : Z) (m : ActiveMap) : ActiveMap :=
  match m with
  | [] => [(k, v)]
  | (k', v') :: tl =>
      if PowerUpType_eqb k k' then (k, v) :: tl else (k', v') :: Map_set k v tl
  end.

Definition Map_delete (k : PowerUpType) (m : ActiveMap) : ActiveMap :=
  filter (fun kv => negb (PowerUpType_eqb k (fst kv))) m.

Fixpoint Map_get (k : PowerUpType) (m : ActiveMap) : option Z :=
  match m with
  | [] => None
  | (k', v') :: tl => if PowerUpType_eqb k k' then Some v' else Map_get k tl
  end.

Module GameEngine.
Import GameState.

Record t := {
  base : Base.t;
  enemies : list Enemy.t;
  bullets : list Bullet.t;
  scorePopups : list ScorePopup.t;
  particles : list Particle.t;
  powerUps : list PowerUp.t;
  boss : option Boss.t;
  gameState : GameState.t;
  canvasWidth : Q;
  canvasHeight : Q;
  lastSpawnTime : Z;
  lastPowerUpSpawn : Z;
  spawnInterval : Z;
  activePowerUps : ActiveMap;
  baseSpeedMultiplier : Q;
  shootCooldownMultiplier : Q;
  hasShield : bool;
  multiShotCount : Z
}.

Definition set_base (v : Base.t) (e : t) : t :=
  {| base := v; enemies := enemies e; bullets := bullets e;
     scorePopups := scorePopups e; particles := particles e;
     powerUps := powerUps e; boss := boss e; gameState := gameState e;
     canvasWidth := canvasWidth e; canvasHeight := canvasHeight e;
     lastSpawnTime := lastSpawnTime e;
     lastPowerUpSpawn := lastPowerUpSpawn e;
     spawnInterval := spawnInterval e; activePowerUps := activePowerUps e;
     baseSpeedMultiplier := baseSpeedMultiplier e;
     shootCooldownMultiplier := shootCooldownMultiplier e;
     hasShield := hasShield e; multiShotCount := multiShotCount e |}.

Definition set_enemies (v : list Enemy.t) (e : t) : t :=
  {| base := base e; enemies := v; bullets := bullets e;
     scorePopups := scorePopups e; particles := particles e;
     powerUps := powerUps e; boss := boss e; gameState := gameState e;
     canvasWidth := canvasWidth e; canvasHeight := canvasHeight e;
     lastSpawnTime := lastSpawnTime e;
     lastPowerUpSpawn := lastPowerUpSpawn e;
     spawnInterval := spawnInterval e; activePowerUps := activePowerUps e;
     baseSpeedMultiplier := baseSpeedMultiplier e;
     shootCooldownMultiplier := shootCooldownMultiplier e;
     hasShield := hasShield e; multiShotCount := multiShotCount e |}.

Definition set_bullets (v : list Bullet.t) (e : t) : t :=
  {| base := base e; enemies := enemies e; bullets := v;
     scorePopups := scorePopups e; particles := particles e;
     powerUps := powerUps e; boss := boss e; gameState := gameState e;
     canvasWidth := canvasWidth e; canvasHeight := canvasHeight e;
     lastSpawnTime := lastSpawnTime e;
     lastPowerUpSpawn := lastPowerUpSpawn e;
     spawnInterval := spawnInterval e; activePowerUps := activePowerUps e;
     baseSpeedMultiplier := baseSpeedMultiplier e;
     shootCooldownMultiplier := shootCooldownMultiplier e;
     hasShield := hasShield e; multiShotCount := multiShotCount e |}.

Definition set_scorePopups (v : list ScorePopup.t) (e : t) : t :=
  {| base := base e; enemies := enemies e; bullets := bullets e;
     scorePopups := v; particles := particles e; powerUps := powerUps e;
     boss := boss e; gameState := gameState e;
     canvasWidth := canvasWidth e; canvasHeight := canvasHeight e;
     lastSpawnTime := lastSpawnTime e;
     lastPowerUpSpawn := lastPowerUpSpawn e;
     spawnInterval := spawnInterval e; activePowerUps := activePowerUps e;
     baseSpeedMultiplier := baseSpeedMultiplier e;
     shootCooldownMultiplier := shootCooldownMultiplier e;
     hasShield := hasShield e; multiShotCount := multiShotCount e |}.

Definition set_particles (v : list Particle.t) (e : t) : t :=
  {| base := base e; enemies := enemies e; bullets := bullets e;
     scorePopups := scorePopups e; particles := v; powerUps := powerUps e;
     boss := boss e; gameState := gameState e;
     canvasWidth := canvasWidth e; canvasHeight := canvasHeight e;
     lastSpawnTime := lastSpawnTime e;
     lastPowerUpSpawn := lastPowerUpSpawn e;
     spawnInterval := spawnInterval e; activePowerUps := activePowerUps e;
     baseSpeedMultiplier := baseSpeedMultiplier e;
     shootCooldownMultiplier := shootCooldownMultiplier e;
     hasShield := hasShield e; multiShotCount := multiShotCount e |}.

Definition set_powerUps (v : list PowerUp.t) (e : t) : t :=
  {| base := base e; enemies := enemies e; bullets := bullets e;
     scorePopups := scorePopups e; particles := particles e; powerUps := v;
     boss := boss e; gameState := gameState e;
     canvasWidth := canvasWidth e; canvasHeight := canvasHeight e;
     lastSpawnTime := lastSpawnTime e;
     lastPowerUpSpawn := lastPowerUpSpawn e;
     spawnInterval := spawnInterval e; activePowerUps := activePowerUps e;
     baseSpeedMultiplier := baseSpeedMultiplier e;
     shootCooldownMultiplier := shootCooldownMultiplier e;
     hasShield := hasShield e; multiShotCount := multiShotCount e |}.

Definition set_gameState (v : GameState.t) (e : t) : t :=
  {| base := base e; enemies := enemies e; bullets := bullets e;
     scorePopups := scorePopups e; particles := particles e;
     powerUps := powerUps e; boss := boss e; gameState := v;
     canvasWidth := canvasWidth e; canvasHeight := canvasHeight e;
     lastSpawnTime := lastSpawnTime e;
     lastPowerUpSpawn := lastPowerUpSpawn e;
     spawnInterval := spawnInterval e; activePowerUps := activePowerUps e;
     baseSpeedMultiplier := baseSpeedMultiplier e;
     shootCooldownMultiplier := shootCooldownMultiplier e;
     hasShield := hasShield e; multiShotCount := multiShotCount e |}.

Definition set_lastSpawnTime (v : Z) (e : t) : t :=
  {| base := base e; enemies := enemies e; bullets := bullets e;
     scorePopups := scorePopups e; particles := particles e;
     powerUps := powerUps e; boss := boss e; gameState := gameState e;
     canvasWidth := canvasWidth e; canvasHeight := canvasHeight e;
     lastSpawnTime := v; lastPowerUpSpawn := lastPowerUpSpawn e;
     spawnInterval := spawnInterval e; activePowerUps := activePowerUps e;
     baseSpeedMultiplier := baseSpeedMultiplier e;
     shootCooldownMultiplier := shootCooldownMultiplier e;
     hasShield := hasShield e; multiShotCount := multiShotCount e |}.

Definition set_lastPowerUpSpawn (v : Z) (e : t) : t :=
  {| base := base e; enemies := enemies e; bullets := bullets e;
     scorePopups := scorePopups e; particles := particles e;
     powerUps := powerUps e; boss := boss e; gameState := gameState e;
     canvasWidth := canvasWidth e; canvasHeight := canvasHeight e;
     lastSpawnTime := lastSpawnTime e; lastPowerUpSpawn := v;
     spawnInterval := spawnInterval e; activePowerUps := activePowerUps e;
     baseSpeedMultiplier := baseSpeedMultiplier e;
     shootCooldownMultiplier := shootCooldownMultiplier e;
     hasShield := hasShield e; multiShotCount := multiShotCount e |}.

Definition set_spawnInterval (v : Z) (e : t) : t :=
  {| base := base e; enemies := enemies e; bullets := bullets e;
     scorePopups := scorePopups e; particles := particles e;
     powerUps := powerUps e; boss := boss e; gameState := gameState e;
     canvasWidth := canvasWidth e; canvasHeight := canvasHeight e;
     lastSpawnTime := lastSpawnTime e;
     lastPowerUpSpawn := lastPowerUpSpawn e; spawnInterval := v;
     activePowerUps := activePowerUps e;
     baseSpeedMultiplier := baseSpeedMultiplier e;
     shootCooldownMultiplier := shootCooldownMultiplier e;
     hasShield := hasShield e; multiShotCount := multiShotCount e |}.

Definition set_activePowerUps (v : ActiveMap) (e : t) : t :=
  {| base := base e; enemies := enemies e; bullets := bullets e;
     scorePopups := scorePopups e; particles := particles e;
     powerUps := powerUps e; boss := boss e; gameState := gameState e;
     canvasWidth := canvasWidth e; canvasHeight := canvasHeight e;
     lastSpawnTime := lastSpawnTime e;
     lastPowerUpSpawn := lastPowerUpSpawn e;
     spawnInterval := spawnInterval e; activePowerUps := v;
     baseSpeedMultiplier := baseSpeedMultiplier e;
     shootCooldownMultiplier := shootCooldownMultiplier e;
     hasShield := hasShield e; multiShotCount := multiShotCount e |}.

Definition set_baseSpeedMultiplier (v : Q) (e : t) : t :=
  {| base := base e; enemies := enemies e; bullets := bullets e;
     scorePopups := scorePopups e; particles := particles e;
     powerUps := powerUps e; boss := boss e; gameState := gameState e;
     canvasWidth := canvasWidth e; canvasHeight := canvasHeight e;
     lastSpawnTime := lastSpawnTime e;
     lastPowerUpSpawn := lastPowerUpSpawn e;
     spawnInterval := spawnInterval e; activePowerUps := activePowerUps e;
     baseSpeedMultiplier := v;
     shootCooldownMultiplier := shootCooldownMultiplier e;
     hasShield := hasShield e; multiShotCount := multiShotCount e |}.

Definition set_shootCooldownMultiplier (v : Q) (e : t) : t :=
  {| base := base e; enemies := enemies e; bullets := bullets e;
     scorePopups := scorePopups e; particles := particles e;
     powerUps := powerUps e; boss := boss e; gameState := gameState e;
     canvasWidth := canvasWidth e; canvasHeight := canvasHeight e;
     lastSpawnTime := lastSpawnTime e;
     lastPowerUpSpawn := lastPowerUpSpawn e;
     spawnInterval := spawnInterval e; activePowerUps := activePowerUps e;
     baseSpeedMultiplier := baseSpeedMultiplier e;
     shootCooldownMultiplier := v; hasShield := hasShield e;
     multiShotCount := multiShotCount e |}.

Definition set_hasShield (v : bool) (e : t) : t :=
  {| base := base e; enemies := enemies e; bullets := bullets e;
     scorePopups := scorePopups e; particles := particles e;
     powerUps := powerUps e; boss := boss e; gameState := gameState e;
     canvasWidth := canvasWidth e; canvasHeight := canvasHeight e;
     lastSpawnTime := lastSpawnTime e;
     lastPowerUpSpawn := lastPowerUpSpawn e;
     spawnInterval := spawnInterval e; activePowerUps := activePowerUps e;
     baseSpeedMultiplier := baseSpeedMultiplier e;
     shootCooldownMultiplier := shootCooldownMultiplier e; hasShield := v;
     multiShotCount := multiShotCount e |}.

Definition set_multiShotCount (v : Z) (e : t) : t :=
  {| base := base e; enemies := enemies e; bullets := bullets e;
     scorePopups := scorePopups e; particles := particles e;
     powerUps := powerUps e; boss := boss e; gameState := gameState e;
     canvasWidth := canvasWidth e; canvasHeight := canvasHeight e;
     lastSpawnTime := lastSpawnTime e;
     lastPowerUpSpawn := lastPowerUpSpawn e;
     spawnInterval := spawnInterval e; activePowerUps := activePowerUps e;
     baseSpeedMultiplier := baseSpeedMultiplier e;
     shootCooldownMultiplier := shootCooldownMultiplier e;
     hasShield := hasShield e; multiShotCount := v |}.

(** The engine together with the world it runs in. *)
Definition Machine : Type := t * World.

Definition levelDurations (level : Z) : option Z :=
  if (level =? 1)%Z then Some 30000%Z
  else if (level =? 2)%Z then Some 60000%Z
  else if (level =? 3)%Z then Some 40000%Z
  else None.

(** The field initialisers, then the body of the constructor. *)
Definition new (canvasWidth canvasHeight : Q) (w : World) : Machine :=
  let base := Base.new canvasWidth canvasHeight in
  let (now, w) := Date_now w in
  ({| enemies := [];
      bullets := [];
      scorePopups := [];
      particles := [];
      lastSpawnTime := 0;
      lastPowerUpSpawn := 0;
      spawnInterval := 1000;
      canvasWidth := canvasWidth;
      canvasHeight := canvasHeight;
      base := base;
      gameState :=
        {| score := 0;
           level := 1;
           playerHealth := Base.health base;
           maxPlayerHealth := Base.maxHealth base;
           isGameOver := false;
           isPaused := false;
           levelStartTime := now;
           levelDuration := levelDurations 1;
           enemiesKilled := 0;
           bulletsShot := 0;
           bulletsHit := 0;
           gameStartTime := now;
           combo := 0;
           comboMultiplier := 1;
           lastKillTime := 0 |};
      activePowerUps := [];
      baseSpeedMultiplier := 1;
      shootCooldownMultiplier := 1;
      hasShield := false;
      multiShotCount := 1;
      boss := None;
      powerUps := [] |}, w).

(** [spawnEnemies(currentTime)] *)
Definition spawnEnemies (currentTime : Z) (s : Machine) : Machine :=
  let (e, w) := s in
  if (spawnInterval e <=? currentTime - lastSpawnTime e)%Z then
    let (enemy, w) :=
      EnemyFactory.createRandomEnemy
        (level (gameState e)) (canvasWidth e) (canvasHeight e) w in
    let e := match enemy with
             | Some enemy => set_enemies (enemies e ++ [enemy]) e
             | None => e
             end in
    let e := set_lastSpawnTime currentTime e in
    (set_spawnInterval
       (Z.max 500 (1500 - (level (gameState e) - 1) * 150)) e, w)
  else (e, w).

(** [nextLevel()] *)
Definition nextLevel (s : Machine) : Machine :=
  let (e, w) := s in
  if (level (gameState e) <? 3)%Z then
    let previousLevel := level (gameState e) in
    let e := set_gameState (set_level (level (gameState e) + 1) (gameState e)) e in
    let e := set_enemies [] e in
    let e := set_bullets [] e in
    let (now1, w) := Date_now w in
    let e := set_gameState (set_levelStartTime now1 (gameState e)) e in
    let e := set_gameState
               (set_levelDuration (levelDurations (level (gameState e)))
                  (gameState e)) e in
    let (now2, w) := Date_now w in
    let e := set_lastSpawnTime now2 e in
    if (previousLevel =? 2)%Z then
      let e := set_base (Base.set_health 100 (base e)) e in
      let e := set_base (Base.set_maxHealth 100 (base e)) e in
      let e := set_gameState (set_playerHealth 100 (gameState e)) e in
      let e := set_gameState (set_maxPlayerHealth 100 (gameState e)) e in
      (e, w)
    else (e, w)
  else
    (set_gameState (set_isGameOver true (gameState e)) e, w).

(** [shoot()] *)
Definition playerBullet (center : Position.t) (vy : Q) : Bullet.t :=
  {| Bullet.x := Position.x center;
     Bullet.y := Position.y center;
     Bullet.vx := 8;
     Bullet.vy := vy;
     Bullet.width := 10;
     Bullet.height := 10;
     Bullet.isPlayerBullet := true;
     Bullet.damage := 20 |}.

(** The [for] loop of [shoot]: [n] rounds left, starting at index [i]. *)
Fixpoint fan (center : Position.t) (count : Z) (n : nat) (i : Z)
    : list Bullet.t :=
  match n with
  | O => []
  | S n' =>
      let spread := 0.3 in
      let offset := (inject_Z i - (inject_Z count - 1) / 2) * spread in
      playerBullet center (offset * 8) :: fan center count n' (i + 1)
  end.

Definition shoot (e : t) : t :=
  let center := Base.getCenter (base e) in
  let e :=
    if (1 <? multiShotCount e)%Z then
      set_bullets
        (bullets e
         ++ fan center (multiShotCount e) (Z.to_nat (multiShotCount e)) 0) e
    else
      set_bullets (bullets e ++ [playerBullet center 0]) e in
  set_gameState (set_bulletsShot (bulletsShot (gameState e) + 1) (gameState e)) e.

(** [spawnPowerUp(x, y)] *)
Definition spawnPowerUp (x y : Q) (s : Machine) : Machine :=
  let (e, w) := s in
  let types := [SPEED_BOOST; RAPID_FIRE; SHIELD; MULTI_SHOT] in
  let (r, w) := Math_random w in
  let type := pick r types SPEED_BOOST in
  (set_powerUps
     (powerUps e
      ++ [ {| PowerUp.x := x;
              PowerUp.y := y;
              PowerUp.type := type;
              PowerUp.lifetime := 0;
              PowerUp.maxLifetime := 10000;
              PowerUp.size := 30 |} ]) e, w).

(** [activatePowerUp(type)] *)
Definition activatePowerUp (type : PowerUpType) (s : Machine) : Machine :=
  let (e, w) := s in
  let duration := 10000%Z in
  let (now, w) := Date_now w in
  let expiration := (now + duration)%Z in
  let e := set_activePowerUps (Map_set type expiration (activePowerUps e)) e in
  (match type with
   | SPEED_BOOST => set_baseSpeedMultiplier 1.5 e
   | RAPID_FIRE => set_shootCooldownMultiplier 0.5 e
   | SHIELD => set_hasShield true e
   | MULTI_SHOT => set_multiShotCount 3 e
   end, w).

(** [deactivatePowerUp(type)] *)
Definition deactivatePowerUp (type : PowerUpType) (e : t) : t :=
  match type with
  | SPEED_BOOST => set_baseSpeedMultiplier 1 e
  | RAPID_FIRE => set_shootCooldownMultiplier 1 e
  | SHIELD => set_hasShield false e
  | MULTI_SHOT => set_multiShotCount 1 e
  end.

(** [updatePowerUps(currentTime)].  [Map.forEach] visits every entry once,
    in insertion order; the callback deletes no entry but the visited one. *)
Definition expire (currentTime : Z) (e : t) (entry : PowerUpType * Z) : t :=
  let (type, expiration) := entry in
  if (expiration <=? currentTime)%Z then
    let e := deactivatePowerUp type e in
    set_activePowerUps (Map_delete type (activePowerUps e)) e
  else e.

Definition agePowerUp (p : PowerUp.t) : PowerUp.t :=
  {| PowerUp.x := PowerUp.x p; PowerUp.y := PowerUp.y p;
     PowerUp.type := PowerUp.type p;
     PowerUp.lifetime := PowerUp.lifetime p + 16;
     PowerUp.maxLifetime := PowerUp.maxLifetime p;
     PowerUp.size := PowerUp.size p |}.

Definition updatePowerUps (currentTime : Z) (e : t) : t :=
  let e := fold_left (expire currentTime) (activePowerUps e) e in
  set_powerUps
    (filter (fun p => Qltb (PowerUp.lifetime p) (PowerUp.maxLifetime p))
            (map agePowerUp (powerUps e))) e.

(** [updateCombo()] *)
Definition updateCombo (s : Machine) : Machine :=
  let (e, w) := s in
  let (currentTime, w) := Date_now w in
  if (0 <? lastKillTime (gameState e))%Z
     && (2000 <? currentTime - lastKillTime (gameState e))%Z
  then
    (set_gameState
       (set_comboMultiplier 1 (set_combo 0 (gameState e))) e, w)
  else (e, w).

(** [reset()] *)
Definition reset (s : Machine) : Machine :=
  let (e, w) := s in
  let base := Base.new (canvasWidth e) (canvasHeight e) in
  let (now, w) := Date_now w in
  ({| base := base;
      enemies := [];
      bullets := [];
      scorePopups := [];
      particles := [];
      powerUps := [];
      boss := None;
      gameState :=
        {| score := 0;
           level := 1;
           playerHealth := Base.health base;
           maxPlayerHealth := Base.maxHealth base;
           isGameOver := false;
           isPaused := false;
           levelStartTime := now;
           levelDuration := levelDurations 1;
           enemiesKilled := 0;
           bulletsShot := 0;
           bulletsHit := 0;
           gameStartTime := now;
           combo := 0;
           comboMultiplier := 1;
           lastKillTime := 0 |};
      lastSpawnTime := now;
      lastPowerUpSpawn := now;
      activePowerUps := [];
      baseSpeedMultiplier := 1;
      shootCooldownMultiplier := 1;
      hasShield := false;
      multiShotCount := 1;
      canvasWidth := canvasWidth e;
      canvasHeight := canvasHeight e;
      spawnInterval := spawnInterval e |}, w).

(** *** [update()], phase by phase *)
Section Update.
Variable M : MathLib.

(** The callback of [this.enemies.forEach] that moves an enemy, lets it
    fire and resolves its melee contact.  The enemy object is mutated in
    place: the result is written back at its index. *)
Definition updateEnemy (currentTime : Z) (enemy : Enemy.t) (k : nat)
    (s : Machine) : Machine :=
  let (e, w) := s in
  let enemy := Enemy.update (canvasWidth e) (canvasHeight e) enemy in
  let '(e, enemy, w) :=
    if Enemy.canShoot currentTime enemy then
      let baseCenter := Base.getCenter (base e) in
      let '(fired, enemy, w) := Enemy.shoot M baseCenter enemy w in
      (set_bullets (bullets e ++ fired) e, enemy, w)
    else (e, enemy, w) in
  let (e, enemy) :=
    if negb (EnemyConfig.canShoot (Enemy.config enemy))
       && enemyBaseCollision enemy (base e)
    then
      let e := set_base (Base.takeDamage 5 (base e)) e in
      let e := set_gameState
                 (set_playerHealth (Base.health (base e)) (gameState e)) e in
      (e, Enemy.takeDamage 100 enemy)
    else (e, enemy) in
  (set_enemies (assign k enemy (enemies e)) e, w).

Definition moveBullet (b : Bullet.t) : Bullet.t :=
  {| Bullet.x := Bullet.x b + Bullet.vx b;
     Bullet.y := Bullet.y b + Bullet.vy b;
     Bullet.vx := Bullet.vx b; Bullet.vy := Bullet.vy b;
     Bullet.width := Bullet.width b; Bullet.height := Bullet.height b;
     Bullet.isPlayerBullet := Bullet.isPlayerBullet b;
     Bullet.damage := Bullet.damage b |}.

Definition deltaTime : Q := 16.

Definition agePopup (p : ScorePopup.t) : ScorePopup.t :=
  {| ScorePopup.x := ScorePopup.x p;
     ScorePopup.y := ScorePopup.y p - 1;
     ScorePopup.value := ScorePopup.value p;
     ScorePopup.lifetime := ScorePopup.lifetime p + deltaTime;
     ScorePopup.maxLifetime := ScorePopup.maxLifetime p |}.

Definition ageParticle (p : Particle.t) : Particle.t :=
  {| Particle.x := Particle.x p + Particle.vx p;
     Particle.y := Particle.y p + Particle.vy p;
     Particle.vx := Particle.vx p * 0.98;
     Particle.vy := Particle.vy p + 0.1;
     Particle.lifetime := Particle.lifetime p + deltaTime;
     Particle.maxLifetime := Particle.maxLifetime p;
     Particle.color := Particle.color p;
     Particle.size := Particle.size p |}.

Definition inPlayfield (e : t) (b : Bullet.t) : bool :=
  Qltb (-50) (Bullet.x b) && Qltb (Bullet.x b) (canvasWidth e + 50) &&
  Qltb (-50) (Bullet.y b) && Qltb (Bullet.y b) (canvasHeight e + 50).

(** The [for] loop that pushes the explosion particles: [n] rounds left,
    starting at index [i]. *)
Fixpoint explosion (center : Position.t) (n : nat) (i : Z) (s : Machine)
    : Machine :=
  match n with
  | O => s
  | S n' =>
      let (e, w) := s in
      let particleCount := 15 in
      let colors := ["#FFD700"; "#FF6B6B"; "#4ECDC4"; "#FFE66D"; "#FF6B9D"]%string in
      let angle := (Math_PI M * 2 * inject_Z i) / particleCount in
      let (r1, w) := Math_random w in
      let speed := 2 + r1 * 3 in
      let (r2, w) := Math_random w in
      let (r3, w) := Math_random w in
      let (r4, w) := Math_random w in
      let e :=
        set_particles
          (particles e
           ++ [ {| Particle.x := Position.x center;
                   Particle.y := Position.y center;
                   Particle.vx := Math_cos M angle * speed;
                   Particle.vy := Math_sin M angle * speed;
                   Particle.lifetime := 0;
                   Particle.maxLifetime := 500 + r2 * 500;
                   Particle.color := pick r3 colors "#FFD700"%string;
                   Particle.size := 3 + r4 * 4 |} ]) e in
      explosion center n' (i + 1) (e, w)
  end.

(** The branch [if (!enemy.isAlive())] of the collision callback, first
    part: the combo, the points and the counters written into the game state.
    The result carries [points] for the popup. *)
Definition scoreKill (currentTime : Z) (g : GameState.t) : GameState.t * Z :=
  let timeSinceLastKill := (currentTime - lastKillTime g)%Z in
  let g :=
    if (timeSinceLastKill <? 2000)%Z && (0 <? lastKillTime g)%Z then
      let g := set_combo (combo g + 1) g in
      set_comboMultiplier (Qmin (1 + inject_Z (combo g) * 0.1) 3) g
    else
      set_comboMultiplier 1 (set_combo 1 g) in
  let g := set_lastKillTime currentTime g in
  let basePoints := if (level g =? 3)%Z then 500%Z else (10 * level g)%Z in
  let points := Math_round (inject_Z basePoints * comboMultiplier g) in
  let g := set_score (score g + points) g in
  let g := set_enemiesKilled (enemiesKilled g + 1) g in
  let g := set_bulletsHit (bulletsHit g + 1) g in
  (g, points).

(** The same branch as a whole: the clock is read, the entry is made in the
    game state, then come the popup, the particles, the pickup and the
    removal of the enemy. *)
Definition registerKill (enemy : Enemy.t) (enemyIndex : nat) (s : Machine)
    : Machine :=
  let (e, w) := s in
  let (currentTime, w) := Date_now w in
  let (g, points) := scoreKill currentTime (gameState e) in
  let e := set_gameState g e in
  let enemyCenter := Enemy.getCenter enemy in
  let e :=
    set_scorePopups
      (scorePopups e
       ++ [ {| ScorePopup.x := Position.x enemyCenter;
               ScorePopup.y := Position.y enemyCenter;
               ScorePopup.value := points;
               ScorePopup.lifetime := 0;
               ScorePopup.maxLifetime := 1000 |} ]) e in
  let (e, w) := explosion enemyCenter 15 0 (e, w) in
  let (r, w) := Math_random w in
  let (e, w) :=
    if Qltb r 0.1
    then spawnPowerUp (Position.x enemyCenter) (Position.y enemyCenter) (e, w)
    else (e, w) in
  (set_enemies (splice1 enemyIndex (enemies e)) e, w).

(** The callback of the inner [this.enemies.forEach]: [bullet] and
    [bulletIndex] are those the outer traversal was called with. *)
Definition hitEnemy (bullet : Bullet.t) (bulletIndex : nat)
    (enemy : Enemy.t) (enemyIndex : nat) (s : Machine) : Machine :=
  let (e, w) := s in
  if bulletEnemyCollision bullet enemy then
    let enemy := Enemy.takeDamage (Bullet.damage bullet) enemy in
    let e := set_enemies (assign enemyIndex enemy (enemies e)) e in
    let e := set_bullets (splice1 bulletIndex (bullets e)) e in
    if negb (Enemy.isAlive enemy)
    then registerKill enemy enemyIndex (e, w)
    else (e, w)
  else (e, w).

(** The callback of the outer [this.bullets.forEach]. *)
Definition playerBulletVsEnemies (bullet : Bullet.t) (bulletIndex : nat)
    (s : Machine) : Machine :=
  if Bullet.isPlayerBullet bullet then
    forEach (fun s => enemies (fst s)) (hitEnemy bullet bulletIndex) s
  else s.

(** The callback of the second [this.bullets.forEach]: enemy bullets
    against the player. *)
Definition hitBase (bullet : Bullet.t) (bulletIndex : nat) (s : Machine)
    : Machine :=
  let (e, w) := s in
  if negb (Bullet.isPlayerBullet bullet) then
    if bulletBaseCollision bullet (base e) then
      let e :=
        if hasShield e then set_hasShield false e
        else set_base (Base.takeDamage (Bullet.damage bullet) (base e)) e in
      let e := set_gameState
                 (set_playerHealth (Base.health (base e)) (gameState e)) e in
      let e := set_bullets (splice1 bulletIndex (bullets e)) e in
      if negb (Base.isAlive (base e))
      then (set_gameState (set_isGameOver true (gameState e)) e, w)
      else (e, w)
    else (e, w)
  else (e, w).

(** The callback of [checkPowerUpCollisions].  The hook
    [onPowerUpCollected], when the page has installed one, only counts on
    the page's side. *)
Definition collect (powerUp : PowerUp.t) (index : nat) (s : Machine)
    : Machine :=
  let (e, w) := s in
  let baseCenter := Base.getCenter (base e) in
  let dx := PowerUp.x powerUp - Position.x baseCenter in
  let dy := PowerUp.y powerUp - Position.y baseCenter in
  let distance := Math_sqrt M (dx * dx + dy * dy) in
  if Qltb distance (PowerUp.size powerUp + 30) then
    let (e, w) := activatePowerUp (PowerUp.type powerUp) (e, w) in
    (set_powerUps (splice1 index (powerUps e)) e, w)
  else (e, w).

Definition checkPowerUpCollisions (s : Machine) : Machine :=
  forEach (fun s => powerUps (fst s)) collect s.

(** The periodic pickup at the right edge. *)
Definition periodicPowerUp (currentTime : Z) (s : Machine) : Machine :=
  let (e, w) := s in
  if (15000 <? currentTime - lastPowerUpSpawn e)%Z then
    let (r, w) := Math_random w in
    if Qltb r 0.3 then
      let (r', w) := Math_random w in
      let (e, w) :=
        spawnPowerUp (canvasWidth e - 50) (r' * (canvasHeight e - 50)) (e, w) in
      (set_lastPowerUpSpawn currentTime e, w)
    else (e, w)
  else (e, w).

(** [levelElapsed >= levelDuration]; false against [undefined]. *)
Definition levelOver (levelElapsed : Z) (levelDuration : option Z) : bool :=
  match levelDuration with
  | Some d => (d <=? levelElapsed)%Z
  | None => false
  end.

(** Everything [update] does after the level check. *)
Definition frame (currentTime : Z) (s : Machine) : Machine :=
  let s := spawnEnemies currentTime s in
  let s := forEach (fun s => enemies (fst s)) (updateEnemy currentTime) s in
  let (e, w) := s in
  let e := set_bullets (map moveBullet (bullets e)) e in
  let (e, w) := updateCombo (e, w) in
  let e :=
    set_scorePopups
      (filter (fun p => Qltb (ScorePopup.lifetime p) (ScorePopup.maxLifetime p))
              (map agePopup (scorePopups e))) e in
  let e :=
    set_particles
      (filter (fun p => Qltb (Particle.lifetime p) (Particle.maxLifetime p))
              (map ageParticle (particles e))) e in
  let e := set_bullets (filter (inPlayfield e) (bullets e)) e in
  let e := set_enemies (filter (fun en => negb (Enemy.isOffScreen en))
                               (enemies e)) e in
  let s := forEach (fun s => bullets (fst s)) playerBulletVsEnemies (e, w) in
  let s := forEach (fun s => bullets (fst s)) hitBase s in
  let (e, w) := s in
  let e := updatePowerUps currentTime e in
  let s := checkPowerUpCollisions (e, w) in
  let (e, w) := periodicPowerUp currentTime s in
  (set_gameState (set_playerHealth (Base.health (base e)) (gameState e)) e, w).

Definition update (s : Machine) : Machine :=
  let (e, w) := s in
  if isPaused (gameState e) || isGameOver (gameState e) then (e, w) else
  let (currentTime, w) := Date_now w in
  let levelElapsed := (currentTime - levelStartTime (gameState e))%Z in
  if levelOver levelElapsed (levelDuration (gameState e))
  then nextLevel (e, w)
  else frame currentTime (e, w).
End Update.

(** The page's pause button: [gameState.isPaused = !gameState.isPaused]. *)
Definition togglePause (e : t) : t :=
  set_gameState (set_isPaused (negb (isPaused (gameState e))) (gameState e)) e.

(** The page's movement keys: [base.moveUp(h, engine.baseSpeedMultiplier)]
    and [base.moveDown(h, engine.baseSpeedMultiplier)]. *)
Definition moveUp (h : Q) (e : t) : t :=
  set_base (Base.moveUp h (baseSpeedMultiplier e) (base e)) e.

Definition moveDown (h : Q) (e : t) : t :=
  set_base (Base.moveDown h (baseSpeedMultiplier e) (base e)) e.
End GameEngine.

(** * The achievement manager and two handlers of the page

    Sources embedded here: the class [AchievementManager], the interface
    [Achievement] of [lib/game/types.ts], and from the page component its
    touch handler [handleShoot] and the body of its one-second timer that
    checks the achievements.  The store in [localStorage], the sound and the
    callbacks registered with [onUnlock] do not write the list modelled here
    and are left out. *)

Module Achievement.
Record t := {
  id : string;
  name : string;
  description : string;
  unlocked : bool;
  unlockedAt : option Z       (* [None]: [undefined] *)
}.

Definition unlockAt (timestamp : Z) (a : t) : t :=
  {| id := id a; name := name a; description := description a;
     unlocked := true; unlockedAt := Some timestamp |}.

Definition lock (a : t) : t :=
  {| id := id a; name := name a; description := description a;
     unlocked := false; unlockedAt := None |}.
End Achievement.

(** The [stats] argument of [checkAchievements]. *)
Module Stats.
Record t := {
  enemiesKilled : Z;
  bulletsShot : Z;
  bulletsHit : Z;
  gameStartTime : Z;
  powerUpsCollected : Z
}.
End Stats.

Module AchievementManager.

(** The field [achievements]; the objects in it are mutated in place. *)
Definition t := list Achievement.t.

(** The list [loadAchievements] installs when nothing is saved. *)
Definition defaults : t :=
  map (fun entry : string * (string * string) =>
         {| Achievement.id := fst entry;
            Achievement.name := fst (snd entry);
            Achievement.description := snd (snd entry);
            Achievement.unlocked := false;
            Achievement.unlockedAt := None |})
      [ ("first_kill", ("First Blood", "Kill your first enemy"));
        ("level_1", ("Level 1 Complete", "Complete Level 1"));
        ("level_2", ("Level 2 Complete", "Complete Level 2"));
        ("level_3", ("Level 3 Complete", "Complete Level 3"));
        ("combo_5", ("Combo Master", "Get a 5x combo"));
        ("combo_10", ("Combo Legend", "Get a 10x combo"));
        ("accuracy_80", ("Sharpshooter", "Achieve 80% accuracy"));
        ("accuracy_100", ("Perfect Aim", "Achieve 100% accuracy"));
        ("survivor", ("Survivor", "Survive for 2 minutes"));
        ("power_collector", ("Power Collector", "Collect 10 power-ups"));
        ("score_1000", ("Score Master", "Score 1000 points"));
        ("score_5000", ("Score Legend", "Score 5000 points")) ]%string.

(** [this.achievements.find(a => a.id === id)] *)
Definition lookup (id : string) (m : t) : option Achievement.t :=
  find (fun a => String.eqb (Achievement.id a) id) m.

(** [isUnlocked(id)]: [achievement?.unlocked || false] *)
Definition isUnlocked (id : string) (m : t) : bool :=
  match lookup id m with
  | Some a => Achievement.unlocked a
  | None => false
  end.

(** The write of [unlock] into the object that [find] returns: the first
    entry of that id. *)
Fixpoint mark (id : string) (timestamp : Z) (m : t) : t :=
  match m with
  | [] => []
  | a :: rest =>
      if String.eqb (Achievement.id a) id
      then Achievement.unlockAt timestamp a :: rest
      else a :: mark id timestamp rest
  end.

(** [unlock(id, timestamp)]; the result is [None] for [undefined], which
    [achievement!] lets through when no entry has the id. *)
Definition unlock (id : string) (timestamp : Z) (m : t)
    : t * option Achievement.t :=
  match lookup id m with
  | Some a =>
      if negb (Achievement.unlocked a)
      then (mark id timestamp m, Some (Achievement.unlockAt timestamp a))
      else (m, Some a)
  | None => (m, None)
  end.

(** One statement of [checkAchievements]:
    [if (cond && !this.isUnlocked(id)) newlyUnlocked.push(this.unlock(id, now))]. *)
Definition attempt (now : Z) (st : t * list (option Achievement.t))
    (rule : bool * string) : t * list (option Achievement.t) :=
  let (m, newlyUnlocked) := st in
  let (cond, id) := rule in
  if cond && negb (isUnlocked id m) then
    let (m, a) := unlock id now m in
    (m, newlyUnlocked ++ [a])
  else (m, newlyUnlocked).

(** The conditions of the twelve statements, in the order of the source.
    They read the arguments and [now] only, which no statement writes. *)
Definition rules (gameState : GameState.t) (stats : Stats.t) (now : Z)
    : list (bool * string) :=
  let accuracy :=
    if (0 <? Stats.bulletsShot stats)%Z
    then (inject_Z (Stats.bulletsHit stats)
          / inject_Z (Stats.bulletsShot stats)) * 100
    else 0 in
  let timePlayed := inject_Z (now - Stats.gameStartTime stats) / 1000 in
  [ ((1 <=? Stats.enemiesKilled stats)%Z, "first_kill");
    ((2 <=? GameState.level gameState)%Z, "level_1");
    ((3 <=? GameState.level gameState)%Z, "level_2");
    (GameState.isGameOver gameState
     && (GameState.level gameState =? 3)%Z, "level_3");
    ((5 <=? GameState.combo gameState)%Z, "combo_5");
    ((10 <=? GameState.combo gameState)%Z, "combo_10");
    (Qleb 80 accuracy, "accuracy_80");
    (Qleb 100 accuracy && (10 <=? Stats.bulletsShot stats)%Z, "accuracy_100");
    (Qleb 120 timePlayed, "survivor");
    ((10 <=? Stats.powerUpsCollected stats)%Z, "power_collector");
    ((1000 <=? GameState.score gameState)%Z, "score_1000");
    ((5000 <=? GameState.score gameState)%Z, "score_5000") ]%string.

(** [checkAchievements(gameState, stats)]: the array returned, the list as
    it is left, and the world after the reading of the clock. *)
Definition checkAchievements (gameState : GameState.t) (stats : Stats.t)
    (m : t) (w : World) : list (option Achievement.t) * t * World :=
  let (now, w) := Date_now w in
  let (m, newlyUnlocked) :=
    fold_left (attempt now) (rules gameState stats now) (m, []) in
  (newlyUnlocked, m, w).

(** [getUnlockedAchievements()] *)
Definition getUnlockedAchievements (m : t) : t :=
  filter Achievement.unlocked m.

(** [reset()] *)
Definition reset (m : t) : t := map Achievement.lock m.
End AchievementManager.

(** ** The page *)

Module Page.
Import GameEngine GameState.

(** The body of the timer that runs every second, as far as the achievements
    go: they are checked while the game is neither paused nor over, on the
    engine's game state and on the page's count of collected power-ups. *)
Definition achievementTick (powerUpsCollected : Z) (e : GameEngine.t)
    (m : AchievementManager.t) (w : World)
    : list (option Achievement.t) * AchievementManager.t * World :=
  if negb (isPaused (gameState e)) && negb (isGameOver (gameState e)) then
    let stats :=
      {| Stats.enemiesKilled := enemiesKilled (gameState e);
         Stats.bulletsShot := bulletsShot (gameState e);
         Stats.bulletsHit := bulletsHit (gameState e);
         Stats.gameStartTime := gameStartTime (gameState e);
         Stats.powerUpsCollected := powerUpsCollected |} in
    AchievementManager.checkAchievements (gameState e) stats m w
  else ([], m, w).

(** [handleShoot], the handler of the touch button, with the cell
    [lastShootTimeRef] it keeps between calls. *)
Definition BASE_SHOOT_COOLDOWN : Q := 1500.

Definition handleShoot (lastShootTime : Z) (s : Machine) : Z * Machine :=
  let (e, w) := s in
  let (now, w) := Date_now w in
  let cooldown := BASE_SHOOT_COOLDOWN * shootCooldownMultiplier e in
  if negb (isGameOver (gameState e))
     && negb (isPaused (gameState e))
     && Qleb cooldown (inject_Z (now - lastShootTime))
  then (now, (shoot e, w))
  else (lastShootTime, (e, w)).
End Page.

(** * Vocabulary of the statements *)

(** [w'] is what is left of the world [w] after some reads of the clock and
    some draws. *)
Definition later (w w' : World) : Prop :=
  exists k, forall n, clock w' n = clock w (k + n)%nat.

(** The clock never goes back. *)
Definition monotone (w : World) : Prop :=
  forall i j, (i <= j)%nat -> (clock w i <= clock w j)%Z.

Module Combo.
Import GameState.

(** The combo multiplier is within [1, 3], over a combo count that is not
    negative. *)
Definition bounded (g : GameState.t) : Prop :=
  (0 <= combo g)%Z /\ 1 <= comboMultiplier g /\ comboMultiplier g <= 3.

(** Nothing of the combo bookkeeping moves. *)
Definition quiet (g g' : GameState.t) : Prop :=
  combo g' = combo g /\ comboMultiplier g' = comboMultiplier g
  /\ lastKillTime g' = lastKillTime g /\ enemiesKilled g' = enemiesKilled g.

(** A kill at time [now] that continues the streak: a previous kill exists
    and is less than 2000 ms old. *)
Definition streak (now : Z) (g g' : GameState.t) : Prop :=
  (0 < lastKillTime g)%Z /\ (now - lastKillTime g < 2000)%Z
  /\ combo g' = (combo g + 1)%Z
  /\ comboMultiplier g' = Qmin (1 + inject_Z (combo g + 1) * 0.1) 3
  /\ lastKillTime g' = now /\ enemiesKilled g' = (enemiesKilled g + 1)%Z.

(** A kill at time [now] that starts a streak over. *)
Definition restart (now : Z) (g g' : GameState.t) : Prop :=
  ~ ((0 < lastKillTime g)%Z /\ (now - lastKillTime g < 2000)%Z)
  /\ combo g' = 1%Z /\ comboMultiplier g' = 1
  /\ lastKillTime g' = now /\ enemiesKilled g' = (enemiesKilled g + 1)%Z.

(** The decay of [updateCombo]. *)
Definition decay (g g' : GameState.t) : Prop :=
  combo g' = 0%Z /\ comboMultiplier g' = 1
  /\ lastKillTime g' = lastKillTime g /\ enemiesKilled g' = enemiesKilled g.

(** The points of a kill before the multiplier: 500 on level 3, ten times
    the level otherwise. *)
Definition basePoints (g : GameState.t) : Z :=
  if (level g =? 3)%Z then 500%Z else (10 * level g)%Z.

(** The whole entry a kill at time [now] makes in the game state. *)
Definition kill_at (now : Z) (g g' : GameState.t) : Prop :=
  (streak now g g' \/ restart now g g')
  /\ score g' = (score g + Math_round (inject_Z (basePoints g) * comboMultiplier g'))%Z
  /\ bulletsHit g' = (bulletsHit g + 1)%Z
  /\ level g' = level g
  /\ playerHealth g' = playerHealth g
  /\ maxPlayerHealth g' = maxPlayerHealth g
  /\ isGameOver g' = isGameOver g
  /\ isPaused g' = isPaused g
  /\ levelStartTime g' = levelStartTime g
  /\ levelDuration g' = levelDuration g
  /\ bulletsShot g' = bulletsShot g
  /\ gameStartTime g' = gameStartTime g.

(** What one statement of the engine can do to the combo bookkeeping. *)
Inductive event (g g' : GameState.t) : Prop :=
| Quiet : quiet g g' -> event g g'
| Streak now : streak now g g' -> event g g'
| Restart now : restart now g g' -> event g g'
| Decay : decay g g' -> event g g'.

(** What a run of statements can do to it. *)
Inductive trace : GameState.t -> GameState.t -> Prop :=
| Done g : trace g g
| Next g g1 g' : event g g1 -> trace g1 g' -> trace g g'.
End Combo.

(** ** Power-up modifiers *)

Module Modifier.
Import GameEngine.

(** The modifier of a power-up type stands at its boosted value. *)
Definition boosted (ty : PowerUpType) (e : GameEngine.t) : Prop :=
  match ty with
  | SPEED_BOOST => baseSpeedMultiplier e = 1.5
  | RAPID_FIRE => shootCooldownMultiplier e = 0.5
  | SHIELD => hasShield e = true
  | MULTI_SHOT => multiShotCount e = 3%Z
  end.

(** It stands at its baseline. *)
Definition baseline (ty : PowerUpType) (e : GameEngine.t) : Prop :=
  match ty with
  | SPEED_BOOST => baseSpeedMultiplier e = 1
  | RAPID_FIRE => shootCooldownMultiplier e = 1
  | SHIELD => hasShield e = false
  | MULTI_SHOT => multiShotCount e = 1%Z
  end.

(** It is the same in both engines. *)
Definition same (ty : PowerUpType) (e e' : GameEngine.t) : Prop :=
  match ty with
  | SPEED_BOOST => baseSpeedMultiplier e' = baseSpeedMultiplier e
  | RAPID_FIRE => shootCooldownMultiplier e' = shootCooldownMultiplier e
  | SHIELD => hasShield e' = hasShield e
  | MULTI_SHOT => multiShotCount e' = multiShotCount e
  end.

(** Every type has at most one entry in the active set. *)
Definition single (m : ActiveMap) : Prop := NoDup (map fst m).
End Modifier.

Module Run.
Import GameEngine GameState.

(** What no statement of a frame changes: the flags and timers of the level,
    the playfield and the count of shots; the world only advances, and the
    active set keeps one entry per type. *)
Definition steady (s s' : Machine) : Prop :=
  later (snd s) (snd s')
  /\ level (gameState (fst s')) = level (gameState (fst s))
  /\ isPaused (gameState (fst s')) = isPaused (gameState (fst s))
  /\ levelStartTime (gameState (fst s')) = levelStartTime (gameState (fst s))
  /\ levelDuration (gameState (fst s')) = levelDuration (gameState (fst s))
  /\ bulletsShot (gameState (fst s')) = bulletsShot (gameState (fst s))
  /\ canvasWidth (fst s') = canvasWidth (fst s)
  /\ canvasHeight (fst s') = canvasHeight (fst s)
  /\ (Modifier.single (activePowerUps (fst s)) ->
      Modifier.single (activePowerUps (fst s'))).

(** A run of statements without kill and without decay. *)
Definition calm (s s' : Machine) : Prop :=
  steady s s' /\ Combo.quiet (gameState (fst s)) (gameState (fst s')).

(** A run of statements of a frame. *)
Definition playing (s s' : Machine) : Prop :=
  steady s s' /\ Combo.trace (gameState (fst s)) (gameState (fst s')).
End Run.

(** ** The engine as the page drives it *)

(** The entry points the page calls on an engine it has built. *)
Inductive Op :=
| Update | Shoot | MoveUp (h : Q) | MoveDown (h : Q) | TogglePause | Reset.

Definition apply (M : MathLib) (o : Op) (s : GameEngine.Machine)
    : GameEngine.Machine :=
  match o with
  | Update => GameEngine.update M s
  | Shoot => (GameEngine.shoot (fst s), snd s)
  | MoveUp h => (GameEngine.moveUp h (fst s), snd s)
  | MoveDown h => (GameEngine.moveDown h (fst s), snd s)
  | TogglePause => (GameEngine.togglePause (fst s), snd s)
  | Reset => GameEngine.reset s
  end.

(** The states an engine can be in: built by the constructor, then driven
    through any calls, in any world. *)
Inductive reachable (M : MathLib) : GameEngine.Machine -> Prop :=
| Built cw ch w : reachable M (GameEngine.new cw ch w)
| Driven o s : reachable M s -> reachable M (apply M o s).

(** Neither paused nor over. *)
Definition running (e : GameEngine.t) : Prop :=
  GameState.isPaused (GameEngine.gameState e) = false
  /\ GameState.isGameOver (GameEngine.gameState e) = false.

(** The level's time is up at the clock's next reading. *)
Definition due (s : GameEngine.Machine) : Prop :=
  exists d,
    GameState.levelDuration (GameEngine.gameState (fst s)) = Some d
    /\ (d <= clock (snd s) 0
             - GameState.levelStartTime (GameEngine.gameState (fst s)))%Z.

(** ** One bullet over the enemy array *)

Module Sweep.

(** The enemy array after the traversal that one player bullet triggers,
    read off the array from its head: an enemy the bullet overlaps is
    damaged; when that kills it, it is taken out, and the enemy behind it,
    which moves into its index, is passed over. *)
Fixpoint enemiesAfter (b : Bullet.t) (es : list Enemy.t) : list Enemy.t :=
  match es with
  | [] => []
  | en :: rest =>
      if bulletEnemyCollision b en then
        if Enemy.isAlive (Enemy.takeDamage (Bullet.damage b) en) then
          Enemy.takeDamage (Bullet.damage b) en :: enemiesAfter b rest
        else
          match rest with
          | [] => []
          | passed :: rest' => passed :: enemiesAfter b rest'
          end
      else en :: enemiesAfter b rest
  end.

(** The number of enemies that traversal damages. *)
Fixpoint hits (b : Bullet.t) (es : list Enemy.t) : nat :=
  match es with
  | [] => 0
  | en :: rest =>
      if bulletEnemyCollision b en then
        if Enemy.isAlive (Enemy.takeDamage (Bullet.damage b) en) then
          S (hits b rest)
        else
          match rest with
          | [] => 1
          | passed :: rest' => S (hits b rest')
          end
      else hits b rest
  end.

(** The damage of the bullet on an enemy it overlaps. *)
Definition struck (b : Bullet.t) (en : Enemy.t) : Enemy.t :=
  if bulletEnemyCollision b en
  then Enemy.takeDamage (Bullet.damage b) en
  else en.

(** Every enemy the bullet overlaps outlives the hit. *)
Definition allSurvive (b : Bullet.t) (es : list Enemy.t) : Prop :=
  forall en, In en es -> bulletEnemyCollision b en = true ->
             (Bullet.damage b < Enemy.health en)%Z.
End Sweep.

(** ** Further vocabulary *)

(** The bullets a call of [shoot] adds to those in flight. *)
Definition fired (e : GameEngine.t) : list Bullet.t :=
  skipn (List.length (GameEngine.bullets e))
        (GameEngine.bullets (GameEngine.shoot e)).

(** A pickup that the filter of [updatePowerUps] keeps. *)
Definition onField (p : PowerUp.t) : bool :=
  Qltb (PowerUp.lifetime p) (PowerUp.maxLifetime p).

(** A particle as an explosion at [c] makes it. *)
Definition sparkAt (c : Position.t) (p : Particle.t) : Prop :=
  Particle.x p = Position.x c /\ Particle.y p = Position.y c
  /\ Particle.lifetime p = 0
  /\ 500 <= Particle.maxLifetime p <= 1000
  /\ 3 <= Particle.size p <= 7.

(** A pickup as [spawnPowerUp] makes it at [c]: of one of the four types,
    new, good for ten seconds. *)
Definition dropAt (c : Position.t) (p : PowerUp.t) : Prop :=
  PowerUp.x p = Position.x c /\ PowerUp.y p = Position.y c
  /\ PowerUp.lifetime p = 0 /\ PowerUp.maxLifetime p = 10000
  /\ PowerUp.size p = 30.

(** ** What holds of every engine the page can reach *)

Module Sound.
Import GameState GameEngine.

(** A bullet does the damage of its side: 20 from the player, 10 from an
    enemy. *)
Definition bulletOk (b : Bullet.t) : Prop :=
  Bullet.damage b = (if Bullet.isPlayerBullet b then 20 else 10)%Z.

(** An enemy of level [lvl]: built from one of that level's
    configurations, with that configuration's size, speed and full health,
    and a health between 0 and full. *)
Definition enemyOk (lvl : Z) (en : Enemy.t) : Prop :=
  (exists cs, EnemyFactory.enemyConfigs lvl = Some cs
              /\ In (Enemy.config en) cs)
  /\ Enemy.maxHealth en = EnemyConfig.health (Enemy.config en)
  /\ (0 <= Enemy.health en <= Enemy.maxHealth en)%Z
  /\ Enemy.speed en = EnemyConfig.speed (Enemy.config en)
  /\ Enemy.size en
     = {| Size.width := EnemyConfig.width (Enemy.config en);
          Size.height := EnemyConfig.height (Enemy.config en) |}.

Definition sound_of (lvl : Z) (over : bool) (shown shownMax : Z)
    (p : Base.t) (bs : list Bullet.t) (es : list Enemy.t) : Prop :=
  (1 <= lvl <= 3)%Z
  /\ (0 <= Base.health p <= 100)%Z
  /\ Base.maxHealth p = 100%Z
  /\ shown = Base.health p
  /\ shownMax = 100%Z
  /\ Forall bulletOk bs
  /\ (lvl = 1%Z -> Forall (fun b => Bullet.isPlayerBullet b = true) bs)
  /\ Forall (enemyOk lvl) es
  /\ (over = true -> (2 <= lvl)%Z /\ (Base.health p = 0%Z \/ lvl = 3%Z)).

(** The level is 1, 2 or 3; the player's health lies between 0 and 100 and
    the game state shows it; every bullet does the damage of its side and
    level 1 has no enemy bullet; every enemy is one of the current level; and
    a game that is over was lost on level 2 or 3 or ended on level 3. *)
Definition sound (e : GameEngine.t) : Prop :=
  sound_of (level (gameState e)) (isGameOver (gameState e))
           (playerHealth (gameState e)) (maxPlayerHealth (gameState e))
           (base e) (bullets e) (enemies e).
End Sound.

(** ** The counters of the game state *)

Module Ledger.
Import GameState.

(** Hits and kills are one count; the score lies between 10 and 1500 points
    per kill; the level is 1, 2 or 3 and lasts what the table says; the combo
    multiplier is within its range.  The score, the kills and the shots have
    not fallen below [c], [k] and [n]. *)
Definition ledger (c k n : Z) (g : GameState.t) : Prop :=
  bulletsHit g = enemiesKilled g
  /\ (k <= enemiesKilled g)%Z
  /\ (c <= score g)%Z
  /\ (n <= bulletsShot g)%Z
  /\ (10 * enemiesKilled g <= score g <= 1500 * enemiesKilled g)%Z
  /\ (1 <= level g <= 3)%Z
  /\ Combo.bounded g
  /\ levelDuration g = GameEngine.levelDurations (level g).
End Ledger.

(** ** Modifiers and the active set *)

(** A type without an entry in the active set has its modifier at the
    baseline; a type with an entry has it boosted, but for the shield, which
    a hit may have used up. *)
Definition timed (e : GameEngine.t) : Prop :=
  forall ty,
    match Map_get ty (GameEngine.activePowerUps e) with
    | Some _ => ty = SHIELD \/ Modifier.boosted ty e
    | None => Modifier.baseline ty e
    end.

(** ** Achievements over a session *)

(** The ids of the achievements an array returned by [checkAchievements]
    announces; an [undefined] in it announces none. *)
Definition announced (out : list (option Achievement.t)) : list string :=
  flat_map (fun o => match o with
                     | Some a => [Achievement.id a]
                     | None => []
                     end) out.

(** A session of checks, each on its own game state and statistics: all
    that was returned, in order, and the list and the world at the end. *)
Definition checkAll (inputs : list (GameState.t * Stats.t))
    (m : AchievementManager.t) (w : World)
    : list (option Achievement.t) * AchievementManager.t * World :=
  fold_left
    (fun (acc : list (option Achievement.t) * AchievementManager.t * World)
         (input : GameState.t * Stats.t) =>
       let '(out, m, w) := acc in
       let '(o, m, w) :=
         AchievementManager.checkAchievements (fst input) (snd input) m w in
       (out ++ o, m, w))
    inputs ([], m, w).

(** The three ways one statement of the check can go: the condition fails
    or the achievement is unlocked already; no entry has the id; the entry is
    unlocked now. *)
Inductive outcome (now : Z) (rule : bool * string)
    (m : AchievementManager.t) (out : list (option Achievement.t))
    : AchievementManager.t * list (option Achievement.t) -> Prop :=
| Passed :
    fst rule && negb (AchievementManager.isUnlocked (snd rule) m) = false ->
    outcome now rule m out (m, out)
| Missing :
    fst rule = true -> AchievementManager.lookup (snd rule) m = None ->
    outcome now rule m out (m, out ++ [None])
| Unlocked a :
    fst rule = true -> AchievementManager.lookup (snd rule) m = Some a ->
    Achievement.unlocked a = false ->
    outcome now rule m out
      (AchievementManager.mark (snd rule) now m,
       out ++ [Some (Achievement.unlockAt now a)]).

(** What a run of such statements at time [now] makes of the list [m],
    leaving [m'] and returning [new]. *)
Definition checked (now : Z) (rules : list (bool * string))
    (m m' : AchievementManager.t) (new : list (option Achievement.t))
    : Prop :=
  (* the entries stay, with their ids, names and descriptions *)
  map Achievement.id m' = map Achievement.id m
  /\ map Achievement.name m' = map Achievement.name m
  /\ map Achievement.description m' = map Achievement.description m
  (* nothing is locked, and what was unlocked is not touched *)
  /\ (forall id, AchievementManager.isUnlocked id m = true ->
                 AchievementManager.isUnlocked id m' = true)
  /\ (forall a, In a m -> Achievement.unlocked a = true -> In a m')
  (* what is announced was locked, is unlocked now, dated [now], and
     answers a condition that holds *)
  /\ (forall a, In (Some a) new ->
        Achievement.unlocked a = true
        /\ Achievement.unlockedAt a = Some now
        /\ AchievementManager.isUnlocked (Achievement.id a) m = false
        /\ AchievementManager.isUnlocked (Achievement.id a) m' = true
        /\ In (true, Achievement.id a) rules)
  (* an [undefined] stands for a condition that holds on an id without
     entry *)
  /\ (In None new ->
        exists id, In (true, id) rules
                   /\ AchievementManager.lookup id m = None)
  (* nothing is announced twice, nothing is unlocked in silence *)
  /\ NoDup (announced new)
  /\ (forall id, AchievementManager.isUnlocked id m' = true ->
        AchievementManager.isUnlocked id m = true \/ In id (announced new)).

(** ** Enemies on the field *)

(** An enemy between the top and the bottom edge of a canvas of the given
    size, not beyond its right edge. *)
Definition onField_enemy (canvasWidth canvasHeight : Q) (en : Enemy.t) : Prop :=
  0 <= Position.y (Enemy.position en)
  /\ Position.y (Enemy.position en)
     <= canvasHeight - Size.height (Enemy.size en)
  /\ Position.x (Enemy.position en) <= canvasWidth.

(** On a canvas high enough for the largest enemy, every enemy is on the
    field; together with what [Sound.sound] says. *)
Definition contained (e : GameEngine.t) : Prop :=
  Sound.sound e
  /\ (70 <= GameEngine.canvasHeight e ->
      Forall (onField_enemy (GameEngine.canvasWidth e)
                            (GameEngine.canvasHeight e))
             (GameEngine.enemies e)).

(** ** Pickups in play *)

(** A pickup as the engine keeps it: good for ten seconds, of side 30, and
    not yet at the end of its time. *)
Definition fresh (p : PowerUp.t) : Prop :=
  0 <= PowerUp.lifetime p
  /\ PowerUp.lifetime p < PowerUp.maxLifetime p
  /\ PowerUp.maxLifetime p = 10000
  /\ PowerUp.size p = 30.

(** * Concrete scenarios *)

(** Two squares of side 10 side by side, sharing the edge x = 10 and the whole
    y-extent. *)
Definition squareA : Position.t * Size.t :=
  ({| Position.x := 0; Position.y := 0 |},
   {| Size.width := 10; Size.height := 10 |}).
Definition squareB : Position.t * Size.t :=
  ({| Position.x := 10; Position.y := 0 |},
   {| Size.width := 10; Size.height := 10 |}).

(** The player of an 800 x 600 playfield, put below the playfield. *)
Definition strayBase : Base.t := Base.set_y 700 (Base.new 800 600).

(** The same player at its starting place. *)
Definition freshBase : Base.t := Base.new 800 600.

(** Stand-ins for the floating-point library.  No statement made on a
    scenario depends on them. *)
Definition plainMath : MathLib :=
  {| Math_PI := 3.14159;
     Math_sqrt := fun q => q;
     Math_cos := fun _ => 1;
     Math_sin := fun _ => 0;
     Math_atan2 := fun _ _ => 0 |}.

Definition half : Unit01 := {| u01 := 0.5; u01_ok := eq_refl |}.

(** A world whose clock reads [f 0], [f 1], ... and whose draws are all 0.5. *)
Definition worldOf (f : nat -> Z) : World :=
  {| clock := f; random := fun _ => half |}.

(** An engine built at time 1000 on the page's 800 x 600 canvas; every later
    reading of the clock is 41000, past the 30 seconds of level 1. *)
Definition lateWorld : World :=
  worldOf (fun n => match n with O => 1000%Z | _ => 41000%Z end).

Definition builtLate : GameEngine.Machine := GameEngine.new 800 600 lateWorld.

(** The same engine after the page's pause button. *)
Definition pausedLate : GameEngine.Machine := apply plainMath TogglePause builtLate.

(** A match up to its first kill.  The clock advances 16 ms per reading for
    its first 130 readings, the last of them at 3064, and reads 20080 ever
    after. *)
Definition breakWorld : World :=
  worldOf (fun n => if (n <? 130)%nat then (1000 + 16 * Z.of_nat n)%Z
                    else 20080%Z).

Definition play (ops : list Op) (s : GameEngine.Machine) : GameEngine.Machine :=
  fold_left (fun s o => apply plainMath o s) ops s.

(** The first frame spawns an enemy; two shots are fired; the enemy is hit in
    the 62nd of the frames that follow and killed in the 63rd, at time 3064. *)
Definition firstKill : GameEngine.Machine :=
  play ([Update; Shoot; Shoot] ++ repeat Update 63)
       (GameEngine.new 800 600 breakWorld).

(** Then the page's pause button is pressed. *)
Definition pausedAfterKill : GameEngine.Machine :=
  apply plainMath TogglePause firstKill.

(** A clock that advances 16 ms per reading, from 1000 on. *)
Definition tickWorld : World := worldOf (fun n => (1000 + 16 * Z.of_nat n)%Z).

Definition builtTick : GameEngine.Machine := GameEngine.new 800 600 tickWorld.

(** An enemy of the given configuration put at the given place. *)
Definition enemyAt (c : EnemyConfig.t) (x y : Q) : Enemy.t :=
  Enemy.set_position {| Position.x := x; Position.y := y |}
    (fst (Enemy.new c 800 600 tickWorld)).

(** A player bullet and an enemy bullet at the given place. *)
Definition shotAt (x y : Q) : Bullet.t :=
  GameEngine.playerBullet {| Position.x := x; Position.y := y |} 0.

Definition enemyShotAt (x y : Q) : Bullet.t :=
  {| Bullet.x := x; Bullet.y := y; Bullet.vx := -4; Bullet.vy := 0;
     Bullet.width := 8; Bullet.height := 8;
     Bullet.isPlayerBullet := false; Bullet.damage := 10 |}.

(** The engine built at time 1000, given enemies and bullets. *)
Definition arena (es : list Enemy.t) (bs : list Bullet.t) : GameEngine.Machine :=
  (GameEngine.set_bullets bs (GameEngine.set_enemies es (fst builtTick)),
   snd builtTick).

(** One level-2 enemy of health 20 under one player bullet of damage 20. *)
Definition duel : GameEngine.Machine :=
  arena [enemyAt (EnemyFactory.gunner LINEA "/images/linea-the-enemy.png") 400 300]
        [shotAt 410 310].

(** A match in which the player moves down twelve times and then lets 230
    frames pass: the first enemy, spawned in the first frame, is one frame
    away from the player. *)
Definition beforeContact : GameEngine.Machine :=
  play (repeat (MoveDown 600) 12 ++ repeat Update 230) builtTick.

(** One enemy bullet of damage 10 inside the player's rectangle, without and
    with the shield. *)
Definition underFire : GameEngine.Machine := arena [] [enemyShotAt 80 290].

Definition shielded : GameEngine.Machine :=
  (GameEngine.set_hasShield true
     (GameEngine.set_activePowerUps [(SHIELD, 11000%Z)] (fst underFire)),
   snd underFire).

(** Two enemies on the same spot under one player bullet, with a second
    player bullet far from both: level-1 enemies of health 30, which outlive
    a hit of 20, and level-2 enemies of health 20, which do not. *)
Definition twoTough : GameEngine.Machine :=
  arena [enemyAt (EnemyFactory.melee STARKENT "/images/starkent-the-enemy.png") 400 300;
         enemyAt (EnemyFactory.melee SCROLL "/images/scroll-the-enemy.jpg") 400 300]
        [shotAt 410 310; shotAt 200 50].

Definition twoFrail : GameEngine.Machine :=
  arena [enemyAt (EnemyFactory.gunner LINEA "/images/linea-the-enemy.png") 400 300;
         enemyAt (EnemyFactory.gunner OP "/images/op-the-enemy.jpg") 400 300]
        [shotAt 410 310; shotAt 200 50].

(** Two enemy bullets inside the player's rectangle at once. *)
Definition crossfire : GameEngine.Machine :=
  arena [] [enemyShotAt 80 290; enemyShotAt 80 306].

(** An engine built at time 20000, more than the 15 seconds of the periodic
    pickup after the engine's initial 0, in a world whose clock advances
    16 ms per reading and whose draws are all 0.2: its first frame puts a
    pickup on the field. *)
Definition fifth : Unit01 := {| u01 := 0.2; u01_ok := eq_refl |}.

Definition pickupDue : GameEngine.Machine :=
  GameEngine.new 800 600
    {| clock := fun n => (20000 + 16 * Z.of_nat n)%Z;
       random := fun _ => fifth |}.

(** The match of [firstKill] in a world whose clock, after the kill at 3064,
    reads 31064 ever after: 28 seconds after the kill and 64 ms past the 30
    seconds of level 1. *)
Definition levelBreakWorld : World :=
  worldOf (fun n => if (n <? 130)%nat then (1000 + 16 * Z.of_nat n)%Z
                    else 31064%Z).

Definition killBeforeBreak : GameEngine.Machine :=
  play ([Update; Shoot; Shoot] ++ repeat Update 63)
       (GameEngine.new 800 600 levelBreakWorld).

(** The same match in a world whose clock reads 20080 once after the kill
    and then goes back to 3100. *)
Definition rewindWorld : World :=
  worldOf (fun n => if (n <? 130)%nat then (1000 + 16 * Z.of_nat n)%Z
                    else if (n =? 130)%nat then 20080%Z else 3100%Z).

Definition killBeforeRewind : GameEngine.Machine :=
  play ([Update; Shoot; Shoot] ++ repeat Update 63)
       (GameEngine.new 800 600 rewindWorld).





(** * Properties *)

(** ** Arithmetic helpers *)

Lemma Qltb_lt (a b : Q) : Qltb a b = true <-> a < b.
Proof.
  unfold Qltb. rewrite negb_true_iff, <- not_true_iff_false, Qle_bool_iff.
  split; [apply Qnot_le_lt | apply Qlt_not_le].
Qed.

Lemma Qltb_ge (a b : Q) : Qltb a b = false <-> b <= a.
Proof.
  unfold Qltb. rewrite negb_false_iff. apply Qle_bool_iff.
Qed.

Lemma Qleb_le (a b : Q) : Qleb a b = true <-> a <= b.
Proof. apply Qle_bool_iff. Qed.

(** ** Traversals *)

Section ForEachFacts.
Context {St A : Type}.
Variable arr : St -> list A.
Variable body : A -> nat -> St -> St.

(** A preorder that every call of the callback respects is respected by the
    traversal. *)
Lemma forEach_from_rel (R : St -> St -> Prop) :
  (forall s, R s s) ->
  (forall a b c, R a b -> R b c -> R a c) ->
  (forall a k s, nth_error (arr s) k = Some a -> R s (body a k s)) ->
  forall n k s, R s (forEach_from arr body n k s).
Proof.
  intros Hrefl Htrans Hbody. induction n as [|n IH]; intros k s; simpl.
  - apply Hrefl.
  - destruct (nth_error (arr s) k) as [a|] eqn:E.
    + eapply Htrans; [ apply Hbody; eassumption | apply IH ].
    + apply IH.
Qed.

Lemma forEach_rel (R : St -> St -> Prop) :
  (forall s, R s s) ->
  (forall a b c, R a b -> R b c -> R a c) ->
  (forall a k s, nth_error (arr s) k = Some a -> R s (body a k s)) ->
  forall s, R s (forEach arr body s).
Proof. intros. unfold forEach. apply forEach_from_rel; assumption. Qed.

(** An invariant of the callback is an invariant of the traversal. *)
Lemma forEach_from_inv (P : St -> Prop) :
  (forall a k s, nth_error (arr s) k = Some a -> P s -> P (body a k s)) ->
  forall n k s, P s -> P (forEach_from arr body n k s).
Proof.
  intros Hbody. induction n as [|n IH]; intros k s Hs; simpl.
  - assumption.
  - apply IH. destruct (nth_error (arr s) k) eqn:E; [ eapply Hbody; eauto | assumption ].
Qed.

(** Past the end of the array nothing is visited. *)
Lemma forEach_from_past n k s :
  (List.length (arr s) <= k)%nat -> forEach_from arr body n k s = s.
Proof.
  revert k s. induction n as [|n IH]; intros k s Hk; simpl.
  - reflexivity.
  - replace (nth_error (arr s) k) with (@None A)
      by (symmetry; apply nth_error_None; assumption).
    apply IH. lia.
Qed.
End ForEachFacts.

(** ** Worlds *)

Lemma later_refl w : later w w.
Proof. exists 0%nat. reflexivity. Qed.

Lemma later_trans w1 w2 w3 : later w1 w2 -> later w2 w3 -> later w1 w3.
Proof.
  intros [k1 H1] [k2 H2]. exists (k1 + k2)%nat. intros n.
  rewrite H2, H1. f_equal. lia.
Qed.

Lemma later_now w : later w (snd (Date_now w)).
Proof. exists 1%nat. reflexivity. Qed.

Lemma later_random w : later w (snd (Math_random w)).
Proof. exists 0%nat. reflexivity. Qed.

Lemma later_bound w w' (P : Z -> Prop) :
  later w w' -> (forall n, P (clock w n)) -> forall n, P (clock w' n).
Proof. intros [k H] HP n. rewrite H. apply HP. Qed.

Lemma later_monotone w w' : later w w' -> monotone w -> monotone w'.
Proof.
  intros [k H] Hm i j Hij. rewrite !H. apply Hm. lia.
Qed.

(** Under a clock that never goes back, what the next reading exceeds every
    later reading exceeds. *)
Lemma monotone_bound w (t : Z) :
  monotone w -> (t < clock w 0)%Z -> forall n, (t < clock w n)%Z.
Proof.
  intros Hm H0 n. pose proof (Hm 0%nat n (Nat.le_0_l n)). lia.
Qed.

Create HintDb world.
#[local] Hint Resolve later_refl later_now later_random : world.

(** ** The combo bookkeeping *)

Module ComboFacts.
Import GameState Combo.

Lemma quiet_refl g : quiet g g.
Proof. repeat split. Qed.

Lemma quiet_trans g1 g2 g3 : quiet g1 g2 -> quiet g2 g3 -> quiet g1 g3.
Proof.
  intros (a1 & b1 & c1 & d1) (a2 & b2 & c2 & d2).
  repeat split; congruence.
Qed.

Lemma trace_one g g' : event g g' -> trace g g'.
Proof. intros H. eapply Next; [ eassumption | apply Done ]. Qed.

Lemma trace_quiet g g' : quiet g g' -> trace g g'.
Proof. intros H. apply trace_one, Quiet, H. Qed.

Lemma trace_trans g1 g2 g3 : trace g1 g2 -> trace g2 g3 -> trace g1 g3.
Proof.
  induction 1 as [|g g1 g2 He Ht IH]; intros H3; [ assumption | ].
  eapply Next; [ eassumption | apply IH, H3 ].
Qed.

Lemma inject_Z_le_1 (c : Z) : (1 <= c)%Z -> 1 <= inject_Z c.
Proof. intros H. change 1 with (inject_Z 1). rewrite <- Zle_Qle. assumption. Qed.

(** Every event keeps the multiplier within [1, 3]. *)
Lemma event_bounded g g' : event g g' -> bounded g -> bounded g'.
Proof.
  intros He (Hc & Hlo & Hhi). unfold bounded.
  destruct He as [(a & b & _) | now (_ & _ & a & b & _)
                 | now (_ & a & b & _) | (a & b & _)];
    rewrite a, b; repeat split; try lia; try assumption; try lra.
  - apply Q.min_glb; [ | lra ].
    pose proof (inject_Z_le_1 (combo g + 1) ltac:(lia)). lra.
  - apply Q.le_min_r.
Qed.

Lemma trace_bounded g g' : trace g g' -> bounded g -> bounded g'.
Proof.
  induction 1 as [|g g1 g' He Ht IH]; intros Hb; [ assumption | ].
  apply IH. eapply event_bounded; eassumption.
Qed.

(** Only a kill that continues a streak raises the multiplier. *)
Lemma event_raise g g' :
  event g g' -> bounded g -> comboMultiplier g < comboMultiplier g' ->
  exists now, streak now g g'.
Proof.
  intros He (Hc & Hlo & Hhi) Hup.
  destruct He as [(_ & b & _) | now Hs | now (_ & _ & b & _) | (_ & b & _)].
  - rewrite b in Hup. lra.
  - exists now. assumption.
  - rewrite b in Hup. lra.
  - rewrite b in Hup. lra.
Qed.

Lemma trace_raise g g' :
  trace g g' -> bounded g -> comboMultiplier g < comboMultiplier g' ->
  exists g1 g2 now,
    trace g g1 /\ streak now g1 g2 /\ trace g2 g'
    /\ comboMultiplier g1 < comboMultiplier g2.
Proof.
  induction 1 as [|g g1 g' He Ht IH]; intros Hb Hup.
  - exfalso. lra.
  - destruct (Qlt_le_dec (comboMultiplier g) (comboMultiplier g1)) as [Hlt|Hge].
    + destruct (event_raise _ _ He Hb Hlt) as [now Hs].
      exists g, g1, now.
      refine (conj (Done _) (conj Hs (conj Ht Hlt))).
    + assert (Hb1 : bounded g1) by (eapply event_bounded; eassumption).
      assert (Hup1 : comboMultiplier g1 < comboMultiplier g') by lra.
      destruct (IH Hb1 Hup1) as (h1 & h2 & now & T1 & S & T2 & Hr).
      exists h1, h2, now.
      refine (conj _ (conj S (conj T2 Hr))).
      eapply Next; eassumption.
Qed.

(** The count of kills never goes down, and while it stands still the
    bookkeeping only decays. *)
Lemma event_kills g g' : event g g' -> (enemiesKilled g <= enemiesKilled g')%Z.
Proof.
  intros [(_ & _ & _ & d) | now (_ & _ & _ & _ & _ & d)
         | now (_ & _ & _ & _ & d) | (_ & _ & _ & d)]; lia.
Qed.

Lemma trace_kills g g' : trace g g' -> (enemiesKilled g <= enemiesKilled g')%Z.
Proof.
  induction 1 as [|g g1 g' He Ht IH]; [ lia | ].
  pose proof (event_kills _ _ He). lia.
Qed.

Lemma trace_no_kill g g' :
  trace g g' -> enemiesKilled g' = enemiesKilled g ->
  combo g = 0%Z -> comboMultiplier g = 1 ->
  combo g' = 0%Z /\ comboMultiplier g' = 1.
Proof.
  induction 1 as [|g g1 g' He Ht IH]; intros Hk Hc Hm; [ auto | ].
  pose proof (event_kills _ _ He) as K1. pose proof (trace_kills _ _ Ht) as K2.
  destruct He as [(a & b & _ & d) | now (_ & _ & _ & _ & _ & d)
                 | now (_ & _ & _ & _ & d) | (a & b & _ & d)];
    try lia; apply IH; congruence.
Qed.
End ComboFacts.

(** ** The active set *)

Module MapFacts.

Lemma PowerUpType_eqb_eq a b : PowerUpType_eqb a b = true <-> a = b.
Proof. destruct a, b; simpl; split; congruence. Qed.

Lemma PowerUpType_eqb_neq a b : PowerUpType_eqb a b = false <-> a <> b.
Proof. destruct a, b; simpl; split; congruence. Qed.

Lemma get_set_same k v m : Map_get k (Map_set k v m) = Some v.
Proof.
  induction m as [|[k' v'] m IH]; simpl.
  - replace (PowerUpType_eqb k k) with true
      by (symmetry; apply PowerUpType_eqb_eq; reflexivity).
    reflexivity.
  - destruct (PowerUpType_eqb k k') eqn:E; simpl; rewrite ?E; auto.
    replace (PowerUpType_eqb k k) with true
      by (symmetry; apply PowerUpType_eqb_eq; reflexivity).
    reflexivity.
Qed.

Lemma get_set_other k k' v m :
  k' <> k -> Map_get k' (Map_set k v m) = Map_get k' m.
Proof.
  intros Hne. induction m as [|[k0 v0] m IH]; simpl.
  - apply PowerUpType_eqb_neq in Hne. rewrite Hne. reflexivity.
  - destruct (PowerUpType_eqb k k0) eqn:E; simpl.
    + apply PowerUpType_eqb_eq in E. subst k0.
      apply PowerUpType_eqb_neq in Hne. rewrite Hne. reflexivity.
    + rewrite IH. reflexivity.
Qed.

Lemma keys_set k v m :
  map fst (Map_set k v m) =
  if existsb (PowerUpType_eqb k) (map fst m) then map fst m
  else map fst m ++ [k].
Proof.
  induction m as [|[k' v'] m IH]; simpl; [ reflexivity | ].
  destruct (PowerUpType_eqb k k') eqn:E; simpl.
  - apply PowerUpType_eqb_eq in E. subst. reflexivity.
  - rewrite IH. destruct (existsb _ _); reflexivity.
Qed.

(** [set] on a key already present keeps the number of entries. *)
Lemma set_overwrites k v v0 m :
  Map_get k m = Some v0 -> List.length (Map_set k v m) = List.length m.
Proof.
  induction m as [|[k' v'] m IH]; simpl; [ discriminate | ].
  destruct (PowerUpType_eqb k k'); simpl; auto.
Qed.

Lemma single_set k v m : Modifier.single m -> Modifier.single (Map_set k v m).
Proof.
  unfold Modifier.single. intros H. rewrite keys_set.
  destruct (existsb (PowerUpType_eqb k) (map fst m)) eqn:E; [ assumption | ].
  apply NoDup_app; [ assumption | repeat constructor; simpl; tauto | ].
  intros x Hx [Hk|[]]. subst x.
  assert (existsb (PowerUpType_eqb k) (map fst m) = true); [ | congruence ].
  apply existsb_exists. exists k. split; [ assumption | ].
  apply PowerUpType_eqb_eq. reflexivity.
Qed.

Lemma single_delete k m :
  Modifier.single m -> Modifier.single (Map_delete k m).
Proof.
  unfold Modifier.single, Map_delete.
  induction m as [|[k' v'] m IH]; simpl; intros H; [ constructor | ].
  inversion H as [|? ? Hnotin Hrest]; subst.
  destruct (PowerUpType_eqb k k'); simpl; [ auto | ].
  constructor; [ | auto ].
  intros Hin. apply Hnotin. apply in_map_iff in Hin.
  destruct Hin as ([k0 v0] & <- & Hin). apply filter_In in Hin.
  apply in_map_iff. exists (k0, v0). tauto.
Qed.

Lemma get_delete_same k m : Map_get k (Map_delete k m) = None.
Proof.
  unfold Map_delete. induction m as [|[k' v'] m IH]; simpl; [ reflexivity | ].
  destruct (PowerUpType_eqb k k') eqn:E; simpl; rewrite ?E; assumption.
Qed.

Lemma get_delete_other k k' m :
  k' <> k -> Map_get k' (Map_delete k m) = Map_get k' m.
Proof.
  intros Hne. unfold Map_delete.
  induction m as [|[k0 v0] m IH]; simpl; [ reflexivity | ].
  destruct (PowerUpType_eqb k k0) eqn:E; simpl.
  - apply PowerUpType_eqb_eq in E. subst k0.
    apply PowerUpType_eqb_neq in Hne. rewrite Hne. assumption.
  - rewrite IH. reflexivity.
Qed.

Lemma get_In k v m : Map_get k m = Some v -> In (k, v) m.
Proof.
  induction m as [|[k' v'] m IH]; simpl; [ discriminate | ].
  destruct (PowerUpType_eqb k k') eqn:E.
  - apply PowerUpType_eqb_eq in E. intros [= ->]. subst. auto.
  - auto.
Qed.

(** With one entry per type, the entry found is the only one. *)
Lemma single_In k v v' m :
  Modifier.single m -> Map_get k m = Some v -> In (k, v') m -> v' = v.
Proof.
  unfold Modifier.single.
  induction m as [|[k0 v0] m IH]; simpl; intros Hs Hg Hin; [ contradiction | ].
  inversion Hs as [|? ? Hnotin Hrest]; subst.
  destruct (PowerUpType_eqb k k0) eqn:E.
  - apply PowerUpType_eqb_eq in E. subst k0. injection Hg as <-.
    destruct Hin as [[= ->]|Hin]; [ reflexivity | ].
    exfalso. apply Hnotin. apply in_map_iff. exists (k, v'). auto.
  - destruct Hin as [[= -> ->]|Hin].
    + apply PowerUpType_eqb_neq in E. congruence.
    + auto.
Qed.
End MapFacts.

(** ** What the statements of a frame leave alone *)

Module RunFacts.
Import GameEngine GameState Run.

Lemma steady_refl s : steady s s.
Proof. unfold steady. repeat split; auto. apply later_refl. Qed.

Lemma steady_trans s1 s2 s3 : steady s1 s2 -> steady s2 s3 -> steady s1 s3.
Proof.
  intros (l1 & a1 & b1 & c1 & d1 & e1 & f1 & g1 & h1)
         (l2 & a2 & b2 & c2 & d2 & e2 & f2 & g2 & h2).
  unfold steady. repeat split; try congruence; auto.
  eapply later_trans; eassumption.
Qed.

Lemma calm_refl s : calm s s.
Proof. split; [ apply steady_refl | apply ComboFacts.quiet_refl ]. Qed.

Lemma calm_trans s1 s2 s3 : calm s1 s2 -> calm s2 s3 -> calm s1 s3.
Proof.
  intros [a1 b1] [a2 b2]. split.
  - eapply steady_trans; eassumption.
  - eapply ComboFacts.quiet_trans; eassumption.
Qed.

Lemma playing_refl s : playing s s.
Proof. split; [ apply steady_refl | apply Combo.Done ]. Qed.

Lemma playing_trans s1 s2 s3 : playing s1 s2 -> playing s2 s3 -> playing s1 s3.
Proof.
  intros [a1 b1] [a2 b2]. split.
  - eapply steady_trans; eassumption.
  - eapply ComboFacts.trace_trans; eassumption.
Qed.

Lemma calm_playing s s' : calm s s' -> playing s s'.
Proof. intros [a b]. split; [ assumption | apply ComboFacts.trace_quiet, b ]. Qed.

(** A statement that writes neither the game state's level fields nor the
    combo bookkeeping, in a world that only advances. *)
Lemma calm_intro (e e' : GameEngine.t) (w w' : World) :
  later w w' ->
  level (gameState e') = level (gameState e) ->
  isPaused (gameState e') = isPaused (gameState e) ->
  levelStartTime (gameState e') = levelStartTime (gameState e) ->
  levelDuration (gameState e') = levelDuration (gameState e) ->
  bulletsShot (gameState e') = bulletsShot (gameState e) ->
  canvasWidth e' = canvasWidth e ->
  canvasHeight e' = canvasHeight e ->
  (Modifier.single (activePowerUps e) -> Modifier.single (activePowerUps e')) ->
  combo (gameState e') = combo (gameState e) ->
  comboMultiplier (gameState e') = comboMultiplier (gameState e) ->
  lastKillTime (gameState e') = lastKillTime (gameState e) ->
  enemiesKilled (gameState e') = enemiesKilled (gameState e) ->
  calm (e, w) (e', w').
Proof.
  intros. unfold calm, steady, Combo.quiet. cbn [fst snd].
  repeat split; assumption.
Qed.

Ltac calm_by H :=
  apply calm_intro;
  [ exact H | ..];
  first [ reflexivity | exact (fun ok => ok) ].

Section Phases.
Variable M : MathLib.

Lemma shoot_world p en w : snd (Enemy.shoot M p en w) = snd (Date_now w).
Proof.
  unfold Enemy.shoot. simpl.
  destruct (negb (Enemy.canShoot (clock w 0) en)); [ reflexivity | ].
  match goal with |- context [if ?c then _ else _] => destruct c end; reflexivity.
Qed.

Lemma createRandomEnemy_later l cw ch w :
  later w (snd (EnemyFactory.createRandomEnemy l cw ch w)).
Proof.
  unfold EnemyFactory.createRandomEnemy.
  destruct (EnemyFactory.enemyConfigs l) as [[|c cs]|]; simpl;
    auto with world.
  exists 0%nat. reflexivity.
Qed.

Lemma spawnEnemies_calm now s : calm s (spawnEnemies now s).
Proof.
  destruct s as [e w]. unfold spawnEnemies.
  destruct (spawnInterval e <=? now - lastSpawnTime e)%Z; [ | apply calm_refl ].
  pose proof (createRandomEnemy_later (level (gameState e)) (canvasWidth e)
                (canvasHeight e) w) as Hl.
  destruct (EnemyFactory.createRandomEnemy _ _ _ w) as [[en|] w'];
    simpl in Hl |- *; calm_by Hl.
Qed.

Lemma updateEnemy_calm now en k s : calm s (updateEnemy M now en k s).
Proof.
  destruct s as [e w]. unfold updateEnemy.
  destruct (Enemy.canShoot now _).
  - pose proof (shoot_world (Base.getCenter (base e))
                  (Enemy.update (canvasWidth e) (canvasHeight e) en) w) as Hw.
    destruct (Enemy.shoot M _ _ w) as [[fired en'] w']. simpl in Hw. subst w'.
    match goal with |- context [if ?c then _ else _] => destruct c end;
      calm_by (later_now w).
  - match goal with |- context [if ?c then _ else _] => destruct c end;
      calm_by (later_refl w).
Qed.

(** The explosion only appends particles and draws random numbers. *)
Lemma explosion_shape c n : forall i e w,
  exists ps w', explosion M c n i (e, w) = (set_particles ps e, w')
                /\ later w w'.
Proof.
  induction n as [|n IH]; intros i e w.
  - exists (particles e), w. split; [ destruct e; reflexivity | apply later_refl ].
  - simpl.
    match goal with |- context [explosion M c n ?j (?e1, ?w1)] =>
      destruct (IH j e1 w1) as (ps & w' & E & L); rewrite E end.
    exists ps, w'. split; [ reflexivity | ].
    eapply later_trans; [ | exact L ]. exists 0%nat. reflexivity.
Qed.

#[local] Arguments explosion : simpl never.
#[local] Arguments scoreKill : simpl never.

(** The entry a kill makes in the game state. *)
Lemma scoreKill_kill_at now g : Combo.kill_at now g (fst (scoreKill now g)).
Proof.
  unfold scoreKill. destruct g.
  destruct ((now - _ <? 2000)%Z && _) eqn:Hc.
  all: cbv beta iota zeta delta
         [set_combo set_comboMultiplier set_lastKillTime set_score
          set_enemiesKilled set_bulletsHit score level playerHealth
          maxPlayerHealth isGameOver isPaused levelStartTime levelDuration
          enemiesKilled bulletsShot bulletsHit gameStartTime combo
          comboMultiplier lastKillTime Combo.kill_at Combo.streak
          Combo.restart Combo.basePoints fst snd] in Hc |- *.
  all: apply andb_prop in Hc || apply andb_false_iff in Hc.
  all: split; [ | repeat split ].
  - left. repeat split; lia.
  - right. repeat split. intros [H1 H2]. destruct Hc as [Hc|Hc]; lia.
Qed.

Lemma scoreKill_points now g :
  snd (scoreKill now g) =
  Math_round (inject_Z (Combo.basePoints g)
              * comboMultiplier (fst (scoreKill now g))).
Proof.
  unfold scoreKill. destruct g.
  destruct ((now - _ <? 2000)%Z && _); reflexivity.
Qed.

(** The kill branch: one entry in the game state, one popup, particles, maybe
    a pickup, and the enemy at [k] spliced out. *)
Lemma registerKill_shape en k e w :
  exists pops ps pus w',
    registerKill M en k (e, w) =
      (set_enemies (splice1 k (enemies e))
         (set_powerUps pus
            (set_particles ps
               (set_scorePopups pops
                  (set_gameState (fst (scoreKill (clock w 0) (gameState e))) e)))),
       w')
    /\ later w w'.
Proof.
  unfold registerKill. cbn [Date_now].
  destruct (scoreKill (clock w 0) (gameState e)) as [g' pts]. cbn [fst].
  match goal with |- context [explosion M ?c ?n ?i (?e1, ?w1)] =>
    destruct (explosion_shape c n i e1 w1) as (ps & w2 & E & L); rewrite E
  end.
  assert (L1 : later w w2)
    by (eapply later_trans; [ apply later_now | exact L ]).
  cbn [Math_random].
  destruct (Qltb (u01 (random w2 0)) 0.1); cbn [spawnPowerUp Math_random].
  - eexists _, _, _, _. split; [ reflexivity | ].
    eapply later_trans; [ exact L1 | ]. exists 0%nat. reflexivity.
  - eexists _, ps, (powerUps e), _.
    split; [ reflexivity | ].
    eapply later_trans; [ exact L1 | ]. exists 0%nat. reflexivity.
Qed.

Lemma kill_playing e e' w w' now :
  later w w' ->
  Combo.kill_at now (gameState e) (gameState e') ->
  canvasWidth e' = canvasWidth e ->
  canvasHeight e' = canvasHeight e ->
  activePowerUps e' = activePowerUps e ->
  playing (e, w) (e', w').
Proof.
  intros L (K & _ & _ & a & _ & _ & _ & b & c & d & f & _) Hw Hh Ha.
  split.
  - unfold steady. cbn [fst snd]. rewrite Ha. repeat split; auto.
  - apply ComboFacts.trace_one. simpl.
    destruct K as [K|K]; [ eapply Combo.Streak | eapply Combo.Restart ]; exact K.
Qed.

Lemma hitEnemy_playing b i en j s : playing s (hitEnemy M b i en j s).
Proof.
  destruct s as [e w]. unfold hitEnemy.
  destruct (bulletEnemyCollision b en); [ | apply playing_refl ].
  destruct (negb (Enemy.isAlive _)).
  - match goal with |- context [registerKill M ?x ?k (?e1, ?w1)] =>
      destruct (registerKill_shape x k e1 w1) as (pops & ps & pus & w' & E & L);
      rewrite E
    end.
    eapply kill_playing; [ exact L | | reflexivity .. ].
    apply scoreKill_kill_at.
  - apply calm_playing. calm_by (later_refl w).
Qed.

Lemma playerBulletVsEnemies_playing b i s :
  playing s (playerBulletVsEnemies M b i s).
Proof.
  unfold playerBulletVsEnemies. destruct (Bullet.isPlayerBullet b).
  - apply forEach_rel; auto using playing_refl, hitEnemy_playing.
    apply playing_trans.
  - apply playing_refl.
Qed.

Lemma hitBase_calm b i s : calm s (hitBase b i s).
Proof.
  destruct s as [e w]. unfold hitBase.
  destruct (negb (Bullet.isPlayerBullet b)); [ | apply calm_refl ].
  destruct (bulletBaseCollision b (base e)); [ | apply calm_refl ].
  destruct (hasShield e);
    match goal with |- context [if ?c then _ else _] => destruct c end;
    calm_by (later_refl w).
Qed.

Lemma collect_calm p i s : calm s (collect M p i s).
Proof.
  destruct s as [e w]. unfold collect.
  match goal with |- context [if ?c then _ else _] => destruct c end;
    [ | apply calm_refl ].
  unfold activatePowerUp. cbn [Date_now].
  destruct (PowerUp.type p);
    (apply calm_intro; try reflexivity;
     [ apply later_now | apply MapFacts.single_set ]).
Qed.

Lemma periodicPowerUp_calm now s : calm s (periodicPowerUp now s).
Proof.
  destruct s as [e w]. unfold periodicPowerUp.
  destruct (15000 <? now - lastPowerUpSpawn e)%Z; [ | apply calm_refl ].
  cbn [Math_random].
  match goal with |- context [if ?c then _ else _] => destruct c end;
    [ | apply calm_intro; try reflexivity; try exact (fun ok => ok);
        exists 0%nat; reflexivity ].
  cbn [spawnPowerUp Math_random].
  apply calm_intro; try reflexivity; try exact (fun ok => ok).
  exists 0%nat. reflexivity.
Qed.

Lemma expire_game now e entry :
  gameState (expire now e entry) = gameState e
  /\ canvasWidth (expire now e entry) = canvasWidth e
  /\ canvasHeight (expire now e entry) = canvasHeight e
  /\ (Modifier.single (activePowerUps e) ->
      Modifier.single (activePowerUps (expire now e entry))).
Proof.
  destruct entry as [ty ex]. unfold expire.
  destruct (ex <=? now)%Z; [ | repeat split; auto ].
  destruct ty; repeat split;
    cbn [activePowerUps set_activePowerUps deactivatePowerUp
         set_baseSpeedMultiplier set_shootCooldownMultiplier set_hasShield
         set_multiShotCount];
    apply MapFacts.single_delete.
Qed.

Lemma fold_expire_game now l : forall e,
  gameState (fold_left (expire now) l e) = gameState e
  /\ canvasWidth (fold_left (expire now) l e) = canvasWidth e
  /\ canvasHeight (fold_left (expire now) l e) = canvasHeight e
  /\ (Modifier.single (activePowerUps e) ->
      Modifier.single (activePowerUps (fold_left (expire now) l e))).
Proof.
  induction l as [|x l IH]; intros e; simpl; [ repeat split; auto | ].
  destruct (IH (expire now e x)) as (a & b & c & d).
  destruct (expire_game now e x) as (a' & b' & c' & d').
  repeat split; try congruence. auto.
Qed.

Lemma updatePowerUps_calm now e w : calm (e, w) (updatePowerUps now e, w).
Proof.
  unfold updatePowerUps.
  destruct (fold_expire_game now (activePowerUps e) e) as (a & b & c & d).
  apply calm_intro; cbn; try rewrite a; try assumption; try reflexivity.
  apply later_refl.
Qed.

Lemma updateCombo_playing s : playing s (updateCombo s).
Proof.
  destruct s as [e w]. unfold updateCombo. cbn [Date_now].
  match goal with |- context [if ?c then _ else _] => destruct c eqn:Hc end.
  - split.
    + unfold steady. simpl. repeat split; try exact (fun ok => ok).
      apply later_now.
    + apply ComboFacts.trace_one, Combo.Decay. repeat split.
  - apply calm_playing. calm_by (later_now w).
Qed.

(** A whole frame: a calm run up to the combo decay, and a run of kills and
    other statements after it. *)
Lemma frame_split now s :
  exists s0, calm s s0 /\ playing (updateCombo s0) (frame M now s).
Proof.
  unfold frame.
  pose proof (spawnEnemies_calm now s) as H1.
  destruct (spawnEnemies now s) as [e1 w1].
  pose proof (forEach_rel (fun s => enemies (fst s)) (updateEnemy M now) calm
                calm_refl calm_trans
                (fun a k s _ => updateEnemy_calm now a k s) (e1, w1)) as H2.
  destruct (forEach (fun s => enemies (fst s)) (updateEnemy M now) (e1, w1))
    as [e2 w2].
  match goal with |- context [updateCombo ?x] =>
    exists x;
    assert (H2' : calm (e2, w2) x) by calm_by (later_refl w2);
    destruct (updateCombo x) as [e3 w3]
  end.
  split; [ eapply calm_trans; [ exact H1 | eapply calm_trans; eassumption ] | ].
  match goal with |- context [forEach _ (playerBulletVsEnemies M) ?x] =>
    pose proof (forEach_rel (fun s => bullets (fst s)) (playerBulletVsEnemies M)
                  playing playing_refl playing_trans
                  (fun a k s _ => playerBulletVsEnemies_playing a k s) x) as H4;
    assert (H3' : calm (e3, w3) x) by calm_by (later_refl w3);
    destruct (forEach (fun s => bullets (fst s)) (playerBulletVsEnemies M) x)
      as [e4 w4]
  end.
  pose proof (forEach_rel (fun s => bullets (fst s)) hitBase calm
                calm_refl calm_trans
                (fun a k s _ => hitBase_calm a k s) (e4, w4)) as H5.
  destruct (forEach (fun s => bullets (fst s)) hitBase (e4, w4)) as [e5 w5].
  pose proof (updatePowerUps_calm now e5 w5) as H6.
  pose proof (forEach_rel (fun s => powerUps (fst s)) (collect M) calm
                calm_refl calm_trans
                (fun a k s _ => collect_calm a k s)
                (updatePowerUps now e5, w5)) as H7.
  unfold checkPowerUpCollisions.
  destruct (forEach (fun s => powerUps (fst s)) (collect M)
              (updatePowerUps now e5, w5)) as [e7 w7].
  pose proof (periodicPowerUp_calm now (e7, w7)) as H8.
  destruct (periodicPowerUp now (e7, w7)) as [e8 w8].
  assert (H9 : calm (e8, w8)
                 (set_gameState
                    (set_playerHealth (Base.health (base e8)) (gameState e8)) e8,
                  w8)) by calm_by (later_refl w8).
  repeat (eapply playing_trans;
          [ first [ eassumption | apply calm_playing; eassumption ] | ]).
  apply playing_refl.
Qed.

Lemma frame_playing now s : playing s (frame M now s).
Proof.
  destruct (frame_split now s) as (s0 & Hc & Hp).
  eapply playing_trans; [ apply calm_playing, Hc | ].
  eapply playing_trans; [ apply updateCombo_playing | exact Hp ].
Qed.

Lemma updateCombo_decays e w :
  (0 < lastKillTime (gameState e))%Z ->
  (2000 < clock w 0 - lastKillTime (gameState e))%Z ->
  Combo.decay (gameState e) (gameState (fst (updateCombo (e, w)))).
Proof.
  intros H1 H2. unfold updateCombo. cbn [Date_now].
  apply Z.ltb_lt in H1, H2. rewrite H1, H2. repeat split.
Qed.
End Phases.
End RunFacts.

(** ** The shape of [update] *)

Module UpdateFacts.
Import GameEngine GameState Run RunFacts.

Section WithMath.
Variable M : MathLib.

Lemma levelOver_due e w :
  levelOver (clock w 0 - levelStartTime (gameState e))
            (levelDuration (gameState e)) = true
  <-> due (e, w).
Proof.
  unfold due, levelOver. simpl. destruct (levelDuration (gameState e)) as [d|].
  - rewrite Z.leb_le. split.
    + intros H. exists d. auto.
    + intros (d' & E & H). congruence.
  - split; [ discriminate | intros (d' & E & _); discriminate ].
Qed.

Lemma update_halted e w :
  ~ running e -> update M (e, w) = (e, w).
Proof.
  unfold running, update. intros H.
  destruct (isPaused (gameState e)), (isGameOver (gameState e));
    try reflexivity. exfalso. apply H. auto.
Qed.

Lemma update_due e w :
  running e -> due (e, w) ->
  update M (e, w) = nextLevel (e, snd (Date_now w)).
Proof.
  intros [Hp Ho] Hd. unfold update. rewrite Hp, Ho. cbn [orb Date_now snd].
  apply levelOver_due in Hd. rewrite Hd. reflexivity.
Qed.

Lemma update_frame e w :
  running e -> ~ due (e, w) ->
  update M (e, w) = frame M (clock w 0) (e, snd (Date_now w)).
Proof.
  intros [Hp Ho] Hd. unfold update. rewrite Hp, Ho. cbn [orb Date_now snd].
  destruct (levelOver _ _) eqn:E; [ | reflexivity ].
  exfalso. apply Hd, levelOver_due, E.
Qed.

Lemma running_dec e : {running e} + {~ running e}.
Proof.
  unfold running.
  destruct (isPaused (gameState e)), (isGameOver (gameState e));
    (left; split; reflexivity) || (right; intros [? ?]; discriminate).
Qed.

Lemma due_dec s : {due s} + {~ due s}.
Proof.
  destruct s as [e w].
  destruct (levelOver (clock w 0 - levelStartTime (gameState e))
                      (levelDuration (gameState e))) eqn:E.
  - left. apply levelOver_due, E.
  - right. intros H. apply levelOver_due in H. congruence.
Qed.


Lemma nextLevel_quiet e w :
  Combo.quiet (gameState e) (gameState (fst (nextLevel (e, w)))).
Proof.
  unfold nextLevel. destruct (level (gameState e) <? 3)%Z.
  - cbn [Date_now]. destruct (level (gameState e) =? 2)%Z; repeat split.
  - repeat split.
Qed.

(** Every entry point but [reset] leaves a trace of combo events. *)
Lemma apply_trace o s :
  o <> Reset ->
  Combo.trace (gameState (fst s)) (gameState (fst (apply M o s))).
Proof.
  intros Ho. destruct s as [e w].
  destruct o; try congruence; cbn [apply fst snd].
  - destruct (running_dec e) as [Hr|Hr].
    + destruct (due_dec (e, w)) as [Hd|Hd].
      * rewrite update_due by assumption.
        apply ComboFacts.trace_quiet, nextLevel_quiet.
      * rewrite update_frame by assumption.
        apply (frame_playing M (clock w 0) (e, snd (Date_now w))).
    + rewrite update_halted by assumption. apply Combo.Done.
  - apply ComboFacts.trace_quiet. unfold shoot.
    destruct (1 <? multiShotCount e)%Z; repeat split.
  - apply ComboFacts.trace_quiet. repeat split.
  - apply ComboFacts.trace_quiet. repeat split.
  - apply ComboFacts.trace_quiet. repeat split.
Qed.



Lemma reachable_bounded st :
  reachable M st -> Combo.bounded (gameState (fst st)).
Proof.
  induction 1 as [cw ch w | o s Hs IH].
  - simpl. unfold Combo.bounded. simpl. repeat split; try lia; lra.
  - destruct o.
    6: { destruct s as [e w]. simpl. unfold Combo.bounded. simpl.
         repeat split; try lia; lra. }
    all: eapply ComboFacts.trace_bounded; [ | exact IH ];
      apply apply_trace; discriminate.
Qed.

Lemma nextLevel_active e w :
  activePowerUps (fst (nextLevel (e, w))) = activePowerUps e.
Proof.
  unfold nextLevel. destruct (level (gameState e) <? 3)%Z; [ | reflexivity ].
  cbn [Date_now]. destruct (level (gameState e) =? 2)%Z; reflexivity.
Qed.

(** The active set holds one entry per type, always. *)
Lemma reachable_single st :
  reachable M st -> Modifier.single (activePowerUps (fst st)).
Proof.
  induction 1 as [cw ch w | o s Hs IH].
  - simpl. constructor.
  - destruct s as [e w]. cbn [fst] in IH. destruct o; cbn [apply fst snd].
    + destruct (running_dec e) as [Hr|Hr].
      * destruct (due_dec (e, w)) as [Hd|Hd].
        -- rewrite update_due by assumption. rewrite nextLevel_active. exact IH.
        -- rewrite update_frame by assumption.
           destruct (frame_playing M (clock w 0) (e, snd (Date_now w)))
             as [(_ & _ & _ & _ & _ & _ & _ & _ & Hok) _].
           apply Hok, IH.
      * rewrite update_halted by assumption. exact IH.
    + unfold shoot. destruct (1 <? multiShotCount e)%Z; exact IH.
    + exact IH.
    + exact IH.
    + exact IH.
    + simpl. constructor.
Qed.
End WithMath.
End UpdateFacts.

(** ** Collision *)

Section Collision.
Import CollisionDetector.
Variables (pos1 : Position.t) (size1 : Size.t) (pos2 : Position.t) (size2 : Size.t).

Let x1 := Position.x pos1.
Let y1 := Position.y pos1.
Let x2 := Position.x pos2.
Let y2 := Position.y pos2.
Let w1 := Size.width size1.
Let h1 := Size.height size1.
Let w2 := Size.width size2.
Let h2 := Size.height size2.

Lemma rectRectCollision_iff :
  rectRectCollision pos1 size1 pos2 size2 = true <->
  x1 < x2 + w2 /\ x2 < x1 + w1 /\ y1 < y2 + h2 /\ y2 < y1 + h1.
Proof.
  unfold rectRectCollision.
  rewrite !andb_true_iff, !Qltb_lt. subst x1 y1 x2 y2 w1 h1 w2 h2. tauto.
Qed.

(** C7 (amended): the test answers true exactly when the extents overlap
    strictly on both axes, each rectangle's near edge strictly before the
    other's far edge; rectangles that merely touch along an edge, whatever
    the other axis, are reported as not colliding. *)
Theorem C7_rectRectCollision_strict_overlap :
  (rectRectCollision pos1 size1 pos2 size2 = true <->
     (x1 < x2 + w2 /\ x2 < x1 + w1) /\ (y1 < y2 + h2 /\ y2 < y1 + h1))
  /\ (x1 + w1 == x2 \/ x2 + w2 == x1 \/ y1 + h1 == y2 \/ y2 + h2 == y1 ->
      rectRectCollision pos1 size1 pos2 size2 = false).
Proof.
  split.
  - rewrite rectRectCollision_iff. tauto.
  - intros Htouch. apply not_true_is_false. rewrite rectRectCollision_iff.
    intros (Ha & Hb & Hc & Hd).
    destruct Htouch as [E | [E | [E | E]]]; rewrite E in *;
      eapply Qlt_irrefl; eassumption.
Qed.
End Collision.

(** C7, as stated, fails: A's far x edge equals B's near x edge, the
    y-extents coincide, and the test does not report a collision. *)
Lemma C7_touching_rectangles_do_not_collide :
  Position.x (fst squareA) + Size.width (snd squareA) == Position.x (fst squareB)
  /\ Position.y (fst squareA) < Position.y (fst squareB) + Size.height (snd squareB)
  /\ Position.y (fst squareB) < Position.y (fst squareA) + Size.height (snd squareA)
  /\ CollisionDetector.rectRectCollision
       (fst squareA) (snd squareA) (fst squareB) (snd squareB) <> true.
Proof. repeat split; try reflexivity. discriminate. Qed.

Lemma C7_rectRectCollision_strict_overlap_witness :
  CollisionDetector.rectRectCollision
    (fst squareA) (snd squareA) (fst squareB) (snd squareB) = false.
Proof.
  apply (C7_rectRectCollision_strict_overlap
           (fst squareA) (snd squareA) (fst squareB) (snd squareB)).
  left. reflexivity.
Defined.

(** ** Player movement *)

Section PlayerMoves.
Import Base.
Variables (b : Base.t) (bound m : Q).

Let top := bound - Size.height (size b).

Lemma moveUp_floor : 0 <= Position.y (position (moveUp bound m b)).
Proof. simpl. apply Q.le_max_l. Qed.

Lemma moveDown_ceiling : Position.y (position (moveDown bound m b)) <= top.
Proof. simpl. apply Q.le_min_l. Qed.

Lemma moves_keep_size :
  size (moveUp bound m b) = size b /\ size (moveDown bound m b) = size b.
Proof. split; reflexivity. Qed.

(** C8 (amended): each call clamps on its own side only: from any start and
    for any multiplier [moveUp] gives 0 <= y and [moveDown] gives
    y <= bound - playerHeight.  From a start within [0, bound - playerHeight],
    with a speed and a speed multiplier that are not negative, of any
    magnitude, [moveUp] and [moveDown] leave y within
    [0, bound - playerHeight]. *)
Theorem C8_moves_stay_in_range :
  0 <= Position.y (position (moveUp bound m b))
  /\ Position.y (position (moveDown bound m b))
     <= bound - Size.height (size (moveDown bound m b))
  /\ (0 <= speed b -> 0 <= m ->
      0 <= Position.y (position b) <= top ->
      (0 <= Position.y (position (moveUp bound m b))
         <= bound - Size.height (size (moveUp bound m b)))
      /\ (0 <= Position.y (position (moveDown bound m b))
            <= bound - Size.height (size (moveDown bound m b)))).
Proof.
  split; [ apply moveUp_floor | split; [ apply moveDown_ceiling | ] ].
  intros Hs Hm [Hlo Hhi]. subst top.
  assert (Hstep : 0 <= speed b * m) by (apply Qmult_le_0_compat; assumption).
  simpl. repeat split.
  - apply Q.le_max_l.
  - apply Q.max_lub; [ lra | lra ].
  - apply Q.min_glb; lra.
  - apply Q.le_min_l.
Qed.
End PlayerMoves.

(** C8, as stated, fails: a start below the playfield stays below it after
    [moveUp], and a negative multiplier takes [moveDown] above the top edge
    from the starting place. *)
Lemma C8_one_sided_clamp :
  ~ (Position.y (Base.position (Base.moveUp 600 1 strayBase))
       <= 600 - Size.height (Base.size (Base.moveUp 600 1 strayBase)))
  /\ ~ (0 <= Position.y (Base.position (Base.moveDown 600 (-100) freshBase))).
Proof. split; vm_compute; intros H; apply H; reflexivity. Qed.

Lemma C8_moves_stay_in_range_witness :
  (0 <= Position.y (Base.position (Base.moveUp 600 1.5 freshBase))
     <= 600 - Size.height (Base.size (Base.moveUp 600 1.5 freshBase)))
  /\ (0 <= Position.y (Base.position (Base.moveDown 600 1.5 freshBase))
        <= 600 - Size.height (Base.size (Base.moveDown 600 1.5 freshBase))).
Proof.
  apply (C8_moves_stay_in_range freshBase 600 1.5);
    vm_compute; try split; discriminate.
Defined.

(** ** Reset *)

Section Reset.
Import GameEngine GameState.
Variables (e : GameEngine.t) (w w0 : World).

(** The engine after [reset()], and a newly constructed engine of the same
    playfield, built in any world. *)
Let after := fst (reset (e, w)).
Let fresh := fst (new (canvasWidth e) (canvasHeight e) w0).

(** [reset] rebuilds the whole object; only the spawn bookkeeping differs from
    what the constructor leaves. *)
Lemma reset_is_construction :
  fst (reset (e, w)) =
  set_spawnInterval (spawnInterval e)
    (set_lastSpawnTime (fst (Date_now w))
       (set_lastPowerUpSpawn (fst (Date_now w))
          (fst (new (canvasWidth e) (canvasHeight e) w)))).
Proof. reflexivity. Qed.

(** C6: whatever the engine's state, paused and game-over included, [reset()]
    gives score, combo, multiplier, level, health and maximal health, the
    three counters, both flags, the four power-up modifiers with the active
    set, and the five collections the values the constructor gives them:
    level 1, running, score 0, combo 0, multiplier 1, health 100, every
    collection empty. *)
Theorem C6_reset_restores_initial_values :
  (score (gameState after) = score (gameState fresh)
   /\ combo (gameState after) = combo (gameState fresh)
   /\ comboMultiplier (gameState after) = comboMultiplier (gameState fresh)
   /\ level (gameState after) = level (gameState fresh)
   /\ playerHealth (gameState after) = playerHealth (gameState fresh)
   /\ maxPlayerHealth (gameState after) = maxPlayerHealth (gameState fresh)
   /\ enemiesKilled (gameState after) = enemiesKilled (gameState fresh)
   /\ bulletsShot (gameState after) = bulletsShot (gameState fresh)
   /\ bulletsHit (gameState after) = bulletsHit (gameState fresh)
   /\ isPaused (gameState after) = isPaused (gameState fresh)
   /\ isGameOver (gameState after) = isGameOver (gameState fresh)
   /\ base after = base fresh
   /\ activePowerUps after = activePowerUps fresh
   /\ baseSpeedMultiplier after = baseSpeedMultiplier fresh
   /\ shootCooldownMultiplier after = shootCooldownMultiplier fresh
   /\ hasShield after = hasShield fresh
   /\ multiShotCount after = multiShotCount fresh
   /\ enemies after = enemies fresh
   /\ bullets after = bullets fresh
   /\ scorePopups after = scorePopups fresh
   /\ particles after = particles fresh
   /\ powerUps after = powerUps fresh)
  /\ (level (gameState after) = 1%Z
      /\ isPaused (gameState after) = false
      /\ isGameOver (gameState after) = false
      /\ score (gameState after) = 0%Z
      /\ combo (gameState after) = 0%Z
      /\ comboMultiplier (gameState after) = 1
      /\ Base.health (base after) = 100%Z
      /\ Base.maxHealth (base after) = 100%Z
      /\ playerHealth (gameState after) = 100%Z
      /\ maxPlayerHealth (gameState after) = 100%Z
      /\ enemiesKilled (gameState after) = 0%Z
      /\ bulletsShot (gameState after) = 0%Z
      /\ bulletsHit (gameState after) = 0%Z
      /\ activePowerUps after = []
      /\ baseSpeedMultiplier after = 1
      /\ shootCooldownMultiplier after = 1
      /\ hasShield after = false
      /\ multiShotCount after = 1%Z
      /\ enemies after = []
      /\ bullets after = []
      /\ scorePopups after = []
      /\ particles after = []
      /\ powerUps after = []).
Proof. subst after fresh. simpl. repeat split. Qed.
End Reset.

(** ** Level transitions *)

Section Levels.
Import GameEngine GameState UpdateFacts.
Variable M : MathLib.
Variables (e : GameEngine.t) (w : World).

Let lvl := level (gameState e).





End Levels.

(** The pause comes first: built at time 1000 and then paused, the engine
    is called at time 41000, 40 seconds into the 30 seconds of level 1, and
    [update()] changes nothing; the transition waits for the game to go on. *)
Lemma paused_engine_waits :
  due pausedLate
  /\ GameEngine.update plainMath pausedLate = pausedLate
  /\ GameState.level (GameEngine.gameState (fst pausedLate)) = 1%Z
  /\ GameState.isGameOver (GameEngine.gameState (fst pausedLate)) = false.
Proof.
  split; [ | repeat split ].
  exists 30000%Z. split; [ reflexivity | vm_compute; discriminate ].
Qed.


(** ** The combo multiplier *)

Section ComboMultiplier.
Import GameEngine GameState UpdateFacts RunFacts.
Variable M : MathLib.
Variable s : Machine.

Let g := gameState (fst s).
Let now (n : nat) := clock (snd s) n.

Lemma raise_is_streak o :
  Combo.bounded g ->
  comboMultiplier g < comboMultiplier (gameState (fst (apply M o s))) ->
  exists g1 g2 t,
    Combo.trace g g1 /\ Combo.streak t g1 g2
    /\ Combo.trace g2 (gameState (fst (apply M o s)))
    /\ comboMultiplier g1 < comboMultiplier g2.
Proof.
  intros Hb Hup. destruct o.
  6: { exfalso. destruct Hb as (_ & Hlo & _). subst g. destruct s as [e w].
       simpl in Hup, Hlo. lra. }
  all: apply ComboFacts.trace_raise; try assumption;
    apply (apply_trace M _ s); discriminate.
Qed.

Lemma decay_in_update :
  running (fst s) -> ~ due s ->
  (0 < lastKillTime g)%Z ->
  monotone (snd s) -> (2000 < now 0 - lastKillTime g)%Z ->
  exists g0 g1,
    Combo.quiet g g0 /\ Combo.decay g0 g1
    /\ Combo.trace g1 (gameState (fst (update M s))).
Proof.
  subst g now. destruct s as [e w]. cbn [fst snd].
  intros Hr Hd Hk Hmono Hfirst.
  assert (Hold : forall n, (2000 < clock w n - lastKillTime (gameState e))%Z).
  { intros n. pose proof (Hmono 0%nat n (Nat.le_0_l n)). lia. }
  rewrite update_frame by assumption.
  destruct (frame_split M (clock w 0) (e, snd (Date_now w)))
    as ([e0 w0] & [(Hl & _) Hq] & [_ Ht]).
  cbn [fst snd] in Hl, Hq, Ht.
  exists (gameState e0), (gameState (fst (updateCombo (e0, w0)))).
  split; [ exact Hq | split; [ | exact Ht ] ].
  destruct Hq as (_ & _ & Hlast & _).
  apply updateCombo_decays; rewrite Hlast; [ exact Hk | ].
  assert (L : later w w0) by (eapply later_trans; [ apply later_now | exact Hl ]).
  apply (later_bound w w0 (fun t => (2000 < t - lastKillTime (gameState e))%Z) L Hold).
Qed.

(** C2 (amended): in every reachable state the combo multiplier lies in
    [1, 3]; an entry point raises it only through a kill made less than
    2000 ms after the previous kill; and when an engine that has seen a kill
    is called more than 2000 ms after its last kill, by a clock that never
    goes back, an [update()] that gets past the pause and game-over guard and
    past the level timer resets combo count and multiplier to 0 and 1 at its
    decay step, where they still are when it returns unless it has killed an
    enemy. *)
Theorem C2_combo_multiplier :
  reachable M s ->
  (1 <= comboMultiplier g /\ comboMultiplier g <= 3)
  /\ (forall o,
        comboMultiplier g < comboMultiplier (gameState (fst (apply M o s))) ->
        exists g1 g2 t,
          Combo.trace g g1 /\ Combo.streak t g1 g2
          /\ Combo.trace g2 (gameState (fst (apply M o s)))
          /\ comboMultiplier g1 < comboMultiplier g2)
  /\ (running (fst s) -> ~ due s ->
      (0 < lastKillTime g)%Z ->
      monotone (snd s) -> (2000 < now 0 - lastKillTime g)%Z ->
      (exists g0 g1,
         Combo.quiet g g0 /\ Combo.decay g0 g1
         /\ Combo.trace g1 (gameState (fst (update M s))))
      /\ (enemiesKilled (gameState (fst (update M s))) = enemiesKilled g ->
          combo (gameState (fst (update M s))) = 0%Z
          /\ comboMultiplier (gameState (fst (update M s))) = 1)).
Proof.
  intros Hreach.
  pose proof (reachable_bounded M s Hreach) as Hb.
  split; [ | split ].
  - destruct Hb as (_ & Hlo & Hhi). split; assumption.
  - intros o. apply raise_is_streak, Hb.
  - intros Hr Hd Hk Hmono Hold.
    destruct (decay_in_update Hr Hd Hk Hmono Hold)
      as (g0 & g1 & Hq & Hdec & Ht).
    split; [ exists g0, g1; auto | ].
    intros Hsame.
    destruct Hq as (_ & _ & _ & q4). destruct Hdec as (d1 & d2 & _ & d4).
    apply (ComboFacts.trace_no_kill g1 _ Ht); try assumption.
    subst g. congruence.
Qed.
End ComboMultiplier.

Lemma firstKill_reachable : reachable plainMath firstKill.
Proof.
  unfold firstKill, play. cbn [app repeat fold_left].
  repeat apply Driven. apply Built.
Qed.

(** The pause comes first: the engine has killed its first enemy at time
    3064 (combo 1) and is then paused; called at time 20080, 17 seconds after
    the kill, [update()] changes nothing, the combo count included. *)
Lemma paused_engine_keeps_combo :
  reachable plainMath pausedAfterKill
  /\ GameState.lastKillTime (GameEngine.gameState (fst pausedAfterKill)) = 3064%Z
  /\ clock (snd pausedAfterKill) 0 = 20080%Z
  /\ GameState.combo
       (GameEngine.gameState (fst (GameEngine.update plainMath pausedAfterKill)))
     = 1%Z.
Proof.
  split.
  - apply Driven, firstKill_reachable.
  - vm_compute. repeat split.
Qed.

(** C2, as stated, fails in a running engine: the engine has killed its
    first enemy at time 3064 (combo 1) and is called next at time 31064, 28
    seconds after the kill, by a clock that never goes back.  The 30 seconds
    of level 1 are over: this [update()] makes the transition to level 2 and
    returns, and the combo count is still 1, without any new kill. *)
Lemma C2_level_frame_keeps_combo :
  reachable plainMath killBeforeBreak
  /\ running (fst killBeforeBreak)
  /\ monotone (snd killBeforeBreak)
  /\ GameState.lastKillTime (GameEngine.gameState (fst killBeforeBreak))
     = 3064%Z
  /\ clock (snd killBeforeBreak) 0 = 31064%Z
  /\ GameState.level
       (GameEngine.gameState
          (fst (GameEngine.update plainMath killBeforeBreak))) = 2%Z
  /\ GameState.enemiesKilled
       (GameEngine.gameState
          (fst (GameEngine.update plainMath killBeforeBreak)))
     = GameState.enemiesKilled (GameEngine.gameState (fst killBeforeBreak))
  /\ GameState.combo
       (GameEngine.gameState
          (fst (GameEngine.update plainMath killBeforeBreak))) = 1%Z
  /\ GameState.comboMultiplier
       (GameEngine.gameState
          (fst (GameEngine.update plainMath killBeforeBreak))) = 1.
Proof.
  split; [ | split; [ | split ] ].
  - unfold killBeforeBreak, play. cbn [app repeat fold_left].
    repeat apply Driven. apply Built.
  - split; vm_compute; reflexivity.
  - intros i j _. vm_compute. discriminate.
  - vm_compute. repeat split.
Qed.

(** The clock matters: in the same match, a clock that reads 20080 when the
    frame starts, 17 seconds after the kill, and goes back to 3100 before the
    decay step reads it, leaves the combo count at 1. *)
Lemma decay_reads_the_clock_again :
  reachable plainMath killBeforeRewind
  /\ running (fst killBeforeRewind)
  /\ GameState.lastKillTime (GameEngine.gameState (fst killBeforeRewind))
     = 3064%Z
  /\ clock (snd killBeforeRewind) 0 = 20080%Z
  /\ clock (snd killBeforeRewind) 1 = 3100%Z
  /\ GameState.level
       (GameEngine.gameState
          (fst (GameEngine.update plainMath killBeforeRewind))) = 1%Z
  /\ GameState.combo
       (GameEngine.gameState
          (fst (GameEngine.update plainMath killBeforeRewind))) = 1%Z.
Proof.
  split; [ | split ].
  - unfold killBeforeRewind, play. cbn [app repeat fold_left].
    repeat apply Driven. apply Built.
  - split; vm_compute; reflexivity.
  - vm_compute. repeat split.
Qed.

(** The match of [firstKill], whose clock reads 20080 ever after the kill:
    its multiplier is within bounds, and the call at time 20080 resets combo
    count and multiplier. *)
Lemma C2_combo_multiplier_witness :
  (1 <= GameState.comboMultiplier (GameEngine.gameState (fst firstKill))
   /\ GameState.comboMultiplier (GameEngine.gameState (fst firstKill)) <= 3)
  /\ GameState.combo
       (GameEngine.gameState (fst (GameEngine.update plainMath firstKill))) = 0%Z
  /\ GameState.comboMultiplier
       (GameEngine.gameState (fst (GameEngine.update plainMath firstKill))) = 1.
Proof.
  destruct (C2_combo_multiplier plainMath firstKill firstKill_reachable)
    as (Hb & _ & Hd).
  split; [ exact Hb | ].
  apply Hd.
  - split; vm_compute; reflexivity.
  - intros (d & E & H). vm_compute in E. injection E as <-.
    vm_compute in H. apply H. reflexivity.
  - vm_compute. reflexivity.
  - intros i j _. vm_compute. discriminate.
  - vm_compute. reflexivity.
  - vm_compute. reflexivity.
Defined.

(** ** Kills: combo and score *)

Section Kill.
Import GameEngine GameState RunFacts.
Variable M : MathLib.
Variables (bullet : Bullet.t) (bulletIndex : nat).
Variables (enemy : Enemy.t) (enemyIndex : nat).
Variables (e : GameEngine.t) (w : World).

Let g := gameState e.
Let now := clock w 0.
Let after := fst (hitEnemy M bullet bulletIndex enemy enemyIndex (e, w)).
Let g' := gameState after.

Lemma takeDamage_fatal :
  (Enemy.health enemy <= Bullet.damage bullet)%Z ->
  Enemy.health (Enemy.takeDamage (Bullet.damage bullet) enemy) = 0%Z
  /\ Enemy.isAlive (Enemy.takeDamage (Bullet.damage bullet) enemy) = false.
Proof.
  intros H. unfold Enemy.isAlive. simpl.
  rewrite Z.max_l by lia. split; reflexivity.
Qed.

(** A fatal hit runs the kill branch. *)
Lemma hitEnemy_fatal :
  bulletEnemyCollision bullet enemy = true ->
  (Enemy.health enemy <= Bullet.damage bullet)%Z ->
  exists pops ps pus w',
    hitEnemy M bullet bulletIndex enemy enemyIndex (e, w) =
      (set_enemies
         (splice1 enemyIndex
            (assign enemyIndex
               (Enemy.takeDamage (Bullet.damage bullet) enemy) (enemies e)))
         (set_powerUps pus
            (set_particles ps
               (set_scorePopups pops
                  (set_gameState (fst (scoreKill now g))
                     (set_bullets (splice1 bulletIndex (bullets e)) e))))),
       w')
    /\ later w w'.
Proof.
  intros Hc Hd. unfold hitEnemy. rewrite Hc.
  destruct (takeDamage_fatal Hd) as [_ Hdead]. rewrite Hdead. cbn [negb].
  match goal with |- context [registerKill M ?x ?k (?e1, ?w1)] =>
    destruct (registerKill_shape M x k e1 w1) as (pops & ps & pus & w' & E & L);
    rewrite E
  end.
  exists pops, ps, pus, w'. split; [ reflexivity | exact L ].
Qed.

(** C1: when a player bullet takes an enemy's health to zero in the
    collision pass, a kill made less than 2000 ms after an existing previous
    kill increments the combo and sets the multiplier to
    min(1 + combo * 0.1, 3); any other kill sets combo and multiplier to 1;
    then round(basePoints * multiplier) is added to the score, with
    basePoints 500 on level 3 and 10 * level otherwise, and the counters of
    kills and of bullet hits each grow by one. *)
Theorem C1_kill_combo_and_score :
  bulletEnemyCollision bullet enemy = true ->
  (Enemy.health enemy <= Bullet.damage bullet)%Z ->
  ((0 < lastKillTime g)%Z /\ (now - lastKillTime g < 2000)%Z ->
     combo g' = (combo g + 1)%Z
     /\ comboMultiplier g' = Qmin (1 + inject_Z (combo g') * 0.1) 3)
  /\ (~ ((0 < lastKillTime g)%Z /\ (now - lastKillTime g < 2000)%Z) ->
        combo g' = 1%Z /\ comboMultiplier g' = 1)
  /\ score g' =
       (score g
        + Math_round
            (inject_Z (if (level g =? 3)%Z then 500 else 10 * level g)
             * comboMultiplier g'))%Z
  /\ enemiesKilled g' = (enemiesKilled g + 1)%Z
  /\ bulletsHit g' = (bulletsHit g + 1)%Z
  /\ lastKillTime g' = now.
Proof.
  intros Hc Hd. subst g' after.
  destruct (hitEnemy_fatal Hc Hd) as (pops & ps & pus & w' & E & _).
  rewrite E. cbn [fst gameState set_enemies set_powerUps set_particles
                  set_scorePopups set_gameState set_bullets].
  destruct (scoreKill_kill_at now g) as (K & Hs & Hh & _).
  fold g.
  assert (Hkills : enemiesKilled (fst (scoreKill now g)) = (enemiesKilled g + 1)%Z
                   /\ lastKillTime (fst (scoreKill now g)) = now).
  { destruct K as [(_ & _ & _ & _ & a & b) | (_ & _ & _ & a & b)]; auto. }
  destruct Hkills as [Hk Hl].
  split; [ | split; [ | split; [ | split; [ | split ]]]];
    try assumption.
  - intros Hin.
    destruct K as [(_ & _ & a & b & _) | (Hout & _)]; [ | contradiction ].
    split; [ exact a | rewrite a; exact b ].
  - intros Hout.
    destruct K as [(a & b & _) | (_ & a & b & _)]; [ | auto ].
    exfalso. apply Hout. auto.
Qed.
End Kill.

(** The combo across three kills of a level-1 match: two kills 500 ms apart
    give combo 2, multiplier 1.2 and round(10 * 1.2) = 12 points; a third
    kill 3000 ms later starts over at combo 1, multiplier 1 and 10 points. *)
Lemma scoreKill_three_kills :
  let g0 := GameEngine.gameState (fst builtTick) in
  let k1 := GameEngine.scoreKill 5000 g0 in
  let k2 := GameEngine.scoreKill 5500 (fst k1) in
  let k3 := GameEngine.scoreKill 8500 (fst k2) in
  (GameState.combo (fst k1) = 1%Z /\ snd k1 = 10%Z)
  /\ (GameState.combo (fst k2) = 2%Z
      /\ GameState.comboMultiplier (fst k2) == 1.2 /\ snd k2 = 12%Z)
  /\ (GameState.combo (fst k3) = 1%Z
      /\ GameState.comboMultiplier (fst k3) == 1 /\ snd k3 = 10%Z)
  /\ GameState.score (fst k3) = 32%Z
  /\ GameState.enemiesKilled (fst k3) = 3%Z.
Proof. vm_compute. repeat split. Qed.

(** One bullet of damage 20 on a level-2 enemy of health 20, in a new match:
    combo 1, multiplier 1, one kill, one hit. *)
Lemma C1_kill_combo_and_score_witness :
  let b := shotAt 410 310 in
  let en := enemyAt (EnemyFactory.gunner LINEA "/images/linea-the-enemy.png") 400 300 in
  let g' := GameEngine.gameState (fst (GameEngine.hitEnemy plainMath b 0 en 0 duel)) in
  (GameState.combo g' = 1%Z /\ GameState.comboMultiplier g' = 1)
  /\ GameState.enemiesKilled g' = 1%Z /\ GameState.bulletsHit g' = 1%Z.
Proof.
  intros b en g'.
  destruct (C1_kill_combo_and_score plainMath b 0 en 0 (fst duel) (snd duel))
    as (_ & Hout & _ & Hk & Hh & _).
  - reflexivity.
  - vm_compute. discriminate.
  - split; [ | split; [ exact Hk | exact Hh ] ].
    apply Hout. intros [H _]. vm_compute in H. discriminate.
Defined.

(** The same duel through a whole [update()]: a level-1 enemy is spawned at
    the right edge, the level-2 enemy fires, the player's bullet advances by
    its velocity and hits, and the kill is scored 10 points. *)
Lemma update_duel :
  let e' := fst (GameEngine.update plainMath duel) in
  GameState.score (GameEngine.gameState e') = 10%Z
  /\ GameState.combo (GameEngine.gameState e') = 1%Z
  /\ GameState.enemiesKilled (GameEngine.gameState e') = 1%Z
  /\ GameState.bulletsHit (GameEngine.gameState e') = 1%Z
  /\ map Enemy.health (GameEngine.enemies e') = [30%Z]
  /\ map Bullet.isPlayerBullet (GameEngine.bullets e') = [false]
  /\ List.length (GameEngine.particles e') = 15%nat
  /\ map ScorePopup.value (GameEngine.scorePopups e') = [10%Z].
Proof. vm_compute. repeat split. Qed.

(** ** Enemy health and removal *)

Lemma Enemy_takeDamage_floor (amount : Z) (en : Enemy.t) :
  (0 <= Enemy.health (Enemy.takeDamage amount en))%Z.
Proof. simpl. apply Z.le_max_l. Qed.

Lemma Base_takeDamage_floor (amount : Z) (b : Base.t) :
  (0 <= Base.health (Base.takeDamage amount b))%Z.
Proof. simpl. apply Z.le_max_l. Qed.

Lemma splice1_assign {A} (v : A) (l : list A) : forall i,
  splice1 i (assign i v l) = splice1 i l.
Proof.
  unfold splice1. induction l as [|a l IH]; intros [|i]; simpl;
    try reflexivity.
  specialize (IH i). simpl in IH. f_equal. exact IH.
Qed.

Lemma splice1_at {A} (l1 l2 : list A) (a : A) :
  splice1 (List.length l1) (l1 ++ a :: l2) = l1 ++ l2.
Proof.
  unfold splice1. induction l1 as [|x l1 IH]; simpl.
  - reflexivity.
  - f_equal. exact IH.
Qed.

(** A bullet that kills removes its enemy from the collection in the same
    call: the enemy array loses exactly the entry at the enemy's index. *)
Lemma bullet_kill_removes M b i en (done todo : list Enemy.t) e w :
  GameEngine.enemies e = done ++ en :: todo ->
  bulletEnemyCollision b en = true ->
  (Enemy.health en <= Bullet.damage b)%Z ->
  GameEngine.enemies
    (fst (GameEngine.hitEnemy M b i en (List.length done) (e, w)))
  = done ++ todo.
Proof.
  intros He Hc Hd.
  destruct (hitEnemy_fatal M b i en (List.length done) e w Hc Hd)
    as (pops & ps & pus & w' & E & _).
  rewrite E. cbn [fst GameEngine.enemies GameEngine.set_enemies].
  cbn. rewrite splice1_assign, He. apply splice1_at.
Qed.

(** C3, at the failing input: the frame in which the first enemy touches the
    player.  Melee contact takes 5 from the player and takes the enemy's
    health from 30 to 0, and the enemy of health 0 is still in the collection
    when [update()] returns, and again after the next call, in which it
    strikes a second time. *)
Theorem C3_melee_kill_stays_in_collection :
  let contact := GameEngine.update plainMath beforeContact in
  let again := GameEngine.update plainMath contact in
  (map Enemy.health (GameEngine.enemies (fst beforeContact))
     = [30; 30; 30; 30; 30]%Z
   /\ Base.health (GameEngine.base (fst beforeContact)) = 100%Z)
  /\ (map Enemy.health (GameEngine.enemies (fst contact))
        = [0; 30; 30; 30; 30]%Z
      /\ Base.health (GameEngine.base (fst contact)) = 95%Z)
  /\ (map Enemy.health (GameEngine.enemies (fst again))
        = [0; 30; 30; 30; 30]%Z
      /\ Base.health (GameEngine.base (fst again)) = 90%Z).
Proof. vm_compute. repeat split. Qed.
(** ** Enemy bullets against the player *)





Section EnemyBullet.
Import GameEngine GameState.
Variables (bullet : Bullet.t) (bulletIndex : nat).
Variables (e : GameEngine.t) (w : World).

Let after := fst (hitBase bullet bulletIndex (e, w)).

End EnemyBullet.


(** The two hits through a whole [update()]: without shield the health
    becomes 90, the bullet is consumed and the game goes on; with the shield
    the health stays 100, the shield flag clears and the bullet is consumed. *)
Lemma update_under_fire :
  let open := fst (GameEngine.update plainMath underFire) in
  let covered := fst (GameEngine.update plainMath shielded) in
  (Base.health (GameEngine.base open) = 90%Z
   /\ GameState.playerHealth (GameEngine.gameState open) = 90%Z
   /\ GameEngine.bullets open = []
   /\ GameState.isGameOver (GameEngine.gameState open) = false)
  /\ (Base.health (GameEngine.base covered) = 100%Z
      /\ GameEngine.hasShield covered = false
      /\ GameEngine.bullets covered = []
      /\ GameState.isGameOver (GameEngine.gameState covered) = false).
Proof. vm_compute. repeat split. Qed.

(** Two enemy bullets in the player's rectangle, neighbours in the
    collection: the first call resolves the first (health 90) and, having
    spliced it out, passes over the second, which the next call resolves
    (health 80). *)
Lemma update_double_fire :
  let first := GameEngine.update plainMath crossfire in
  let second := GameEngine.update plainMath first in
  (Base.health (GameEngine.base (fst first)) = 90%Z
   /\ List.length (GameEngine.bullets (fst first)) = 1%nat)
  /\ (Base.health (GameEngine.base (fst second)) = 80%Z
      /\ GameEngine.bullets (fst second) = []).
Proof. vm_compute. repeat split. Qed.



(** ** Power-ups *)

Module PowerUpFacts.
Import GameEngine Modifier MapFacts.

Lemma activate_active ty e w :
  activePowerUps (fst (activatePowerUp ty (e, w)))
  = Map_set ty (clock w 0 + 10000)%Z (activePowerUps e).
Proof. unfold activatePowerUp. destruct ty; reflexivity. Qed.

Lemma activate_boosted ty e w : boosted ty (fst (activatePowerUp ty (e, w))).
Proof. unfold activatePowerUp. destruct ty; reflexivity. Qed.

Lemma activate_others ty ty' e w :
  ty' <> ty -> same ty' e (fst (activatePowerUp ty (e, w))).
Proof.
  intros H. unfold activatePowerUp. destruct ty, ty'; try reflexivity;
    congruence.
Qed.

Section Expiry.
Variable now : Z.

Lemma expire_due k ex e :
  (ex <= now)%Z ->
  activePowerUps (expire now e (k, ex)) = Map_delete k (activePowerUps e)
  /\ baseline k (expire now e (k, ex)).
Proof.
  intros H. unfold expire. apply Z.leb_le in H. rewrite H.
  destruct k; split; reflexivity.
Qed.

Lemma expire_baseline_kept ty e entry :
  baseline ty e -> baseline ty (expire now e entry).
Proof.
  destruct entry as [k ex]. unfold expire.
  destruct (ex <=? now)%Z; [ | auto ].
  intros H. destruct ty, k; first [ reflexivity | exact H ].
Qed.

Lemma expire_get_none ty e entry :
  Map_get ty (activePowerUps e) = None ->
  Map_get ty (activePowerUps (expire now e entry)) = None.
Proof.
  destruct entry as [k ex]. unfold expire. intros H.
  destruct (ex <=? now)%Z; [ | assumption ].
  replace (activePowerUps _) with (Map_delete k (activePowerUps e))
    by (destruct k; reflexivity).
  destruct (PowerUpType_eqb ty k) eqn:E.
  - apply PowerUpType_eqb_eq in E. subst. apply get_delete_same.
  - apply PowerUpType_eqb_neq in E. rewrite get_delete_other; assumption.
Qed.

Lemma fold_expire_gone ty l : forall e,
  baseline ty e /\ Map_get ty (activePowerUps e) = None ->
  baseline ty (fold_left (expire now) l e)
  /\ Map_get ty (activePowerUps (fold_left (expire now) l e)) = None.
Proof.
  induction l as [|x l IH]; intros e [Hb Hg]; simpl; [ auto | ].
  apply IH. split; [ apply expire_baseline_kept | apply expire_get_none ];
    assumption.
Qed.

(** An entry whose time has come takes its modifier back to baseline and
    leaves the set. *)
Lemma fold_expire_due ty ex l : forall e,
  In (ty, ex) l -> (ex <= now)%Z ->
  baseline ty (fold_left (expire now) l e)
  /\ Map_get ty (activePowerUps (fold_left (expire now) l e)) = None.
Proof.
  induction l as [|x l IH]; intros e Hin Hex; simpl; [ contradiction | ].
  destruct Hin as [->|Hin]; [ | apply IH; assumption ].
  apply fold_expire_gone.
  destruct (expire_due ty ex e Hex) as [Ha Hb].
  split; [ exact Hb | rewrite Ha; apply get_delete_same ].
Qed.

(** While no entry of a type has come to its time, its modifier and its
    entry stay. *)
Lemma fold_expire_early ty l : forall e,
  (forall ex, In (ty, ex) l -> (now < ex)%Z) ->
  same ty e (fold_left (expire now) l e)
  /\ Map_get ty (activePowerUps (fold_left (expire now) l e))
     = Map_get ty (activePowerUps e).
Proof.
  induction l as [|[k ex] l IH]; intros e Hall; cbn [fold_left].
  - split; [ destruct ty; reflexivity | reflexivity ].
  - destruct (IH (expire now e (k, ex))) as [Hs Hg].
    { intros ex' Hin. apply Hall. right. assumption. }
    assert (Hstep : same ty e (expire now e (k, ex))
                    /\ Map_get ty (activePowerUps (expire now e (k, ex)))
                       = Map_get ty (activePowerUps e)).
    { destruct (ex <=? now)%Z eqn:E.
      - apply Z.leb_le in E.
        assert (Hne : ty <> k).
        { intros ->. specialize (Hall ex (or_introl eq_refl)). lia. }
        destruct (expire_due k ex e E) as [Ha _]. rewrite Ha.
        split; [ | apply get_delete_other; assumption ].
        unfold expire. apply Z.leb_le in E. rewrite E.
        destruct ty, k; try reflexivity; congruence.
      - unfold expire. rewrite E.
        split; [ destruct ty; reflexivity | reflexivity ]. }
    destruct Hstep as [Hs1 Hg1]. split; [ | rewrite Hg; exact Hg1 ].
    destruct ty; unfold same in *; congruence.
Qed.
End Expiry.

Lemma updatePowerUps_fold now e :
  activePowerUps (updatePowerUps now e)
  = activePowerUps (fold_left (expire now) (activePowerUps e) e)
  /\ forall ty,
       same ty (fold_left (expire now) (activePowerUps e) e)
               (updatePowerUps now e).
Proof. unfold updatePowerUps. split; [ reflexivity | intros []; reflexivity ]. Qed.
End PowerUpFacts.

Section PowerUps.
Import GameEngine Modifier MapFacts PowerUpFacts.
Variable M : MathLib.
Variables (ty : PowerUpType) (e : GameEngine.t) (w : World).

Let collected := fst (activatePowerUp ty (e, w)).

(** C9 (amended): collecting a pickup of type T records the expiration
    now + 10000 ms for T and applies T's modifier; collecting T again
    overwrites the one recorded expiration, and the active set of a reachable
    engine has at most one entry per type; the expiry step of [update()],
    run at a current time t, takes T's modifier back to baseline and drops
    the entry exactly when t has reached the recorded expiration, and leaves
    both alone before.  The shield flag is also cleared, whatever its
    expiration, by the enemy bullet it absorbs. *)
Theorem C9_power_up_effects :
  (Map_get ty (activePowerUps collected) = Some (clock w 0 + 10000)%Z
   /\ boosted ty collected
   /\ forall ty', ty' <> ty ->
        same ty' e collected
        /\ Map_get ty' (activePowerUps collected) = Map_get ty' (activePowerUps e))
  /\ (forall old, Map_get ty (activePowerUps e) = Some old ->
        List.length (activePowerUps collected) = List.length (activePowerUps e))
  /\ (single (activePowerUps e) -> single (activePowerUps collected))
  /\ (reachable M (e, w) -> single (activePowerUps e))
  /\ (forall t ex,
        single (activePowerUps e) ->
        Map_get ty (activePowerUps e) = Some ex ->
        ((ex <= t)%Z ->
           baseline ty (updatePowerUps t e)
           /\ Map_get ty (activePowerUps (updatePowerUps t e)) = None)
        /\ ((t < ex)%Z ->
              same ty e (updatePowerUps t e)
              /\ Map_get ty (activePowerUps (updatePowerUps t e)) = Some ex))
  /\ (forall bullet i,
        hasShield e = true ->
        Bullet.isPlayerBullet bullet = false ->
        bulletBaseCollision bullet (base e) = true ->
        hasShield (fst (hitBase bullet i (e, w))) = false
        /\ activePowerUps (fst (hitBase bullet i (e, w))) = activePowerUps e).
Proof.
  subst collected.
  split; [ | split; [ | split; [ | split; [ | split ]]]].
  - split; [ | split ].
    + rewrite activate_active. apply get_set_same.
    + apply activate_boosted.
    + intros ty' Hne. split; [ apply activate_others, Hne | ].
      rewrite activate_active. apply get_set_other, Hne.
  - intros old Hold. rewrite activate_active.
    eapply set_overwrites, Hold.
  - intros Hs. rewrite activate_active. apply single_set, Hs.
  - apply (UpdateFacts.reachable_single M (e, w)).
  - intros t ex Hs Hg.
    destruct (updatePowerUps_fold t e) as [Ha Hm]. rewrite Ha.
    split.
    + intros Hex.
      destruct (fold_expire_due t ty ex (activePowerUps e) e
                  (get_In _ _ _ Hg) Hex) as [Hb Hn].
      split; [ | exact Hn ].
      specialize (Hm ty). destruct ty; unfold same, baseline in *; congruence.
    + intros Hex.
      destruct (fold_expire_early t ty (activePowerUps e) e) as [Hsame Hkeep].
      { intros ex' Hin. rewrite (single_In _ _ _ _ Hs Hg Hin). exact Hex. }
      split; [ | congruence ].
      specialize (Hm ty). destruct ty; unfold same in *; congruence.
  - intros bullet i Hsh Hown Hhit. unfold hitBase.
    rewrite Hown, Hhit, Hsh. cbn [negb].
    match goal with |- context [if ?c then _ else _] => destruct c end;
      split; reflexivity.
Qed.
End PowerUps.

(** C9, as stated, fails: a shield recorded to expire at 11000 absorbs an
    enemy bullet in the frame of time 1016, and the shield flag is back at
    its baseline then, ten seconds before the recorded expiration, which
    stays in the active set. *)
Lemma C9_shield_ends_before_expiration :
  GameEngine.hasShield (fst shielded) = true
  /\ Map_get SHIELD (GameEngine.activePowerUps (fst shielded)) = Some 11000%Z
  /\ clock (snd shielded) 0 = 1016%Z
  /\ GameEngine.hasShield (fst (GameEngine.update plainMath shielded)) = false
  /\ Map_get SHIELD
       (GameEngine.activePowerUps (fst (GameEngine.update plainMath shielded)))
     = Some 11000%Z.
Proof. vm_compute. repeat split. Qed.

(** A rapid-fire pickup collected at time 1016 by a new engine is recorded
    to expire at 11016 with the cooldown multiplier at 0.5; the expiry step
    of time 11016 takes the multiplier back to 1. *)
Lemma C9_power_up_effects_witness :
  let got := fst (GameEngine.activatePowerUp RAPID_FIRE builtTick) in
  (Map_get RAPID_FIRE (GameEngine.activePowerUps got) = Some 11016%Z
   /\ GameEngine.shootCooldownMultiplier got = 0.5)
  /\ GameEngine.shootCooldownMultiplier (GameEngine.updatePowerUps 11016 got) = 1.
Proof.
  intros got. split.
  - destruct (C9_power_up_effects plainMath RAPID_FIRE
                (fst builtTick) (snd builtTick)) as ((Hg & Hb & _) & _).
    split; [ exact Hg | exact Hb ].
  - destruct (C9_power_up_effects plainMath RAPID_FIRE got (snd builtTick))
      as (_ & _ & _ & _ & Hexp & _).
    destruct (Hexp 11016%Z 11016%Z) as [Hdue _].
    + repeat constructor. simpl. tauto.
    + reflexivity.
    + apply Hdue. vm_compute. discriminate.
Defined.

(** ** One bullet over several enemies *)

Module SweepFacts.
Import GameEngine Sweep RunFacts.

Lemma assign_at {A} (l1 l2 : list A) (a v : A) :
  assign (List.length l1) v (l1 ++ a :: l2) = l1 ++ v :: l2.
Proof.
  induction l1 as [|x l1 IH]; simpl; [ reflexivity | f_equal; exact IH ].
Qed.

Lemma nth_error_at {A} (l1 l2 : list A) (a : A) :
  nth_error (l1 ++ a :: l2) (List.length l1) = Some a.
Proof. induction l1 as [|x l1 IH]; simpl; auto. Qed.

Lemma splice1_cons {A} (i : nat) (a : A) (l : list A) :
  splice1 (S i) (a :: l) = a :: splice1 i l.
Proof. reflexivity. Qed.

Lemma splice1_iter_cons {A} (i n : nat) (a : A) (l : list A) :
  Nat.iter n (splice1 (S i)) (a :: l) = a :: Nat.iter n (splice1 i) l.
Proof.
  induction n as [|n IH]; [ reflexivity | ].
  rewrite !Nat.iter_succ, IH. apply splice1_cons.
Qed.

Lemma splice1_iter_nil {A} (i n : nat) :
  Nat.iter n (splice1 i) (@nil A) = [].
Proof.
  induction n as [|n IH]; [ reflexivity | ].
  rewrite !Nat.iter_succ, IH. unfold splice1.
  rewrite firstn_nil, skipn_nil. reflexivity.
Qed.

Lemma splice1_iter_head {A} (n : nat) (l : list A) :
  Nat.iter n (splice1 0) l = skipn n l.
Proof.
  induction n as [|n IH]; [ reflexivity | ].
  rewrite !Nat.iter_succ, IH. unfold splice1. cbn [firstn app].
  rewrite skipn_skipn. reflexivity.
Qed.

(** [n] splices at the same index take out the [n] elements from it on. *)
Lemma splice1_iter {A} (i n : nat) : forall l : list A,
  Nat.iter n (splice1 i) l = firstn i l ++ skipn (i + n) l.
Proof.
  induction i as [|i IH]; intros l.
  - apply splice1_iter_head.
  - destruct l as [|a l].
    + rewrite splice1_iter_nil, firstn_nil, skipn_nil. reflexivity.
    + rewrite splice1_iter_cons, IH. reflexivity.
Qed.

Lemma iter_shift {A} (f : A -> A) (n : nat) (x : A) :
  Nat.iter n f (f x) = Nat.iter (S n) f x.
Proof.
  induction n as [|n IH]; [ reflexivity | ].
  rewrite !Nat.iter_succ, IH. reflexivity.
Qed.

Section Inner.
Variable M : MathLib.
Variables (b : Bullet.t) (i : nat).

Lemma hitEnemy_miss en k e w :
  bulletEnemyCollision b en = false -> hitEnemy M b i en k (e, w) = (e, w).
Proof. intros H. unfold hitEnemy. rewrite H. reflexivity. Qed.

Lemma hitEnemy_wound en k e w :
  bulletEnemyCollision b en = true ->
  Enemy.isAlive (Enemy.takeDamage (Bullet.damage b) en) = true ->
  hitEnemy M b i en k (e, w)
  = (set_bullets (splice1 i (bullets e))
       (set_enemies
          (assign k (Enemy.takeDamage (Bullet.damage b) en) (enemies e)) e), w).
Proof. intros H Ha. unfold hitEnemy. rewrite H, Ha. reflexivity. Qed.

Lemma hitEnemy_kill en k e w :
  bulletEnemyCollision b en = true ->
  Enemy.isAlive (Enemy.takeDamage (Bullet.damage b) en) = false ->
  exists e2 w',
    hitEnemy M b i en k (e, w) = (e2, w')
    /\ enemies e2
       = splice1 k (assign k (Enemy.takeDamage (Bullet.damage b) en) (enemies e))
    /\ bullets e2 = splice1 i (bullets e).
Proof.
  intros H Ha. unfold hitEnemy. rewrite H, Ha. cbn [negb].
  match goal with |- context [registerKill M ?x ?j (?e1, ?w1)] =>
    destruct (registerKill_shape M x j e1 w1)
      as (pops & ps & pus & w' & E & _);
    rewrite E
  end.
  eexists _, w'. split; [ reflexivity | split; reflexivity ].
Qed.

Let inner := forEach_from (fun s : Machine => enemies (fst s)) (hitEnemy M b i).

(** The traversal of the enemy array, from any index on. *)
Lemma inner_from n : forall done todo e w,
  enemies e = done ++ todo ->
  (List.length todo <= n)%nat ->
  enemies (fst (inner n (List.length done) (e, w)))
    = done ++ enemiesAfter b todo
  /\ bullets (fst (inner n (List.length done) (e, w)))
     = Nat.iter (hits b todo) (splice1 i) (bullets e).
Proof.
  subst inner. induction n as [|n IH]; intros done todo e w He Hlen.
  - destruct todo; [ | simpl in Hlen; lia ]. simpl. auto.
  - destruct todo as [|en rest].
    + rewrite forEach_from_past
        by (cbn [fst]; rewrite He, length_app; simpl; lia).
      simpl. auto.
    + cbn [forEach_from fst]. rewrite He at 1 2. rewrite nth_error_at.
      cbn [enemiesAfter hits].
      assert (Hnext : forall x, S (List.length done) = List.length (done ++ [x]))
        by (intros x; rewrite length_app, Nat.add_comm; reflexivity).
      destruct (bulletEnemyCollision b en) eqn:Hc.
      * destruct (Enemy.isAlive (Enemy.takeDamage (Bullet.damage b) en)) eqn:Ha.
        -- rewrite hitEnemy_wound by assumption.
           rewrite (Hnext (Enemy.takeDamage (Bullet.damage b) en)).
           match goal with |- context [forEach_from _ _ n _ (?e2, w)] =>
             destruct (IH (done ++ [Enemy.takeDamage (Bullet.damage b) en])
                          rest e2 w) as [IH1 IH2]
           end.
           { cbn. rewrite He, assign_at, <- app_assoc. reflexivity. }
           { simpl in Hlen. lia. }
           rewrite IH1, IH2, <- app_assoc. cbn [bullets set_bullets].
           split; [ reflexivity | apply iter_shift ].
        -- destruct (hitEnemy_kill en (List.length done) e w Hc Ha)
             as (e2 & w' & E & He2 & Hb2).
           rewrite E. rewrite He, assign_at, splice1_at in He2.
           destruct rest as [|passed rest'].
           ++ rewrite forEach_from_past
                by (cbn [fst]; rewrite He2, app_nil_r; lia).
              cbn [fst]. rewrite He2, Hb2. split; reflexivity.
           ++ rewrite (Hnext passed).
              destruct (IH (done ++ [passed]) rest' e2 w') as [IH1 IH2].
              { rewrite He2, <- app_assoc. reflexivity. }
              { simpl in Hlen. lia. }
              rewrite IH1, IH2, Hb2, <- app_assoc.
              split; [ reflexivity | apply iter_shift ].
      * rewrite hitEnemy_miss by assumption. rewrite (Hnext en).
        destruct (IH (done ++ [en]) rest e w) as [IH1 IH2].
        { rewrite He, <- app_assoc. reflexivity. }
        { simpl in Hlen. lia. }
        rewrite IH1, IH2, <- app_assoc. split; reflexivity.
Qed.

(** The whole callback of the bullet traversal, for a player bullet. *)
Lemma playerBullet_sweep e w :
  Bullet.isPlayerBullet b = true ->
  enemies (fst (playerBulletVsEnemies M b i (e, w)))
    = enemiesAfter b (enemies e)
  /\ bullets (fst (playerBulletVsEnemies M b i (e, w)))
     = firstn i (bullets e) ++ skipn (i + hits b (enemies e)) (bullets e).
Proof.
  intros Hp. unfold playerBulletVsEnemies, forEach. rewrite Hp. cbn [fst].
  destruct (inner_from (List.length (enemies e)) [] (enemies e) e w
              eq_refl (le_n _)) as [H1 H2].
  subst inner. cbn [List.length app] in H1, H2.
  split; [ exact H1 | rewrite <- splice1_iter; exact H2 ].
Qed.
End Inner.

(** When nobody dies the traversal is a plain pass over the array. *)
Lemma survivors_sweep b es :
  allSurvive b es ->
  enemiesAfter b es = map (struck b) es
  /\ hits b es = List.length (filter (bulletEnemyCollision b) es).
Proof.
  unfold allSurvive. induction es as [|en rest IH]; intros Hall;
    [ split; reflexivity | ].
  destruct IH as [IH1 IH2]; [ intros x Hx; apply Hall; right; exact Hx | ].
  cbn [enemiesAfter hits map filter]. unfold struck at 1.
  destruct (bulletEnemyCollision b en) eqn:Hc.
  - assert (Ha : Enemy.isAlive (Enemy.takeDamage (Bullet.damage b) en) = true).
    { specialize (Hall en (or_introl eq_refl) Hc).
      unfold Enemy.isAlive. simpl. apply Z.ltb_lt. lia. }
    rewrite Ha. cbn [List.length]. split; congruence.
  - split; congruence.
Qed.
End SweepFacts.

Section SeveralEnemies.
Import GameEngine Sweep SweepFacts.
Variable M : MathLib.
Variables (b : Bullet.t) (i : nat) (e : GameEngine.t) (w : World).

Let after := fst (playerBulletVsEnemies M b i (e, w)).

(** C10 (amended): in the traversal that one player bullet triggers, the
    bullet's damage is applied to every overlapping enemy that the traversal
    visits, and these are all the overlapping enemies when none is killed by
    the hit; an enemy killed by the hit is spliced out of the enemy array on
    the spot, and the enemy behind it, which takes its index, is passed over
    untouched.  The bullet-removal splice at the remembered index runs once
    per damaged enemy, so that the second and later splices remove the
    bullets that followed the bullet in the collection, colliding or not. *)
Theorem C10_bullet_over_several_enemies :
  Bullet.isPlayerBullet b = true ->
  (enemies after = enemiesAfter b (enemies e)
   /\ bullets after
      = firstn i (bullets e) ++ skipn (i + hits b (enemies e)) (bullets e))
  /\ (allSurvive b (enemies e) ->
        enemies after = map (struck b) (enemies e)
        /\ bullets after
           = firstn i (bullets e)
             ++ skipn (i + List.length
                              (filter (bulletEnemyCollision b) (enemies e)))
                      (bullets e)).
Proof.
  intros Hp. subst after.
  destruct (playerBullet_sweep M b i e w Hp) as [H1 H2].
  split; [ split; assumption | ].
  intros Hall. destruct (survivors_sweep b (enemies e) Hall) as [S1 S2].
  rewrite H1, H2, S1, S2. split; reflexivity.
Qed.
End SeveralEnemies.

(** C10, as stated, fails: one player bullet overlaps two living level-2
    enemies of health 20, neighbours in the array.  The first is killed and
    spliced out; the second is never damaged, and the bullet splice runs
    once, so that the other bullet stays. *)
Lemma C10_enemy_behind_a_kill_is_passed_over :
  let b := shotAt 410 310 in
  let after := fst (GameEngine.playerBulletVsEnemies plainMath b 0 twoFrail) in
  (nth_error (GameEngine.bullets (fst twoFrail)) 0 = Some b
   /\ Bullet.isPlayerBullet b = true
   /\ map (bulletEnemyCollision b) (GameEngine.enemies (fst twoFrail))
      = [true; true]
   /\ map Enemy.health (GameEngine.enemies (fst twoFrail)) = [20; 20]%Z)
  /\ map Enemy.health (GameEngine.enemies after) = [20%Z]
  /\ map (fun en => EnemyConfig.type (Enemy.config en)) (GameEngine.enemies after)
     = [OP]
  /\ GameEngine.bullets after = [shotAt 200 50].
Proof. vm_compute. repeat split. Qed.

(** One player bullet over two level-1 enemies of health 30: both are taken
    to 10, and the two splices at index 0 remove the bullet and the bullet
    behind it, which is far from every enemy. *)
Lemma C10_bullet_over_several_enemies_witness :
  let b := shotAt 410 310 in
  let after := fst (GameEngine.playerBulletVsEnemies plainMath b 0
                      (fst twoTough, snd twoTough)) in
  GameEngine.enemies after
    = map (Sweep.struck b) (GameEngine.enemies (fst twoTough))
  /\ GameEngine.bullets after = [].
Proof.
  intros b after.
  destruct (C10_bullet_over_several_enemies plainMath b 0
              (fst twoTough) (snd twoTough) eq_refl) as [_ Hall].
  apply Hall. intros en [<-|[<-|[]]] _; vm_compute; reflexivity.
Defined.

(** The same through a whole [update()]: a third enemy is spawned, the two
    enemies under the bullet are taken to 10, and both player bullets are
    gone, the far one without having touched anything. *)
Lemma update_two_tough :
  let e' := fst (GameEngine.update plainMath twoTough) in
  map Enemy.health (GameEngine.enemies e') = [10; 10; 30]%Z
  /\ GameEngine.bullets e' = []
  /\ GameState.bulletsHit (GameEngine.gameState e') = 0%Z.
Proof. vm_compute. repeat split. Qed.

(** * Further properties of the engine's parts *)

(** ** Draws *)

Lemma Unit01_range (r : Unit01) : 0 <= u01 r /\ u01 r < 1.
Proof.
  pose proof (u01_ok r) as H. apply andb_prop in H. destruct H as [H0 H1].
  split; [ apply Qleb_le, H0 | apply Qltb_lt, H1 ].
Qed.

Lemma floor_index (r : Unit01) (n : nat) :
  (0 < n)%nat ->
  (Z.to_nat (Math_floor (u01 r * inject_Z (Z.of_nat n))) < n)%nat.
Proof.
  intros Hn. destruct (Unit01_range r) as [H0 H1].
  assert (Hpos : 0 < inject_Z (Z.of_nat n)).
  { change 0 with (inject_Z 0). rewrite <- Zlt_Qlt. lia. }
  set (x := u01 r * inject_Z (Z.of_nat n)).
  assert (Hx0 : 0 <= x) by (apply Qmult_le_0_compat; [ exact H0 | lra ]).
  assert (Hx1 : x < inject_Z (Z.of_nat n)).
  { unfold x. setoid_replace (inject_Z (Z.of_nat n))
      with (1 * inject_Z (Z.of_nat n)) at 2 by ring.
    apply Qmult_lt_compat_r; assumption. }
  unfold Math_floor.
  assert (Hf0 : (0 <= Qfloor x)%Z).
  { change 0%Z with (Qfloor 0). apply Qfloor_resp_le, Hx0. }
  assert (Hf1 : (Qfloor x < Z.of_nat n)%Z).
  { rewrite Zlt_Qlt. eapply Qle_lt_trans; [ apply Qfloor_le | exact Hx1 ]. }
  lia.
Qed.

(** [a[Math.floor(Math.random() * a.length)]] is an element of [a] whenever
    [a] is not empty: the index never leaves the array. *)
Lemma pick_In {A} (r : Unit01) (l : list A) (d : A) :
  l <> [] -> In (pick (u01 r) l d) l.
Proof.
  intros Hl. unfold pick. apply nth_In. apply floor_index.
  destruct l; [ congruence | simpl; lia ].
Qed.

(** ** Collision *)

(** X1: The collision test does not depend on the order of its two rectangles,
    and a rectangle overlaps itself exactly when both its sides are
    positive. *)
Theorem rectRectCollision_symmetric
    (pos1 : Position.t) (size1 : Size.t) (pos2 : Position.t) (size2 : Size.t) :
  CollisionDetector.rectRectCollision pos1 size1 pos2 size2
  = CollisionDetector.rectRectCollision pos2 size2 pos1 size1
  /\ (CollisionDetector.rectRectCollision pos1 size1 pos1 size1 = true
      <-> 0 < Size.width size1 /\ 0 < Size.height size1).
Proof.
  split.
  - unfold CollisionDetector.rectRectCollision.
    destruct (Qltb (Position.x pos1) _), (Qltb (Position.x pos2) _),
             (Qltb (Position.y pos1) _), (Qltb (Position.y pos2) _);
      reflexivity.
  - unfold CollisionDetector.rectRectCollision.
    rewrite !andb_true_iff, !Qltb_lt. split.
    + intros [[[H1 _] H2] _]. split; lra.
    + intros [H1 H2]. repeat split; lra.
Qed.

(** ** Damage *)

Section Damage.
Variables (a b : Z).
Hypothesis Ha : (0 <= a)%Z.
Hypothesis Hb : (0 <= b)%Z.

(** X2: Damage adds up under the floor at 0: two hits are one hit of the sum,
    for the player and for an enemy alike; whoever is dead stays dead. *)
Theorem takeDamage_accumulates (p : Base.t) (en : Enemy.t) :
  Base.takeDamage b (Base.takeDamage a p) = Base.takeDamage (a + b) p
  /\ Enemy.takeDamage b (Enemy.takeDamage a en) = Enemy.takeDamage (a + b) en
  /\ (Base.isAlive p = false -> Base.isAlive (Base.takeDamage a p) = false)
  /\ (Enemy.isAlive en = false -> Enemy.isAlive (Enemy.takeDamage a en) = false).
Proof using Ha Hb.
  unfold Base.takeDamage, Enemy.takeDamage, Base.isAlive, Enemy.isAlive,
    Base.set_health, Enemy.set_health.
  cbn. refine (conj _ (conj _ (conj _ _))).
  - f_equal. lia.
  - f_equal. lia.
  - rewrite !Z.ltb_ge. lia.
  - rewrite !Z.ltb_ge. lia.
Qed.
End Damage.

Lemma takeDamage_accumulates_witness :
  Base.takeDamage 10 (Base.takeDamage 5 freshBase) = Base.takeDamage 15 freshBase.
Proof.
  apply (takeDamage_accumulates 5 10 ltac:(lia) ltac:(lia) freshBase
           (enemyAt (EnemyFactory.melee STARKENT "") 0 0)).
Defined.
(** ** Enemies *)

Section EnemyMotion.
Variables (canvasWidth canvasHeight : Q) (e : Enemy.t).
Hypothesis fits : Size.height (Enemy.size e) <= canvasHeight.

(** X3: One step of an enemy leaves it between the top and the bottom edge
    wherever it was before, moves it left by exactly its speed, keeps or
    reverses its vertical direction, and touches nothing else. *)
Theorem Enemy_update_stays_on_screen :
  let e' := Enemy.update canvasWidth canvasHeight e in
  0 <= Position.y (Enemy.position e')
  /\ Position.y (Enemy.position e')
     <= canvasHeight - Size.height (Enemy.size e')
  /\ Position.x (Enemy.position e')
     = Position.x (Enemy.position e) - Enemy.speed e
  /\ (Enemy.verticalDirection e' = Enemy.verticalDirection e
      \/ Enemy.verticalDirection e' = Enemy.verticalDirection e * -1)
  /\ Enemy.size e' = Enemy.size e
  /\ Enemy.health e' = Enemy.health e
  /\ Enemy.maxHealth e' = Enemy.maxHealth e
  /\ Enemy.speed e' = Enemy.speed e
  /\ Enemy.config e' = Enemy.config e
  /\ Enemy.lastShotTime e' = Enemy.lastShotTime e.
Proof using fits.
  unfold Enemy.update.
  destruct (Qleb _ 0 || Qleb _ _); cbn;
    (refine (conj _ (conj _ (conj _ (conj _ _))));
     [ apply Q.le_max_l
     | apply Q.max_lub; [ lra | apply Q.le_min_l ]
     | reflexivity
     | auto
     | repeat split ]).
Qed.
End EnemyMotion.

Lemma Enemy_update_stays_on_screen_witness :
  0 <= Position.y
         (Enemy.position
            (Enemy.update 800 600
               (enemyAt (EnemyFactory.melee STARKENT "") 100 (-40)))).
Proof.
  apply (Enemy_update_stays_on_screen 800 600
           (enemyAt (EnemyFactory.melee STARKENT "") 100 (-40))).
  cbn. lra.
Defined.

Section EnemyFire.
Variable M : MathLib.

Lemma Enemy_shoot_refused (p : Position.t) (e : Enemy.t) (w : World) :
  Enemy.canShoot (fst (Date_now w)) e = false ->
  Enemy.shoot M p e w = ([], e, snd (Date_now w)).
Proof.
  intros H. unfold Enemy.shoot. destruct (Date_now w) as [now w'].
  cbn [fst snd] in *. rewrite H. reflexivity.
Qed.

Lemma Enemy_shoot_fired (p : Position.t) (e : Enemy.t) (w : World) :
  Enemy.canShoot (fst (Date_now w)) e = true ->
  exists bs,
    Enemy.shoot M p e w
    = (bs, Enemy.set_lastShotTime (fst (Date_now w)) e, snd (Date_now w))
    /\ (List.length bs = 1 \/ List.length bs = 2)%nat
    /\ Forall (fun b => Bullet.isPlayerBullet b = false
                        /\ Bullet.damage b = 10%Z) bs.
Proof.
  intros H. unfold Enemy.shoot. destruct (Date_now w) as [now w'].
  cbn [fst snd] in *. rewrite H. cbn [negb].
  match goal with |- context [if (?c =? 2)%Z then _ else _] =>
    destruct (c =? 2)%Z end;
    eexists; (split; [ reflexivity | ]); split; cbn; auto.
Qed.

(** X4: An enemy that may fire at the current time fires one or two bullets,
    all of them enemy bullets of damage 10, and records the time; asked
    again before its interval has passed it fires nothing and is not
    changed.  An enemy that may not fire returns nothing and stays as it
    is. *)
Theorem Enemy_shoot_rate_limit (p : Position.t) (e : Enemy.t) (w : World) :
  let now := fst (Date_now w) in
  let bs := fst (fst (Enemy.shoot M p e w)) in
  let e' := snd (fst (Enemy.shoot M p e w)) in
  if Enemy.canShoot now e
  then (List.length bs = 1 \/ List.length bs = 2)%nat
       /\ Forall (fun b => Bullet.isPlayerBullet b = false
                           /\ Bullet.damage b = 10%Z) bs
       /\ Enemy.lastShotTime e' = now
       /\ forall (p2 : Position.t) (w2 : World),
            (fst (Date_now w2) - now
             < EnemyConfig.shootInterval (Enemy.config e))%Z ->
            fst (Enemy.shoot M p2 e' w2) = ([], e')
  else bs = [] /\ e' = e.
Proof.
  cbv zeta. destruct (Enemy.canShoot (fst (Date_now w)) e) eqn:Hc.
  - destruct (Enemy_shoot_fired p e w Hc) as (bs & -> & Hlen & Hall).
    cbn [fst snd]. refine (conj Hlen (conj Hall (conj eq_refl _))).
    intros p2 w2 Hsoon. rewrite Enemy_shoot_refused; [ reflexivity | ].
    unfold Enemy.canShoot. cbn.
    apply andb_false_iff. right. apply Z.leb_gt. exact Hsoon.
  - rewrite (Enemy_shoot_refused p e w Hc). cbn. auto.
Qed.
End EnemyFire.
Lemma Enemy_shoot_rate_limit_witness :
  fst (Enemy.shoot plainMath (Base.getCenter freshBase)
         (snd (fst (Enemy.shoot plainMath (Base.getCenter freshBase)
                      (enemyAt (EnemyFactory.gunner LINEA "") 400 300)
                      tickWorld)))
         tickWorld)
  = ([], snd (fst (Enemy.shoot plainMath (Base.getCenter freshBase)
                     (enemyAt (EnemyFactory.gunner LINEA "") 400 300)
                     tickWorld))).
Proof.
  pose proof (Enemy_shoot_rate_limit plainMath (Base.getCenter freshBase)
                (enemyAt (EnemyFactory.gunner LINEA "") 400 300) tickWorld)
    as H.
  cbv zeta in H.
  assert (Hc : Enemy.canShoot (fst (Date_now tickWorld))
                 (enemyAt (EnemyFactory.gunner LINEA "") 400 300) = true)
    by reflexivity.
  rewrite Hc in H. destruct H as (_ & _ & _ & H).
  apply H. vm_compute. reflexivity.
Defined.

(** ** The player's shot *)

Module ShootFacts.
Import GameState GameEngine.

Lemma fan_length (c : Position.t) (count : Z) (n : nat) (i : Z) :
  List.length (fan c count n i) = n.
Proof.
  revert i. induction n as [|n IH]; intros i; cbn; [ reflexivity | ].
  now rewrite IH.
Qed.

Lemma fan_nth (c : Position.t) (count : Z) (d : Bullet.t) (n k : nat) (i : Z) :
  (k < n)%nat ->
  nth k (fan c count n i) d
  = playerBullet c
      ((inject_Z (i + Z.of_nat k) - (inject_Z count - 1) / 2) * 0.3 * 8).
Proof.
  revert k i. induction n as [|n IH]; intros k i Hk; [ lia | ].
  destruct k as [|k].
  - cbn [fan nth]. cbv zeta. now rewrite Z.add_0_r.
  - cbn [fan nth]. rewrite IH by lia.
    replace (i + 1 + Z.of_nat k)%Z with (i + Z.of_nat (S k))%Z by lia.
    reflexivity.
Qed.

Lemma fan_all (c : Position.t) (count : Z) (n : nat) (i : Z) :
  Forall (fun b => exists vy, b = playerBullet c vy) (fan c count n i).
Proof.
  revert i. induction n as [|n IH]; intros i; cbn; constructor; eauto.
Qed.

Lemma shoot_bullets (e : t) :
  bullets (shoot e) = bullets e ++ fired e.
Proof.
  unfold fired, shoot.
  destruct (1 <? multiShotCount e)%Z; cbn;
    now rewrite skipn_app, skipn_all, Nat.sub_diag.
Qed.

Lemma fired_eq (e : t) :
  fired e
  = if (1 <? multiShotCount e)%Z
    then fan (Base.getCenter (base e)) (multiShotCount e)
             (Z.to_nat (multiShotCount e)) 0
    else [playerBullet (Base.getCenter (base e)) 0].
Proof.
  unfold fired, shoot.
  destruct (1 <? multiShotCount e)%Z; cbn;
    now rewrite skipn_app, skipn_all, Nat.sub_diag.
Qed.

Lemma shoot_counts (e : t) :
  bulletsShot (gameState (shoot e)) = (bulletsShot (gameState e) + 1)%Z.
Proof. unfold shoot. destruct (1 <? multiShotCount e)%Z; reflexivity. Qed.

(** X5: A call of [shoot] keeps the bullets in flight and adds, behind them,
    [multiShotCount] bullets when that count exceeds 1 and one bullet
    otherwise.  Every added bullet is a player bullet of damage 20 leaving
    the player's centre at horizontal speed 8; the vertical speeds of the
    k-th bullet from the top and the k-th from the bottom cancel, so the fan
    is symmetric about the horizontal; and the shot counter grows by one
    whatever the number of bullets. *)
Theorem shoot_fan (e : t) (d : Bullet.t) :
  let n := if (1 <? multiShotCount e)%Z
           then Z.to_nat (multiShotCount e) else 1%nat in
  bullets (shoot e) = bullets e ++ fired e
  /\ List.length (fired e) = n
  /\ Forall (fun b => exists vy,
               b = playerBullet (Base.getCenter (base e)) vy) (fired e)
  /\ (forall k, (k < n)%nat ->
        Bullet.vy (nth k (fired e) d)
        + Bullet.vy (nth (n - 1 - k) (fired e) d) == 0)
  /\ bulletsShot (gameState (shoot e)) = (bulletsShot (gameState e) + 1)%Z.
Proof.
  cbv zeta. split; [ apply shoot_bullets | ].
  rewrite fired_eq.
  destruct (1 <? multiShotCount e)%Z eqn:Hm.
  - apply Z.ltb_lt in Hm.
    refine (conj (fan_length _ _ _ _) (conj (fan_all _ _ _ _) (conj _ _))).
    + intros k Hk. rewrite !fan_nth by lia. cbn [Bullet.vy playerBullet].
      rewrite Nat2Z.inj_sub, Nat2Z.inj_sub by lia.
      rewrite Z2Nat.id by lia. rewrite !Z.add_0_l.
      change (Z.of_nat 1) with 1%Z.
      unfold Z.sub. rewrite !inject_Z_plus, !inject_Z_opp.
      change (inject_Z 1) with 1. field.
    + apply shoot_counts.
  - refine (conj eq_refl (conj _ (conj _ _))).
    + constructor; eauto.
    + intros k Hk. assert (k = 0%nat) as -> by lia. cbn. reflexivity.
    + apply shoot_counts.
Qed.
End ShootFacts.

(** ** Spawning *)

Module SpawnFacts.
Import GameState GameEngine.

(** What the table of configurations holds for a level. *)
Lemma enemyConfigs_entry (lvl : Z) (cs : list EnemyConfig.t) (c : EnemyConfig.t) :
  EnemyFactory.enemyConfigs lvl = Some cs -> In c cs ->
  (1 <= lvl <= 3)%Z
  /\ cs <> []
  /\ EnemyConfig.level c = lvl
  /\ EnemyConfig.canShoot c = negb (lvl =? 1)%Z
  /\ (0 < EnemyConfig.health c <= 100)%Z
  /\ (EnemyConfig.canShoot c = true -> (500 <= EnemyConfig.shootInterval c)%Z)
  /\ 0 < EnemyConfig.speed c
  /\ 0 < EnemyConfig.width c
  /\ 0 < EnemyConfig.height c <= 70.
Proof.
  unfold EnemyFactory.enemyConfigs.
  destruct (lvl =? 1)%Z eqn:H1; [ apply Z.eqb_eq in H1 | ].
  2: destruct (lvl =? 2)%Z eqn:H2; [ apply Z.eqb_eq in H2 | ].
  3: destruct (lvl =? 3)%Z eqn:H3; [ apply Z.eqb_eq in H3 | discriminate ].
  all: intros [= <-] Hin; cbn in Hin;
    repeat (destruct Hin as [<- | Hin]); try contradiction; subst lvl;
    cbn; repeat split; try lia; try lra; try discriminate.
Qed.

Lemma enemyConfigs_level (lvl : Z) :
  (1 <= lvl <= 3)%Z ->
  exists c cs, EnemyFactory.enemyConfigs lvl = Some (c :: cs).
Proof.
  intros H. assert (lvl = 1 \/ lvl = 2 \/ lvl = 3)%Z as [-> | [-> | ->]] by lia;
    cbn; eauto.
Qed.

Lemma enemyConfigs_none (lvl : Z) :
  EnemyFactory.enemyConfigs lvl = None -> ~ (1 <= lvl <= 3)%Z.
Proof.
  intros H Hl. destruct (enemyConfigs_level lvl Hl) as (c & cs & E).
  congruence.
Qed.

(** The enemy the constructor builds from a configuration and a draw. *)
Lemma Enemy_new_shape (c : EnemyConfig.t) (W H : Q) (w : World) :
  let en := fst (Enemy.new c W H w) in
  Enemy.config en = c
  /\ Enemy.health en = EnemyConfig.health c
  /\ Enemy.maxHealth en = EnemyConfig.health c
  /\ Enemy.speed en = EnemyConfig.speed c
  /\ Enemy.size en = {| Size.width := EnemyConfig.width c;
                        Size.height := EnemyConfig.height c |}
  /\ Enemy.lastShotTime en = 0%Z
  /\ Enemy.verticalDirection en = 1
  /\ Position.x (Enemy.position en) = W
  /\ (EnemyConfig.height c <= H ->
      0 <= Position.y (Enemy.position en)
      /\ Position.y (Enemy.position en) <= H - EnemyConfig.height c).
Proof.
  cbv zeta. unfold Enemy.new, Math_random. cbn.
  do 8 (split; [ reflexivity | ]).
  intros Hfit. destruct (Unit01_range (random w 0%nat)) as [R0 R1].
  assert (Hd : 0 <= H - EnemyConfig.height c) by lra.
  split.
  - apply Qmult_le_0_compat; [ exact R0 | lra ].
  - setoid_replace (H - EnemyConfig.height c)
      with (1 * (H - EnemyConfig.height c)) at 2 by ring.
    apply Qmult_le_compat_r; [ lra | exact Hd ].
Qed.

(** The factory's two outcomes. *)
Lemma createRandomEnemy_cases (lvl : Z) (W H : Q) (w : World) :
  match EnemyFactory.createRandomEnemy lvl W H w with
  | (Some en, _) =>
      exists c cs w1,
        EnemyFactory.enemyConfigs lvl = Some cs /\ In c cs
        /\ en = fst (Enemy.new c W H w1)
  | (None, w') => ~ (1 <= lvl <= 3)%Z /\ w' = w
  end.
Proof.
  unfold EnemyFactory.createRandomEnemy.
  destruct (EnemyFactory.enemyConfigs lvl) as [[|c cs]|] eqn:E.
  - destruct lvl as [|[[|[]|]|[]|]|]; discriminate E.
  - destruct (Math_random w) as [r w1] eqn:Er.
    assert (Hin : In (pick r (c :: cs) c) (c :: cs)).
    { unfold Math_random in Er. injection Er as <- _.
      apply pick_In. discriminate. }
    destruct (Enemy.new (pick r (c :: cs) c) W H w1) as [en w2] eqn:En.
    exists (pick r (c :: cs) c), (c :: cs), w1.
    rewrite En. auto.
  - split; [ apply enemyConfigs_none, E | reflexivity ].
Qed.

(** X6: [createRandomEnemy] returns an enemy exactly for the levels 1, 2 and 3,
    and [null] without drawing for any other level.  The enemy's
    configuration is one of the requested level's; it starts at full health
    on the right edge, heading down, with a height between the top edge and
    the lowest place at which it fits. *)
Theorem createRandomEnemy_of_level (lvl : Z) (W H : Q) (w : World) :
  match EnemyFactory.createRandomEnemy lvl W H w with
  | (Some en, _) =>
      (1 <= lvl <= 3)%Z
      /\ (exists cs, EnemyFactory.enemyConfigs lvl = Some cs
                     /\ In (Enemy.config en) cs)
      /\ EnemyConfig.level (Enemy.config en) = lvl
      /\ Enemy.health en = EnemyConfig.health (Enemy.config en)
      /\ Enemy.maxHealth en = EnemyConfig.health (Enemy.config en)
      /\ Enemy.speed en = EnemyConfig.speed (Enemy.config en)
      /\ Enemy.size en
         = {| Size.width := EnemyConfig.width (Enemy.config en);
              Size.height := EnemyConfig.height (Enemy.config en) |}
      /\ Enemy.lastShotTime en = 0%Z
      /\ Enemy.verticalDirection en = 1
      /\ Position.x (Enemy.position en) = W
      /\ (70 <= H ->
          0 <= Position.y (Enemy.position en)
          /\ Position.y (Enemy.position en)
             <= H - Size.height (Enemy.size en))
  | (None, w') => ~ (1 <= lvl <= 3)%Z /\ w' = w
  end.
Proof.
  pose proof (createRandomEnemy_cases lvl W H w) as C.
  destruct (EnemyFactory.createRandomEnemy lvl W H w) as [[en|] w'];
    [ | exact C ].
  destruct C as (c & cs & w1 & E & Hin & ->).
  destruct (Enemy_new_shape c W H w1)
    as (S1 & S2 & S3 & S4 & S5 & S6 & S7 & S8 & S9).
  destruct (enemyConfigs_entry lvl _ _ E Hin)
    as (L & _ & Lc & _ & _ & _ & _ & _ & Hh).
  rewrite S1.
  refine (conj L (conj _ (conj Lc (conj S2 (conj S3 (conj S4
            (conj S5 (conj S6 (conj S7 (conj S8 _)))))))))).
  - exists cs. split; [ exact E | exact Hin ].
  - intros HH. rewrite S5. cbn [Size.height]. apply S9. lra.
Qed.

Lemma spawnEnemies_idle (now : Z) (e : t) (w : World) :
  (now - lastSpawnTime e < spawnInterval e)%Z ->
  spawnEnemies now (e, w) = (e, w).
Proof.
  intros H. unfold spawnEnemies.
  apply Z.leb_gt in H. now rewrite H.
Qed.

Lemma spawnEnemies_due (now : Z) (e : t) (w : World) :
  (spawnInterval e <= now - lastSpawnTime e)%Z ->
  spawnEnemies now (e, w)
  = (set_spawnInterval
       (Z.max 500 (1500 - (level (gameState e) - 1) * 150))
       (set_lastSpawnTime now
          (match fst (EnemyFactory.createRandomEnemy (level (gameState e))
                        (canvasWidth e) (canvasHeight e) w) with
           | Some enemy => set_enemies (enemies e ++ [enemy]) e
           | None => e
           end)),
     snd (EnemyFactory.createRandomEnemy (level (gameState e))
            (canvasWidth e) (canvasHeight e) w)).
Proof.
  intros H. unfold spawnEnemies. apply Z.leb_le in H. rewrite H.
  destruct (EnemyFactory.createRandomEnemy _ _ _ w) as [[en|] w1];
    reflexivity.
Qed.

Section Cadence.
Variables (now : Z) (e : t) (w : World).
Hypothesis playable : (1 <= level (gameState e) <= 3)%Z.

(** X7: Within the three levels, a call of [spawnEnemies] whose interval has
    passed appends exactly one enemy of the current level, records the
    time, and sets the next interval to 1500, 1350 or 1200 ms for level 1,
    2 or 3; no call within that interval adds anything.  A call whose
    interval has not passed changes nothing. *)
Theorem spawnEnemies_cadence :
  let e' := fst (spawnEnemies now (e, w)) in
  if (spawnInterval e <=? now - lastSpawnTime e)%Z
  then (exists en, enemies e' = enemies e ++ [en]
                   /\ EnemyConfig.level (Enemy.config en)
                      = level (gameState e))
       /\ lastSpawnTime e' = now
       /\ spawnInterval e' = (1650 - 150 * level (gameState e))%Z
       /\ gameState e' = gameState e
       /\ forall (t : Z) (w2 : World),
            (t - now < 1650 - 150 * level (gameState e))%Z ->
            spawnEnemies t (e', w2) = (e', w2)
  else spawnEnemies now (e, w) = (e, w).
Proof using playable.
  cbv zeta. destruct (spawnInterval e <=? now - lastSpawnTime e)%Z eqn:Hd.
  - apply Z.leb_le in Hd. rewrite (spawnEnemies_due now e w Hd). cbn [fst].
    pose proof (createRandomEnemy_cases (level (gameState e))
                  (canvasWidth e) (canvasHeight e) w) as C.
    destruct (EnemyFactory.createRandomEnemy _ _ _ w) as [[en|] w1];
      cbn [fst snd].
    + destruct C as (c & cs & w0 & E & Hin & Een).
      destruct (enemyConfigs_entry _ _ _ E Hin) as (_ & _ & Lc & _).
      destruct (Enemy_new_shape c (canvasWidth e) (canvasHeight e) w0)
        as (S1 & _). rewrite <- S1, <- Een in Lc.
      assert (Hi : (Z.max 500 (1500 - (level (gameState e) - 1) * 150)
                    = 1650 - 150 * level (gameState e))%Z) by lia.
      refine (conj _ (conj eq_refl (conj Hi (conj eq_refl _)))).
      * exists en. split; [ reflexivity | exact Lc ].
      * intros t w2 Ht. apply spawnEnemies_idle.
        unfold set_spawnInterval, set_lastSpawnTime.
        cbn [spawnInterval lastSpawnTime]. lia.
    + destruct C as [C _]. contradiction.
  - apply spawnEnemies_idle. apply Z.leb_gt, Hd.
Qed.
End Cadence.

Lemma spawnEnemies_cadence_witness :
  lastSpawnTime (fst (spawnEnemies 5000 builtTick)) = 5000%Z.
Proof.
  pose proof (spawnEnemies_cadence 5000 (fst builtTick) (snd builtTick)
                ltac:(cbn; lia)) as H.
  cbv zeta in H.
  assert (Hd : (spawnInterval (fst builtTick)
                <=? 5000 - lastSpawnTime (fst builtTick))%Z = true)
    by reflexivity.
  rewrite Hd in H. destruct H as (_ & H & _). exact H.
Defined.
End SpawnFacts.

(** ** Pickups on the field *)

Module PickupFacts.
Import GameState GameEngine.

Lemma expire_powerUps (t : Z) (e : GameEngine.t) (entry : PowerUpType * Z) :
  powerUps (expire t e entry) = powerUps e.
Proof.
  unfold expire. destruct entry as [ty ex].
  destruct (ex <=? t)%Z; [ destruct ty | ]; reflexivity.
Qed.

Lemma fold_expire_powerUps (t : Z) (m : ActiveMap) (e : GameEngine.t) :
  powerUps (fold_left (expire t) m e) = powerUps e.
Proof.
  revert e. induction m as [|entry m IH]; intros e; [ reflexivity | ].
  cbn [fold_left]. rewrite IH. apply expire_powerUps.
Qed.

Lemma updatePowerUps_powerUps (t : Z) (e : GameEngine.t) :
  powerUps (updatePowerUps t e)
  = filter onField (map agePowerUp (powerUps e)).
Proof.
  unfold updatePowerUps. cbn [powerUps set_powerUps].
  now rewrite fold_expire_powerUps.
Qed.

Lemma iter_age_fields (n : nat) (p : PowerUp.t) :
  PowerUp.lifetime (Nat.iter n agePowerUp p)
  == PowerUp.lifetime p + 16 * inject_Z (Z.of_nat n)
  /\ PowerUp.maxLifetime (Nat.iter n agePowerUp p) = PowerUp.maxLifetime p
  /\ PowerUp.type (Nat.iter n agePowerUp p) = PowerUp.type p
  /\ PowerUp.x (Nat.iter n agePowerUp p) = PowerUp.x p
  /\ PowerUp.y (Nat.iter n agePowerUp p) = PowerUp.y p.
Proof.
  induction n as [|n (IH1 & IH2 & IH3 & IH4 & IH5)].
  - cbn. repeat split; ring.
  - rewrite Nat.iter_succ. cbn [agePowerUp PowerUp.lifetime
      PowerUp.maxLifetime PowerUp.type PowerUp.x PowerUp.y].
    refine (conj _ (conj IH2 (conj IH3 (conj IH4 IH5)))).
    rewrite IH1, Nat2Z.inj_succ. unfold Z.succ. rewrite inject_Z_plus.
    change (inject_Z 1) with 1. ring.
Qed.

Lemma onField_age (p : PowerUp.t) :
  onField (agePowerUp p) = true -> onField p = true.
Proof.
  unfold onField. cbn. rewrite !Qltb_lt. lra.
Qed.

Lemma age_filter (n : nat) (l : list PowerUp.t) :
  filter onField (map agePowerUp
                    (filter onField (map (Nat.iter n agePowerUp) l)))
  = filter onField (map (Nat.iter (S n) agePowerUp) l).
Proof.
  induction l as [|p l IH]; [ reflexivity | ].
  cbn [map filter]. rewrite <- IH.
  destruct (onField (Nat.iter n agePowerUp p)) eqn:Hn.
  - reflexivity.
  - cbn [Nat.iter nat_rect] in *.
    destruct (onField (agePowerUp _)) eqn:Hs; [ | reflexivity ].
    apply onField_age in Hs. unfold Nat.iter in Hn. congruence.
Qed.

Lemma updatePowerUps_run (t : Z) (ts : list Z) (e : GameEngine.t) :
  powerUps (fold_left (fun e t => updatePowerUps t e) (t :: ts) e)
  = filter onField
      (map (Nat.iter (List.length (t :: ts)) agePowerUp) (powerUps e)).
Proof.
  cbn [fold_left List.length].
  induction ts as [|t' ts IH] using rev_ind.
  - cbn [fold_left List.length]. apply updatePowerUps_powerUps.
  - rewrite fold_left_app. cbn [fold_left].
    rewrite updatePowerUps_powerUps, IH, age_filter.
    rewrite length_app. cbn [List.length].
    now rewrite Nat.add_1_r.
Qed.

(** X8: Over one or more calls of [updatePowerUps], at whatever times, the
    pickups on the field are those of the start that are still short of
    their maximal lifetime after 16 ms per call, in their order and each
    aged by that much; none is added and none comes back.  A new pickup,
    good for 10000 ms, thus outlasts 624 calls and not 625. *)
Theorem pickups_age_out (t : Z) (ts : list Z) (e : GameEngine.t) :
  let n := List.length (t :: ts) in
  let e' := fold_left (fun e t => updatePowerUps t e) (t :: ts) e in
  powerUps e' = filter onField (map (Nat.iter n agePowerUp) (powerUps e))
  /\ (forall p,
        PowerUp.lifetime (Nat.iter n agePowerUp p)
        == PowerUp.lifetime p + 16 * inject_Z (Z.of_nat n)
        /\ PowerUp.maxLifetime (Nat.iter n agePowerUp p)
           = PowerUp.maxLifetime p
        /\ PowerUp.type (Nat.iter n agePowerUp p) = PowerUp.type p)
  /\ (forall p, PowerUp.lifetime p = 0 -> PowerUp.maxLifetime p = 10000 ->
        onField (Nat.iter n agePowerUp p) = true <-> (n <= 624)%nat).
Proof.
  cbv zeta. split; [ apply updatePowerUps_run | split ].
  - intros p. destruct (iter_age_fields (List.length (t :: ts)) p)
      as (H1 & H2 & H3 & _). auto.
  - intros p Hl Hm. set (n := List.length (t :: ts)).
    destruct (iter_age_fields n p) as (H1 & H2 & _).
    unfold onField. rewrite Qltb_lt, H1, H2, Hl, Hm.
    assert (E : 0 + 16 * inject_Z (Z.of_nat n)
                == inject_Z (16 * Z.of_nat n)).
    { rewrite inject_Z_mult. change (inject_Z 16) with 16. ring. }
    rewrite E. change 10000 with (inject_Z 10000).
    rewrite <- Zlt_Qlt. lia.
Qed.
End PickupFacts.

(** ** What a kill leaves on the screen *)

Module KillFacts.
Import GameState GameEngine.

Section Visuals.
Variable M : MathLib.

#[local] Arguments explosion : simpl never.
#[local] Arguments scoreKill : simpl never.

Lemma set_particles_twice (ps qs : list Particle.t) (e : GameEngine.t) :
  set_particles ps (set_particles qs e) = set_particles ps e.
Proof. reflexivity. Qed.

Lemma explosion_adds (c : Position.t) (n : nat) :
  forall (i : Z) (e : GameEngine.t) (w : World),
  exists ps w',
    explosion M c n i (e, w) = (set_particles (particles e ++ ps) e, w')
    /\ List.length ps = n
    /\ Forall (sparkAt c) ps.
Proof.
  induction n as [|n IH]; intros i e w.
  - exists [], w. rewrite app_nil_r.
    split; [ destruct e; reflexivity | split; [ reflexivity | constructor ] ].
  - unfold explosion; fold (explosion M). cbn [Math_random].
    match goal with |- context [explosion M c n ?j (?e1, ?w1)] =>
      destruct (IH j e1 w1) as (ps & w' & E & Hl & Hall); rewrite E end.
    cbn [particles set_particles].
    eexists (_ :: ps), w'. rewrite <- app_assoc. cbn [app].
    split; [ reflexivity | ]. split; [ cbn; now rewrite Hl | ].
    constructor; [ | exact Hall ].
    destruct (Unit01_range (random w 1%nat)) as [A0 A1].
    destruct (Unit01_range (random w 3%nat)) as [B0 B1].
    unfold sparkAt. cbn. repeat split; lra.
Qed.

Lemma spawnPowerUp_adds (c : Position.t) (e : GameEngine.t) (w : World) :
  exists p,
    fst (spawnPowerUp (Position.x c) (Position.y c) (e, w))
    = set_powerUps (powerUps e ++ [p]) e
    /\ dropAt c p.
Proof.
  unfold spawnPowerUp. cbn [Math_random fst].
  eexists. split; [ reflexivity | ]. unfold dropAt. cbn. repeat split.
Qed.

(** X9: A kill shows one popup at the enemy's centre carrying the points just
    added to the score, throws exactly 15 particles from that centre, each
    new, lasting between 500 and 1000 ms and of size between 3 and 7, drops
    at most one pickup there, new and good for 10000 ms, and takes the enemy
    at the given index out of the collection.  Popups, particles and
    pickups already on the screen stay, in their order; the player and the
    bullets are not touched. *)
Theorem kill_shows (en : Enemy.t) (k : nat) (e : GameEngine.t) (w : World) :
  let e' := fst (registerKill M en k (e, w)) in
  let c := Enemy.getCenter en in
  (exists popup,
     scorePopups e' = scorePopups e ++ [popup]
     /\ ScorePopup.x popup = Position.x c
     /\ ScorePopup.y popup = Position.y c
     /\ ScorePopup.lifetime popup = 0
     /\ ScorePopup.maxLifetime popup = 1000
     /\ score (gameState e')
        = (score (gameState e) + ScorePopup.value popup)%Z)
  /\ (exists ps, particles e' = particles e ++ ps
                 /\ List.length ps = 15%nat
                 /\ Forall (sparkAt c) ps)
  /\ (powerUps e' = powerUps e
      \/ exists p, powerUps e' = powerUps e ++ [p] /\ dropAt c p)
  /\ enemies e' = splice1 k (enemies e)
  /\ bullets e' = bullets e
  /\ base e' = base e.
Proof.
  cbv zeta. unfold registerKill. cbn [Date_now].
  pose proof (RunFacts.scoreKill_kill_at (clock w 0) (gameState e)) as K.
  pose proof (RunFacts.scoreKill_points (clock w 0) (gameState e)) as P.
  destruct (scoreKill (clock w 0) (gameState e)) as [g' pts].
  cbn [fst snd] in K, P.
  destruct K as (_ & Ks & _).
  match goal with |- context [explosion M ?c ?n ?i (?e1, ?w1)] =>
    destruct (explosion_adds c n i e1 w1) as (ps & w2 & E & Hl & Hall);
    rewrite E
  end.
  cbn [Math_random].
  destruct (Qltb (u01 (random w2 0)) 0.1).
  - match goal with |- context [spawnPowerUp _ _ (?e1, ?w1)] =>
      destruct (spawnPowerUp_adds (Enemy.getCenter en) e1 w1)
        as (p & Ep & Hp);
      destruct (spawnPowerUp (Position.x (Enemy.getCenter en))
                  (Position.y (Enemy.getCenter en)) (e1, w1)) as [e2 w3]
    end.
    cbn [fst] in Ep |- *. subst e2. cbn.
    refine (conj _ (conj _ (conj _ (conj eq_refl (conj eq_refl eq_refl))))).
    + eexists. split; [ reflexivity | ]. cbn.
      repeat split. rewrite Ks, P. reflexivity.
    + exists ps. auto.
    + right. exists p. auto.
  - cbn.
    refine (conj _ (conj _ (conj _ (conj eq_refl (conj eq_refl eq_refl))))).
    + eexists. split; [ reflexivity | ]. cbn.
      repeat split. rewrite Ks, P. reflexivity.
    + exists ps. auto.
    + left. reflexivity.
Qed.
End Visuals.
End KillFacts.

(** * Invariants of the running engine *)

(** A property of the engine that every statement of [update] and every
    entry point the page calls preserves holds in every state an engine can
    reach.  The statements are listed once, here; each invariant below
    supplies its own preservation facts. *)

Module PassFacts.
Import GameState GameEngine.

Section Pass.
Variable M : MathLib.
Variable P : GameEngine.t -> Prop.
(** What the invariant tells about a bullet in flight; the traversal of the
    enemies for one bullet goes on with that bullet after it has left the
    array. *)
Variable Q : Bullet.t -> Prop.

Hypothesis P_bullet : forall e b, P e -> In b (bullets e) -> Q b.
Hypothesis P_spawn : forall now e w, P e -> P (fst (spawnEnemies now (e, w))).
Hypothesis P_enemy : forall now en k e w,
  nth_error (enemies e) k = Some en ->
  P e -> P (fst (updateEnemy M now en k (e, w))).
Hypothesis P_move : forall e, P e -> P (set_bullets (map moveBullet (bullets e)) e).
Hypothesis P_combo : forall e w, P e -> P (fst (updateCombo (e, w))).
Hypothesis P_popups : forall l e, P e -> P (set_scorePopups l e).
Hypothesis P_particles : forall l e, P e -> P (set_particles l e).
Hypothesis P_bullets_filter : forall f e,
  P e -> P (set_bullets (filter f (bullets e)) e).
Hypothesis P_enemies_filter : forall f e,
  P e -> P (set_enemies (filter f (enemies e)) e).
Hypothesis P_hit : forall b kb en ke e w,
  Q b -> Bullet.isPlayerBullet b = true ->
  nth_error (enemies e) ke = Some en ->
  P e -> P (fst (hitEnemy M b kb en ke (e, w))).
Hypothesis P_base : forall b k e w,
  nth_error (bullets e) k = Some b ->
  P e -> P (fst (hitBase b k (e, w))).
Hypothesis P_powerUps : forall now e, P e -> P (updatePowerUps now e).
Hypothesis P_collect : forall p k e w, P e -> P (fst (collect M p k (e, w))).
Hypothesis P_periodic : forall now e w,
  P e -> P (fst (periodicPowerUp now (e, w))).
Hypothesis P_mirror : forall e,
  P e ->
  P (set_gameState (set_playerHealth (Base.health (base e)) (gameState e)) e).

Let PM (s : Machine) : Prop := P (fst s).

Lemma playerBulletVsEnemies_inv (b : Bullet.t) (k : nat) (s : Machine) :
  nth_error (bullets (fst s)) k = Some b ->
  PM s -> PM (playerBulletVsEnemies M b k s).
Proof using P_bullet P_hit.
  intros Hb Hs. unfold playerBulletVsEnemies.
  destruct (Bullet.isPlayerBullet b) eqn:Hp; [ | exact Hs ].
  assert (Hq : Q b) by (eapply P_bullet; [ exact Hs | eapply nth_error_In, Hb ]).
  unfold forEach. apply (forEach_from_inv _ _ PM); [ | exact Hs ].
  intros en ke [e w] Hen He. apply P_hit; assumption.
Qed.

Lemma frame_inv (now : Z) (s : Machine) : PM s -> PM (frame M now s).
Proof using P_bullet P_spawn P_enemy P_move P_combo P_popups P_particles
  P_bullets_filter P_enemies_filter P_hit P_base P_powerUps P_collect
  P_periodic P_mirror.
  intros H0. unfold frame. destruct s as [e0 w0].
  pose proof (P_spawn now e0 w0 H0) as H1.
  destruct (spawnEnemies now (e0, w0)) as [e1 w1]. cbn [fst] in H1.
  assert (H2 : PM (forEach (fun s => enemies (fst s)) (updateEnemy M now)
                     (e1, w1))).
  { unfold forEach. apply (forEach_from_inv _ _ PM); [ | exact H1 ].
    intros en k [e w] Hen He. apply P_enemy; assumption. }
  destruct (forEach (fun s => enemies (fst s)) (updateEnemy M now) (e1, w1))
    as [e2 w2].
  unfold PM in H2. cbn [fst] in H2.
  pose proof (P_combo _ w2 (P_move e2 H2)) as H3.
  destruct (updateCombo (set_bullets (map moveBullet (bullets e2)) e2, w2))
    as [e3 w3].
  cbn [fst] in H3.
  match goal with |- context [forEach _ (playerBulletVsEnemies M) (?x, _)] =>
    assert (H4 : P x)
      by (apply P_enemies_filter, P_bullets_filter, P_particles, P_popups, H3);
    set (e4 := x) in *; clearbody e4
  end.
  assert (H5 : PM (forEach (fun s => bullets (fst s))
                     (playerBulletVsEnemies M) (e4, w3))).
  { unfold forEach. apply (forEach_from_inv _ _ PM); [ | exact H4 ].
    intros b k s Hb Hs. apply playerBulletVsEnemies_inv; assumption. }
  destruct (forEach (fun s => bullets (fst s)) (playerBulletVsEnemies M)
              (e4, w3)) as [e5 w5].
  assert (H6 : PM (forEach (fun s => bullets (fst s)) hitBase (e5, w5))).
  { unfold forEach. apply (forEach_from_inv _ _ PM); [ | exact H5 ].
    intros b k [e w] Hb Hs. apply P_base; assumption. }
  destruct (forEach (fun s => bullets (fst s)) hitBase (e5, w5)) as [e6 w6].
  unfold PM in H6. cbn [fst] in H6.
  assert (H7 : PM (checkPowerUpCollisions M (updatePowerUps now e6, w6))).
  { unfold checkPowerUpCollisions, forEach.
    apply (forEach_from_inv _ _ PM); [ | apply P_powerUps, H6 ].
    intros p k [e w] _ Hs. apply P_collect; assumption. }
  destruct (checkPowerUpCollisions M (updatePowerUps now e6, w6)) as [e7 w7].
  pose proof (P_periodic now e7 w7 H7) as H8.
  destruct (periodicPowerUp now (e7, w7)) as [e8 w8].
  apply P_mirror, H8.
Qed.

Hypothesis P_new : forall cw ch w, P (fst (new cw ch w)).
Hypothesis P_next : forall e w, P e -> P (fst (nextLevel (e, w))).
Hypothesis P_shoot : forall e, P e -> P (shoot e).
Hypothesis P_moveUp : forall h e, P e -> P (moveUp h e).
Hypothesis P_moveDown : forall h e, P e -> P (moveDown h e).
Hypothesis P_pause : forall e, P e -> P (togglePause e).
Hypothesis P_reset : forall e w, P e -> P (fst (reset (e, w))).

Lemma update_inv (s : Machine) : PM s -> PM (update M s).
Proof using P_bullet P_spawn P_enemy P_move P_combo P_popups P_particles
  P_bullets_filter P_enemies_filter P_hit P_base P_powerUps P_collect
  P_periodic P_mirror P_next.
  intros H. unfold update. destruct s as [e w].
  destruct (isPaused (gameState e) || isGameOver (gameState e));
    [ exact H | ].
  cbn [Date_now]. destruct (levelOver _ _).
  - apply P_next, H.
  - apply frame_inv, H.
Qed.

Lemma apply_inv (o : Op) (s : Machine) : PM s -> PM (apply M o s).
Proof using P_bullet P_spawn P_enemy P_move P_combo P_popups P_particles
  P_bullets_filter P_enemies_filter P_hit P_base P_powerUps P_collect
  P_periodic P_mirror P_next P_shoot P_moveUp P_moveDown P_pause P_reset.
  intros H. destruct o; cbn [apply].
  - apply update_inv, H.
  - apply P_shoot, H.
  - apply P_moveUp, H.
  - apply P_moveDown, H.
  - apply P_pause, H.
  - destruct s as [e w]. apply P_reset, H.
Qed.

Lemma reachable_inv (s : Machine) : reachable M s -> P (fst s).
Proof using P_bullet P_spawn P_enemy P_move P_combo P_popups P_particles
  P_bullets_filter P_enemies_filter P_hit P_base P_powerUps P_collect
  P_periodic P_mirror P_new P_next P_shoot P_moveUp P_moveDown P_pause
  P_reset.
  induction 1 as [cw ch w | o s _ IH].
  - apply P_new.
  - apply apply_inv, IH.
Qed.
End Pass.
End PassFacts.

(** ** Health, bullets, enemies and the end of the game *)

Module SoundFacts.
Import GameState GameEngine Sound.

Lemma Forall_assign {A} (P : A -> Prop) (k : nat) (a : A) (l : list A) :
  P a -> Forall P l -> Forall P (assign k a l).
Proof.
  intros Ha Hl. revert k. induction Hl as [|x l Hx Hl IH]; intros k.
  - destruct k; constructor.
  - destruct k; cbn; constructor; auto.
Qed.

Lemma Forall_splice1 {A} (P : A -> Prop) (k : nat) (l : list A) :
  Forall P l -> Forall P (splice1 k l).
Proof.
  intros Hl. revert k. induction Hl as [|x l Hx Hl IH]; intros k.
  - destruct k; constructor.
  - destruct k; [ exact Hl | ].
    change (Forall P (x :: splice1 k l)). constructor; auto.
Qed.

Lemma Forall_filter {A} (P : A -> Prop) (f : A -> bool) (l : list A) :
  Forall P l -> Forall P (filter f l).
Proof.
  intros Hl. apply Forall_forall. intros x Hx. apply filter_In in Hx.
  eapply Forall_forall in Hl; [ exact Hl | tauto ].
Qed.

Lemma bulletOk_damage (b : Bullet.t) : bulletOk b -> (0 <= Bullet.damage b)%Z.
Proof. unfold bulletOk. destruct (Bullet.isPlayerBullet b); lia. Qed.

Lemma sound_bullet (e : GameEngine.t) (b : Bullet.t) :
  sound e -> In b (bullets e) -> bulletOk b.
Proof.
  intros (_ & _ & _ & _ & _ & Hb & _) Hin.
  eapply Forall_forall in Hb; eauto.
Qed.

Lemma enemyOk_new (lvl : Z) (cs : list EnemyConfig.t) (c : EnemyConfig.t)
    (W H : Q) (w : World) :
  EnemyFactory.enemyConfigs lvl = Some cs -> In c cs ->
  enemyOk lvl (fst (Enemy.new c W H w)).
Proof.
  intros E Hin.
  destruct (SpawnFacts.enemyConfigs_entry lvl cs c E Hin)
    as (_ & _ & _ & _ & Hh & _).
  unfold enemyOk, Enemy.new, Math_random. cbn.
  refine (conj _ (conj eq_refl (conj _ (conj eq_refl eq_refl)))).
  - exists cs. auto.
  - lia.
Qed.

Lemma enemyOk_update (lvl : Z) (W H : Q) (en : Enemy.t) :
  enemyOk lvl en -> enemyOk lvl (Enemy.update W H en).
Proof.
  unfold enemyOk, Enemy.update.
  destruct (Qleb _ 0 || Qleb _ _); cbn; exact (fun H => H).
Qed.

Lemma enemyOk_takeDamage (lvl d : Z) (en : Enemy.t) :
  (0 <= d)%Z -> enemyOk lvl en -> enemyOk lvl (Enemy.takeDamage d en).
Proof.
  intros Hd (H1 & H2 & H3 & H4 & H5).
  unfold enemyOk, Enemy.takeDamage, Enemy.set_health. cbn.
  refine (conj H1 (conj H2 (conj _ (conj H4 H5)))). lia.
Qed.

Section Steps.
Variable M : MathLib.

Lemma enemyOk_shoot (lvl : Z) (p : Position.t) (en : Enemy.t) (w : World) :
  enemyOk lvl en -> enemyOk lvl (snd (fst (Enemy.shoot M p en w))).
Proof.
  intros H. destruct (Enemy.canShoot (fst (Date_now w)) en) eqn:Hc.
  - destruct (Enemy_shoot_fired M p en w Hc) as (bs & -> & _). exact H.
  - rewrite (Enemy_shoot_refused M p en w Hc). exact H.
Qed.

Lemma shoot_bulletOk (p : Position.t) (en : Enemy.t) (w : World) :
  Forall bulletOk (fst (fst (Enemy.shoot M p en w))).
Proof.
  destruct (Enemy.canShoot (fst (Date_now w)) en) eqn:Hc.
  - destruct (Enemy_shoot_fired M p en w Hc) as (bs & -> & _ & Hall).
    cbn [fst]. eapply Forall_impl; [ | exact Hall ].
    intros b [Hp Hd]. unfold bulletOk. now rewrite Hp.
  - rewrite (Enemy_shoot_refused M p en w Hc). constructor.
Qed.

Lemma spawn_sound (now : Z) (e : GameEngine.t) (w : World) :
  sound e -> sound (fst (spawnEnemies now (e, w))).
Proof.
  intros H. destruct (spawnInterval e <=? now - lastSpawnTime e)%Z eqn:Hd.
  - rewrite SpawnFacts.spawnEnemies_due by (apply Z.leb_le, Hd). cbn [fst].
    pose proof (SpawnFacts.createRandomEnemy_cases (level (gameState e))
                  (canvasWidth e) (canvasHeight e) w) as C.
    destruct (EnemyFactory.createRandomEnemy _ _ _ w) as [[en|] w1];
      cbn [fst]; [ | exact H ].
    destruct C as (c & cs & w0 & E & Hin & ->).
    destruct H as (Hl & Hh & Hm & Hs & Hsm & Hb & H1 & He & Ho).
    refine (conj Hl (conj Hh (conj Hm (conj Hs (conj Hsm (conj Hb
              (conj H1 (conj _ Ho)))))))).
    change (Forall (enemyOk (level (gameState e)))
              (enemies e ++ [fst (Enemy.new c (canvasWidth e)
                                    (canvasHeight e) w0)])).
    apply Forall_app. split; [ exact He | ].
    constructor; [ | constructor ]. eapply enemyOk_new; eauto.
  - rewrite SpawnFacts.spawnEnemies_idle by (apply Z.leb_gt, Hd). exact H.
Qed.

(** Building blocks: what the statements of a frame do to the parts the
    invariant speaks of. *)
Lemma sound_add_bullets (e : GameEngine.t) (bs : list Bullet.t) :
  sound e -> Forall bulletOk bs ->
  (level (gameState e) = 1%Z ->
   Forall (fun b => Bullet.isPlayerBullet b = true) bs) ->
  sound (set_bullets (bullets e ++ bs) e).
Proof.
  intros (Hl & Hh & Hm & Hs & Hsm & Hb & H1 & He & Ho) Hbs H1s.
  refine (conj Hl (conj Hh (conj Hm (conj Hs (conj Hsm (conj _
            (conj _ (conj He Ho)))))))).
  - apply Forall_app. auto.
  - intros L. apply Forall_app. auto.
Qed.

Lemma sound_bullets_sub (e : GameEngine.t) (bs : list Bullet.t) :
  (forall b, In b bs -> In b (bullets e)) ->
  sound e -> sound (set_bullets bs e).
Proof.
  intros Hsub (Hl & Hh & Hm & Hs & Hsm & Hb & H1 & He & Ho).
  refine (conj Hl (conj Hh (conj Hm (conj Hs (conj Hsm (conj _
            (conj _ (conj He Ho)))))))).
  - apply Forall_forall. intros b Hin.
    eapply Forall_forall in Hb; eauto.
  - intros L. apply Forall_forall. intros b Hin.
    eapply Forall_forall in H1; eauto.
Qed.

Lemma sound_enemies (e : GameEngine.t) (es : list Enemy.t) :
  Forall (enemyOk (level (gameState e))) es ->
  sound e -> sound (set_enemies es e).
Proof.
  intros Hes (Hl & Hh & Hm & Hs & Hsm & Hb & H1 & He & Ho).
  exact (conj Hl (conj Hh (conj Hm (conj Hs (conj Hsm (conj Hb
           (conj H1 (conj Hes Ho)))))))).
Qed.

Lemma sound_enemy (e : GameEngine.t) (k : nat) (en : Enemy.t) :
  sound e -> nth_error (enemies e) k = Some en ->
  enemyOk (level (gameState e)) en.
Proof.
  intros (_ & _ & _ & _ & _ & _ & _ & He & _) Hk.
  eapply Forall_forall in He; [ exact He | eapply nth_error_In, Hk ].
Qed.

Lemma sound_damage (e : GameEngine.t) (d : Z) :
  (0 <= d)%Z -> sound e ->
  sound (set_gameState
           (set_playerHealth (Base.health (Base.takeDamage d (base e)))
              (gameState e))
           (set_base (Base.takeDamage d (base e)) e)).
Proof.
  intros Hd (Hl & Hh & Hm & Hs & Hsm & Hb & H1 & He & Ho).
  unfold sound, sound_of, Base.takeDamage, Base.set_health. cbn.
  refine (conj Hl (conj _ (conj Hm (conj eq_refl (conj Hsm (conj Hb
            (conj H1 (conj He _)))))))).
  - lia.
  - intros Hov. destruct (Ho Hov) as [L [Z0 | L3]]; split; auto.
    left. lia.
Qed.

Lemma sound_gameState (e : GameEngine.t) (g : GameState.t) :
  level g = level (gameState e) ->
  isGameOver g = isGameOver (gameState e) ->
  playerHealth g = playerHealth (gameState e) ->
  maxPlayerHealth g = maxPlayerHealth (gameState e) ->
  sound e -> sound (set_gameState g e).
Proof.
  intros E1 E2 E3 E4 H. unfold sound in *. cbn.
  rewrite E1, E2, E3, E4. exact H.
Qed.

Lemma In_splice1 {A} (k : nat) (l : list A) (x : A) :
  In x (splice1 k l) -> In x l.
Proof.
  revert k. induction l as [|y l IH]; intros k.
  - destruct k; cbn; auto.
  - destruct k; [ cbn; auto | ].
    change (In x (y :: splice1 k l) -> In x (y :: l)).
    intros [-> | Hin]; [ left; reflexivity | right; eauto ].
Qed.

Lemma enemy_sound (now : Z) (en : Enemy.t) (k : nat) (e : GameEngine.t)
    (w : World) :
  nth_error (enemies e) k = Some en ->
  sound e -> sound (fst (updateEnemy M now en k (e, w))).
Proof.
  intros Hk H. pose proof (sound_enemy e k en H Hk) as Hen.
  apply (enemyOk_update _ (canvasWidth e) (canvasHeight e)) in Hen.
  unfold updateEnemy.
  set (en1 := Enemy.update (canvasWidth e) (canvasHeight e) en) in *.
  assert (Hfire :
    forall (e1 : GameEngine.t) (en2 : Enemy.t) (w2 : World),
      sound e1 -> level (gameState e1) = level (gameState e) ->
      enemyOk (level (gameState e)) en2 ->
      sound
        (fst
           (let (e2, enemy) :=
              if negb (EnemyConfig.canShoot (Enemy.config en2))
                 && enemyBaseCollision en2 (base e1)
              then
                (set_gameState
                   (set_playerHealth
                      (Base.health (base (set_base (Base.takeDamage 5 (base e1)) e1)))
                      (gameState (set_base (Base.takeDamage 5 (base e1)) e1)))
                   (set_base (Base.takeDamage 5 (base e1)) e1),
                 Enemy.takeDamage 100 en2)
              else (e1, en2) in
            (set_enemies (assign k enemy (enemies e2)) e2, w2)))).
  { intros e1 en2 w2 H1 HL H2.
    destruct (negb _ && _); cbn [fst].
    - apply sound_enemies; [ | apply (sound_damage e1 5); [ lia | exact H1 ] ].
      apply Forall_assign.
      + cbn. rewrite HL. apply enemyOk_takeDamage; [ lia | exact H2 ].
      + cbn. destruct H1 as (_ & _ & _ & _ & _ & _ & _ & He & _). exact He.
    - apply sound_enemies; [ | exact H1 ].
      apply Forall_assign; [ rewrite HL; exact H2 | ].
      destruct H1 as (_ & _ & _ & _ & _ & _ & _ & He & _). exact He. }
  destruct (Enemy.canShoot now en1) eqn:Hc.
  - pose proof (enemyOk_shoot _ (Base.getCenter (base e)) en1 w Hen) as H2.
    pose proof (shoot_bulletOk (Base.getCenter (base e)) en1 w) as H3.
    destruct (Enemy.shoot M (Base.getCenter (base e)) en1 w)
      as [[fired en2] w2].
    cbn [fst snd] in H2, H3.
    apply Hfire; [ | reflexivity | exact H2 ].
    apply sound_add_bullets; [ exact H | exact H3 | ].
    intros L. exfalso.
    destruct Hen as ((cs & E & Hin) & _).
    destruct (SpawnFacts.enemyConfigs_entry _ _ _ E Hin)
      as (_ & _ & _ & Hcs & _).
    unfold Enemy.canShoot in Hc. apply andb_prop in Hc. destruct Hc as [Hc _].
    rewrite Hcs, L in Hc. discriminate Hc.
  - apply Hfire; [ exact H | reflexivity | exact Hen ].
Qed.

Lemma hit_sound (b : Bullet.t) (kb : nat) (en : Enemy.t) (ke : nat)
    (e : GameEngine.t) (w : World) :
  bulletOk b -> Bullet.isPlayerBullet b = true ->
  nth_error (enemies e) ke = Some en ->
  sound e -> sound (fst (hitEnemy M b kb en ke (e, w))).
Proof.
  intros Hb _ Hk H. unfold hitEnemy.
  destruct (bulletEnemyCollision b en); [ | exact H ].
  pose proof (sound_enemy e ke en H Hk) as Hen.
  apply (enemyOk_takeDamage _ (Bullet.damage b)) in Hen;
    [ | apply bulletOk_damage, Hb ].
  assert (H1 : sound
                 (set_bullets
                    (splice1 kb
                       (bullets
                          (set_enemies
                             (assign ke (Enemy.takeDamage (Bullet.damage b) en)
                                (enemies e)) e)))
                    (set_enemies
                       (assign ke (Enemy.takeDamage (Bullet.damage b) en)
                          (enemies e)) e))).
  { apply sound_bullets_sub; [ intros x; apply In_splice1 | ].
    apply sound_enemies; [ | exact H ].
    apply Forall_assign; [ exact Hen | ].
    destruct H as (_ & _ & _ & _ & _ & _ & _ & He & _). exact He. }
  destruct (negb (Enemy.isAlive _)); [ | exact H1 ].
  match goal with |- context [registerKill M ?x ?k (?e1, ?w1)] =>
    destruct (RunFacts.registerKill_shape M x k e1 w1)
      as (pops & ps & pus & w' & E & _);
    rewrite E;
    pose proof (RunFacts.scoreKill_kill_at (clock w1 0) (gameState e1)) as K;
    set (e2 := e1) in *
  end.
  cbn [fst].
  destruct K as (_ & _ & _ & K1 & K2 & K3 & K4 & _).
  apply sound_enemies.
  - match goal with |- Forall (enemyOk ?l) _ =>
      replace l with (level (gameState e2)) by (symmetry; exact K1) end.
    apply Forall_splice1.
    destruct H1 as (_ & _ & _ & _ & _ & _ & _ & He & _). exact He.
  - apply (sound_gameState e2 _ K1 K4 K2 K3) in H1. exact H1.
Qed.

Lemma base_sound (b : Bullet.t) (k : nat) (e : GameEngine.t) (w : World) :
  nth_error (bullets e) k = Some b ->
  sound e -> sound (fst (hitBase b k (e, w))).
Proof.
  intros Hk H. unfold hitBase.
  destruct (Bullet.isPlayerBullet b) eqn:Hp; [ exact H | ]. cbn [negb].
  destruct (bulletBaseCollision b (base e)); [ | exact H ].
  assert (Hin : In b (bullets e)) by (eapply nth_error_In, Hk).
  pose proof (sound_bullet e b H Hin) as Hd.
  unfold bulletOk in Hd. rewrite Hp in Hd.
  assert (L2 : (2 <= level (gameState e))%Z).
  { destruct H as (Hl & _ & _ & _ & _ & _ & H1 & _).
    destruct (Z.eq_dec (level (gameState e)) 1) as [L | L]; [ | lia ].
    apply H1 in L. eapply Forall_forall in L; [ | exact Hin ].
    congruence. }
  assert (Hover :
    forall e1, sound e1 -> level (gameState e1) = level (gameState e) ->
      sound (fst (if negb (Base.isAlive (base e1))
                  then (set_gameState (set_isGameOver true (gameState e1)) e1, w)
                  else (e1, w)))).
  { intros e1 H1 HL. destruct (negb (Base.isAlive (base e1))) eqn:Ha;
      [ | exact H1 ].
    cbn [fst]. unfold Base.isAlive in Ha.
    apply negb_true_iff, Z.ltb_ge in Ha.
    destruct H1 as (Hl & Hh & Hm & Hs & Hsm & Hb & H1 & He & Ho).
    refine (conj Hl (conj Hh (conj Hm (conj Hs (conj Hsm (conj Hb
              (conj H1 (conj He _)))))))).
    intros _. cbn. split; [ rewrite HL; exact L2 | left; lia ]. }
  destruct (hasShield e).
  - apply Hover; [ | reflexivity ].
    apply sound_bullets_sub; [ intros x; apply In_splice1 | ].
    apply sound_gameState; try reflexivity; [ | exact H ].
    destruct H as (_ & _ & _ & Hs & _). cbn. symmetry. exact Hs.
  - apply Hover; [ | reflexivity ].
    apply sound_bullets_sub; [ intros x; apply In_splice1 | ].
    apply (sound_damage e (Bullet.damage b)); [ lia | exact H ].
Qed.

Lemma expire_parts (t : Z) (e : GameEngine.t) (entry : PowerUpType * Z) :
  gameState (expire t e entry) = gameState e
  /\ base (expire t e entry) = base e
  /\ bullets (expire t e entry) = bullets e
  /\ enemies (expire t e entry) = enemies e.
Proof.
  unfold expire. destruct entry as [ty ex].
  destruct (ex <=? t)%Z; [ destruct ty | ]; repeat split.
Qed.

Lemma fold_expire_parts (t : Z) (m : ActiveMap) (e : GameEngine.t) :
  gameState (fold_left (expire t) m e) = gameState e
  /\ base (fold_left (expire t) m e) = base e
  /\ bullets (fold_left (expire t) m e) = bullets e
  /\ enemies (fold_left (expire t) m e) = enemies e.
Proof.
  revert e. induction m as [|entry m IH]; intros e; [ repeat split | ].
  cbn [fold_left]. destruct (IH (expire t e entry)) as (a & b & c & d).
  destruct (expire_parts t e entry) as (a' & b' & c' & d').
  repeat split; congruence.
Qed.

Lemma powerUps_sound (now : Z) (e : GameEngine.t) :
  sound e -> sound (updatePowerUps now e).
Proof.
  intros H. unfold updatePowerUps, sound.
  cbn [gameState base bullets enemies set_powerUps].
  destruct (fold_expire_parts now (activePowerUps e) e) as (a & b & c & d).
  rewrite a, b, c, d. exact H.
Qed.

Lemma collect_sound (p : PowerUp.t) (k : nat) (e : GameEngine.t) (w : World) :
  sound e -> sound (fst (collect M p k (e, w))).
Proof.
  intros H. unfold collect.
  destruct (Qltb _ _); [ | exact H ].
  unfold activatePowerUp. cbn [Date_now].
  destruct (PowerUp.type p); exact H.
Qed.

Lemma periodic_sound (now : Z) (e : GameEngine.t) (w : World) :
  sound e -> sound (fst (periodicPowerUp now (e, w))).
Proof.
  intros H. unfold periodicPowerUp.
  destruct (15000 <? _)%Z; [ | exact H ].
  cbn [Math_random]. destruct (Qltb _ _); exact H.
Qed.

Lemma mirror_sound (e : GameEngine.t) :
  sound e ->
  sound (set_gameState
           (set_playerHealth (Base.health (base e)) (gameState e)) e).
Proof.
  intros H. apply sound_gameState; try reflexivity; [ | exact H ].
  destruct H as (_ & _ & _ & Hs & _). cbn. symmetry. exact Hs.
Qed.

Lemma move_sound (e : GameEngine.t) :
  sound e -> sound (set_bullets (map moveBullet (bullets e)) e).
Proof.
  intros (Hl & Hh & Hm & Hs & Hsm & Hb & H1 & He & Ho).
  refine (conj Hl (conj Hh (conj Hm (conj Hs (conj Hsm (conj _
            (conj _ (conj He Ho)))))))).
  - apply Forall_map. exact Hb.
  - intros L. apply Forall_map. exact (H1 L).
Qed.

Lemma combo_sound (e : GameEngine.t) (w : World) :
  sound e -> sound (fst (updateCombo (e, w))).
Proof.
  intros H. unfold updateCombo. cbn [Date_now].
  destruct (_ && _); exact H.
Qed.

Lemma filter_bullets_sound (f : Bullet.t -> bool) (e : GameEngine.t) :
  sound e -> sound (set_bullets (filter f (bullets e)) e).
Proof.
  apply sound_bullets_sub. intros b Hin. apply filter_In in Hin. tauto.
Qed.

Lemma filter_enemies_sound (f : Enemy.t -> bool) (e : GameEngine.t) :
  sound e -> sound (set_enemies (filter f (enemies e)) e).
Proof.
  intros H. apply sound_enemies; [ | exact H ].
  apply Forall_filter.
  destruct H as (_ & _ & _ & _ & _ & _ & _ & He & _). exact He.
Qed.

Lemma new_sound (cw ch : Q) (w : World) : sound (fst (new cw ch w)).
Proof.
  unfold new, sound, sound_of. cbn.
  repeat split; try lia; try constructor; discriminate.
Qed.

Lemma reset_sound (e : GameEngine.t) (w : World) :
  sound e -> sound (fst (reset (e, w))).
Proof.
  intros _. unfold reset, sound, sound_of. cbn.
  repeat split; try lia; try constructor; discriminate.
Qed.

Lemma next_sound (e : GameEngine.t) (w : World) :
  sound e -> sound (fst (nextLevel (e, w))).
Proof.
  intros (Hl & Hh & Hm & Hs & Hsm & Hb & H1 & He & Ho).
  unfold nextLevel.
  destruct (level (gameState e) <? 3)%Z eqn:L3.
  - apply Z.ltb_lt in L3. cbn [Date_now].
    destruct (level (gameState e) =? 2)%Z eqn:L2.
    + apply Z.eqb_eq in L2. unfold sound, sound_of. cbn.
      repeat split; try lia; try constructor.
    + apply Z.eqb_neq in L2. unfold sound, sound_of. cbn.
      refine (conj _ (conj Hh (conj Hm (conj Hs (conj Hsm
                (conj (Forall_nil _) (conj (fun _ => Forall_nil _)
                   (conj (Forall_nil _) _)))))))); [ lia | ].
      intros Hov. destruct (Ho Hov) as [L [Z0 | L']]; [ | lia ].
      split; [ lia | left; exact Z0 ].
  - apply Z.ltb_ge in L3. unfold sound, sound_of. cbn.
    refine (conj Hl (conj Hh (conj Hm (conj Hs (conj Hsm (conj Hb
              (conj H1 (conj He _)))))))).
    intros _. split; [ lia | right; lia ].
Qed.

Lemma shoot_sound (e : GameEngine.t) : sound e -> sound (shoot e).
Proof.
  intros H.
  assert (Hf : Forall (fun b => exists vy,
                         b = playerBullet (Base.getCenter (base e)) vy)
                 (fired e)).
  { rewrite ShootFacts.fired_eq. destruct (1 <? multiShotCount e)%Z.
    - apply ShootFacts.fan_all.
    - constructor; eauto. }
  pose proof (sound_add_bullets e (fired e) H) as H2.
  rewrite <- ShootFacts.shoot_bullets in H2.
  assert (H3 : sound (set_bullets (bullets (shoot e)) e)).
  { apply H2.
    - eapply Forall_impl; [ | exact Hf ]. intros b [vy ->]. reflexivity.
    - intros _. eapply Forall_impl; [ | exact Hf ].
      intros b [vy ->]. reflexivity. }
  unfold shoot in *. destruct (1 <? multiShotCount e)%Z; exact H3.
Qed.

Lemma moveUp_sound (h : Q) (e : GameEngine.t) : sound e -> sound (moveUp h e).
Proof. exact (fun H => H). Qed.

Lemma moveDown_sound (h : Q) (e : GameEngine.t) :
  sound e -> sound (moveDown h e).
Proof. exact (fun H => H). Qed.

Lemma pause_sound (e : GameEngine.t) : sound e -> sound (togglePause e).
Proof. exact (fun H => H). Qed.

Lemma reachable_sound (s : Machine) : reachable M s -> sound (fst s).
Proof.
  apply (PassFacts.reachable_inv M sound bulletOk).
  - exact sound_bullet.
  - exact spawn_sound.
  - exact enemy_sound.
  - exact move_sound.
  - exact combo_sound.
  - intros l e H. exact H.
  - intros l e H. exact H.
  - exact filter_bullets_sound.
  - exact filter_enemies_sound.
  - exact hit_sound.
  - exact base_sound.
  - exact powerUps_sound.
  - exact collect_sound.
  - exact periodic_sound.
  - exact mirror_sound.
  - exact new_sound.
  - exact next_sound.
  - exact shoot_sound.
  - exact moveUp_sound.
  - exact moveDown_sound.
  - exact pause_sound.
  - exact reset_sound.
Qed.
End Steps.
End SoundFacts.

(** ** The counters *)

Module LedgerFacts.
Import GameState GameEngine Ledger.

Lemma points_range (base : Z) (m : Q) :
  (10 <= base <= 500)%Z -> 1 <= m -> m <= 3 ->
  (10 <= Math_round (inject_Z base * m) <= 1500)%Z.
Proof.
  intros [Hb1 Hb2] Hm1 Hm3. unfold Math_round.
  rewrite Zle_Qle in Hb1, Hb2.
  change (inject_Z 10) with 10 in Hb1. change (inject_Z 500) with 500 in Hb2.
  set (b := inject_Z base) in *.
  assert (L : 10 <= b * m) by nra.
  assert (U : b * m <= 1500) by nra.
  split.
  - change 10%Z with (Qfloor 10). apply Qfloor_resp_le. lra.
  - change 1500%Z with (Qfloor (1500 + 0.5)). apply Qfloor_resp_le. lra.
Qed.

Lemma basePoints_range (g : GameState.t) :
  (1 <= level g <= 3)%Z -> (10 <= Combo.basePoints g <= 500)%Z.
Proof.
  intros H. unfold Combo.basePoints.
  destruct (level g =? 3)%Z eqn:E; [ lia | ].
  apply Z.eqb_neq in E. lia.
Qed.

(** What a kill does to the counters. *)
Lemma kill_ledger (c k n now : Z) (g g' : GameState.t) :
  Combo.kill_at now g g' -> ledger c k n g -> ledger c k n g'.
Proof.
  intros (K & Ks & Kh & Kl & _ & _ & _ & _ & _ & Kd & Kb & _)
         (Hh & Hk & Hc & Hn & Hs & Hl & Hb & Hd).
  assert (Hb' : Combo.bounded g').
  { apply (ComboFacts.event_bounded g g'); [ | exact Hb ].
    destruct K as [K | K]; [ eapply Combo.Streak | eapply Combo.Restart ];
      exact K. }
  assert (Hk' : enemiesKilled g' = (enemiesKilled g + 1)%Z).
  { destruct K as [(_ & _ & _ & _ & _ & K) | (_ & _ & _ & _ & K)]; exact K. }
  pose proof (points_range (Combo.basePoints g) (comboMultiplier g')
                (basePoints_range g Hl) (proj1 (proj2 Hb'))
                (proj2 (proj2 Hb'))) as Hp.
  unfold ledger. rewrite Ks, Kh, Kl, Kd, Kb, Hk'.
  repeat split; try lia; try assumption; apply Hb'.
Qed.

Section Steps.
Variable M : MathLib.
Variables c k n : Z.

Let P (e : GameEngine.t) : Prop := ledger c k n (gameState e).

Lemma spawn_ledger (now : Z) (e : GameEngine.t) (w : World) :
  P e -> P (fst (spawnEnemies now (e, w))).
Proof.
  intros H. unfold spawnEnemies.
  destruct (_ <=? _)%Z; [ | exact H ].
  destruct (EnemyFactory.createRandomEnemy _ _ _ w) as [[en|] w1]; exact H.
Qed.

Lemma enemy_ledger (now : Z) (en : Enemy.t) (i : nat) (e : GameEngine.t)
    (w : World) :
  P e -> P (fst (updateEnemy M now en i (e, w))).
Proof.
  intros H. unfold updateEnemy.
  destruct (Enemy.canShoot now _).
  - destruct (Enemy.shoot M _ _ w) as [[fired en2] w2].
    destruct (negb _ && _); exact H.
  - destruct (negb _ && _); exact H.
Qed.

Lemma combo_ledger (e : GameEngine.t) (w : World) :
  P e -> P (fst (updateCombo (e, w))).
Proof.
  intros H. unfold updateCombo. cbn [Date_now].
  destruct (_ && _); [ | exact H ].
  destruct H as (Hh & Hk & Hc & Hn & Hs & Hl & Hb & Hd).
  unfold P, ledger, Combo.bounded. cbn.
  repeat split; try assumption; try lia; try lra; apply Hs.
Qed.

Lemma hit_ledger (b : Bullet.t) (kb : nat) (en : Enemy.t) (ke : nat)
    (e : GameEngine.t) (w : World) :
  P e -> P (fst (hitEnemy M b kb en ke (e, w))).
Proof.
  intros H. unfold hitEnemy.
  destruct (bulletEnemyCollision b en); [ | exact H ].
  destruct (negb (Enemy.isAlive _)); [ | exact H ].
  match goal with |- context [registerKill M ?x ?i (?e1, ?w1)] =>
    destruct (RunFacts.registerKill_shape M x i e1 w1)
      as (pops & ps & pus & w' & E & _);
    rewrite E;
    pose proof (RunFacts.scoreKill_kill_at (clock w1 0) (gameState e1)) as K
  end.
  exact (kill_ledger c k n _ _ _ K H).
Qed.

Lemma base_ledger (b : Bullet.t) (i : nat) (e : GameEngine.t) (w : World) :
  P e -> P (fst (hitBase b i (e, w))).
Proof.
  intros H. unfold hitBase.
  destruct (negb _); [ | exact H ].
  destruct (bulletBaseCollision b (base e)); [ | exact H ].
  destruct (hasShield e); destruct (negb (Base.isAlive _)); exact H.
Qed.

Lemma powerUps_ledger (now : Z) (e : GameEngine.t) :
  P e -> P (updatePowerUps now e).
Proof.
  intros H. unfold P, updatePowerUps. cbn [gameState set_powerUps].
  destruct (SoundFacts.fold_expire_parts now (activePowerUps e) e) as (a & _).
  rewrite a. exact H.
Qed.

Lemma collect_ledger (p : PowerUp.t) (i : nat) (e : GameEngine.t) (w : World) :
  P e -> P (fst (collect M p i (e, w))).
Proof.
  intros H. unfold collect.
  destruct (Qltb _ _); [ | exact H ].
  unfold activatePowerUp. cbn [Date_now].
  destruct (PowerUp.type p); exact H.
Qed.

Lemma periodic_ledger (now : Z) (e : GameEngine.t) (w : World) :
  P e -> P (fst (periodicPowerUp now (e, w))).
Proof.
  intros H. unfold periodicPowerUp.
  destruct (15000 <? _)%Z; [ | exact H ].
  cbn [Math_random]. destruct (Qltb _ _); exact H.
Qed.

Lemma next_ledger (e : GameEngine.t) (w : World) :
  P e -> P (fst (nextLevel (e, w))).
Proof.
  intros H. unfold nextLevel.
  destruct (level (gameState e) <? 3)%Z eqn:L3; [ | exact H ].
  apply Z.ltb_lt in L3. cbn [Date_now].
  destruct H as (Hh & Hk & Hc & Hn & Hs & Hl & Hb & Hd).
  destruct (level (gameState e) =? 2)%Z; unfold P, ledger; cbn;
    repeat split; try assumption; try lia; try apply Hs; apply Hb.
Qed.

Lemma shoot_ledger (e : GameEngine.t) : P e -> P (shoot e).
Proof.
  intros (Hh & Hk & Hc & Hn & Hs & Hl & Hb & Hd). unfold shoot.
  destruct (1 <? multiShotCount e)%Z; unfold P, ledger; cbn;
    repeat split; try assumption; try lia; try apply Hs; apply Hb.
Qed.

(** One call of [update] keeps the counters in order and lowers none of
    them. *)
Lemma update_ledger (s : Machine) :
  P (fst s) -> P (fst (update M s)).
Proof.
  apply (PassFacts.update_inv M P (fun _ => True)).
  - intros; exact I.
  - exact spawn_ledger.
  - intros now en i e w _. apply enemy_ledger.
  - intros e H. exact H.
  - exact combo_ledger.
  - intros l e H. exact H.
  - intros l e H. exact H.
  - intros f e H. exact H.
  - intros f e H. exact H.
  - intros b kb en ke e w _ _ _. apply hit_ledger.
  - intros b i e w _. apply base_ledger.
  - exact powerUps_ledger.
  - exact collect_ledger.
  - exact periodic_ledger.
  - intros e H. exact H.
  - exact next_ledger.
Qed.

(** The same for every entry point but [reset]. *)
Lemma apply_ledger (o : Op) (s : Machine) :
  o <> Reset -> P (fst s) -> P (fst (apply M o s)).
Proof.
  intros Ho H. destruct o; cbn [apply fst].
  - apply update_ledger, H.
  - apply shoot_ledger, H.
  - exact H.
  - exact H.
  - exact H.
  - congruence.
Qed.
End Steps.

Lemma new_ledger (cw ch : Q) (w : World) :
  ledger 0 0 0 (gameState (fst (new cw ch w))).
Proof.
  unfold new, ledger, Combo.bounded. cbn.
  repeat split; try lia; try lra.
Qed.

Lemma reset_ledger (e : GameEngine.t) (w : World) :
  ledger 0 0 0 (gameState (fst (reset (e, w)))).
Proof.
  unfold reset, ledger, Combo.bounded. cbn.
  repeat split; try lia; try lra.
Qed.

Lemma ledger_weaken (c k n : Z) (g : GameState.t) :
  ledger 0 0 0 g ->
  (c <= score g)%Z -> (k <= enemiesKilled g)%Z -> (n <= bulletsShot g)%Z ->
  ledger c k n g.
Proof.
  intros (Hh & _ & _ & _ & Hs & Hl & Hb & Hd) Hc Hk Hn.
  unfold ledger. auto 10.
Qed.

Lemma reachable_ledger (M : MathLib) (s : Machine) :
  reachable M s -> ledger 0 0 0 (gameState (fst s)).
Proof.
  induction 1 as [cw ch w | o s _ IH].
  - apply new_ledger.
  - destruct o; try (apply apply_ledger; [ discriminate | exact IH ]).
    destruct s as [e w]. apply reset_ledger.
Qed.
End LedgerFacts.

(** ** Modifiers and the active set *)

Module TimedFacts.
Import GameState GameEngine Modifier MapFacts.

Lemma activate_timed (ty : PowerUpType) (e : GameEngine.t) (w : World) :
  timed e -> timed (fst (activatePowerUp ty (e, w))).
Proof.
  intros H ty'. unfold activatePowerUp. cbn [Date_now].
  destruct (PowerUpType_eqb ty' ty) eqn:E.
  - apply PowerUpType_eqb_eq in E. subst ty'.
    destruct ty; cbn [fst activePowerUps set_activePowerUps
      set_baseSpeedMultiplier set_shootCooldownMultiplier set_hasShield
      set_multiShotCount];
      rewrite get_set_same; right; reflexivity.
  - apply PowerUpType_eqb_neq in E. specialize (H ty').
    destruct ty; cbn [fst activePowerUps set_activePowerUps
      set_baseSpeedMultiplier set_shootCooldownMultiplier set_hasShield
      set_multiShotCount];
      rewrite (get_set_other _ ty') by exact E;
      destruct (Map_get ty' (activePowerUps e));
      destruct ty'; try congruence; exact H.
Qed.

Lemma expire_timed (now : Z) (e : GameEngine.t) (entry : PowerUpType * Z) :
  timed e -> timed (expire now e entry).
Proof.
  intros H ty'. destruct entry as [ty ex]. unfold expire.
  destruct (ex <=? now)%Z; [ | apply H ].
  destruct (PowerUpType_eqb ty' ty) eqn:E.
  - apply PowerUpType_eqb_eq in E. subst ty'.
    destruct ty; cbn [activePowerUps set_activePowerUps deactivatePowerUp
      set_baseSpeedMultiplier set_shootCooldownMultiplier set_hasShield
      set_multiShotCount];
      rewrite get_delete_same; reflexivity.
  - apply PowerUpType_eqb_neq in E. specialize (H ty').
    destruct ty; cbn [activePowerUps set_activePowerUps deactivatePowerUp
      set_baseSpeedMultiplier set_shootCooldownMultiplier set_hasShield
      set_multiShotCount];
      rewrite (get_delete_other _ ty') by exact E;
      destruct (Map_get ty' (activePowerUps e));
      destruct ty'; try congruence; exact H.
Qed.

Lemma fold_expire_timed (now : Z) (m : ActiveMap) (e : GameEngine.t) :
  timed e -> timed (fold_left (expire now) m e).
Proof.
  revert e. induction m as [|entry m IH]; intros e H; [ exact H | ].
  cbn [fold_left]. apply IH, expire_timed, H.
Qed.

Lemma shield_used_timed (e : GameEngine.t) :
  timed e -> timed (set_hasShield false e).
Proof.
  intros H ty. specialize (H ty).
  cbn [activePowerUps set_hasShield].
  destruct (Map_get ty (activePowerUps e)); destruct ty;
    first [ exact H | left; reflexivity | reflexivity ].
Qed.

Section Steps.
Variable M : MathLib.

Lemma spawn_timed (now : Z) (e : GameEngine.t) (w : World) :
  timed e -> timed (fst (spawnEnemies now (e, w))).
Proof.
  intros H. unfold spawnEnemies.
  destruct (_ <=? _)%Z; [ | exact H ].
  destruct (EnemyFactory.createRandomEnemy _ _ _ w) as [[en|] w1]; exact H.
Qed.

Lemma enemy_timed (now : Z) (en : Enemy.t) (i : nat) (e : GameEngine.t)
    (w : World) :
  timed e -> timed (fst (updateEnemy M now en i (e, w))).
Proof.
  intros H. unfold updateEnemy.
  destruct (Enemy.canShoot now _).
  - destruct (Enemy.shoot M _ _ w) as [[fired en2] w2].
    destruct (negb _ && _); exact H.
  - destruct (negb _ && _); exact H.
Qed.

Lemma combo_timed (e : GameEngine.t) (w : World) :
  timed e -> timed (fst (updateCombo (e, w))).
Proof.
  intros H. unfold updateCombo. cbn [Date_now].
  destruct (_ && _); exact H.
Qed.

Lemma hit_timed (b : Bullet.t) (kb : nat) (en : Enemy.t) (ke : nat)
    (e : GameEngine.t) (w : World) :
  timed e -> timed (fst (hitEnemy M b kb en ke (e, w))).
Proof.
  intros H. unfold hitEnemy.
  destruct (bulletEnemyCollision b en); [ | exact H ].
  destruct (negb (Enemy.isAlive _)); [ | exact H ].
  match goal with |- context [registerKill M ?x ?i (?e1, ?w1)] =>
    destruct (RunFacts.registerKill_shape M x i e1 w1)
      as (pops & ps & pus & w' & E & _);
    rewrite E
  end.
  exact H.
Qed.

Lemma base_timed (b : Bullet.t) (i : nat) (e : GameEngine.t) (w : World) :
  timed e -> timed (fst (hitBase b i (e, w))).
Proof.
  intros H. unfold hitBase.
  destruct (negb _); [ | exact H ].
  destruct (bulletBaseCollision b (base e)); [ | exact H ].
  destruct (hasShield e); destruct (negb (Base.isAlive _));
    first [ exact H | exact (shield_used_timed e H) ].
Qed.

Lemma powerUps_timed (now : Z) (e : GameEngine.t) :
  timed e -> timed (updatePowerUps now e).
Proof.
  intros H. unfold updatePowerUps.
  exact (fold_expire_timed now (activePowerUps e) e H).
Qed.

Lemma collect_timed (p : PowerUp.t) (i : nat) (e : GameEngine.t) (w : World) :
  timed e -> timed (fst (collect M p i (e, w))).
Proof.
  intros H. unfold collect.
  destruct (Qltb _ _); [ | exact H ].
  pose proof (activate_timed (PowerUp.type p) e w H) as H1.
  destruct (activatePowerUp (PowerUp.type p) (e, w)) as [e1 w1].
  exact H1.
Qed.

Lemma periodic_timed (now : Z) (e : GameEngine.t) (w : World) :
  timed e -> timed (fst (periodicPowerUp now (e, w))).
Proof.
  intros H. unfold periodicPowerUp.
  destruct (15000 <? _)%Z; [ | exact H ].
  cbn [Math_random]. destruct (Qltb _ _); exact H.
Qed.

Lemma next_timed (e : GameEngine.t) (w : World) :
  timed e -> timed (fst (nextLevel (e, w))).
Proof.
  intros H. unfold nextLevel.
  destruct (level (gameState e) <? 3)%Z; [ | exact H ].
  cbn [Date_now]. destruct (level (gameState e) =? 2)%Z; exact H.
Qed.

Lemma shoot_timed (e : GameEngine.t) : timed e -> timed (shoot e).
Proof.
  intros H. unfold shoot. destruct (1 <? multiShotCount e)%Z; exact H.
Qed.

Lemma new_timed (cw ch : Q) (w : World) : timed (fst (new cw ch w)).
Proof. intros ty. destruct ty; reflexivity. Qed.

Lemma reset_timed (e : GameEngine.t) (w : World) : timed (fst (reset (e, w))).
Proof. intros ty. destruct ty; reflexivity. Qed.

Lemma reachable_timed (s : Machine) : reachable M s -> timed (fst s).
Proof.
  apply (PassFacts.reachable_inv M timed (fun _ => True)).
  - intros; exact I.
  - exact spawn_timed.
  - intros now en i e w _. apply enemy_timed.
  - intros e H. exact H.
  - exact combo_timed.
  - intros l e H. exact H.
  - intros l e H. exact H.
  - intros f e H. exact H.
  - intros f e H. exact H.
  - intros b kb en ke e w _ _ _. apply hit_timed.
  - intros b i e w _. apply base_timed.
  - exact powerUps_timed.
  - exact collect_timed.
  - exact periodic_timed.
  - intros e H. exact H.
  - exact new_timed.
  - exact next_timed.
  - exact shoot_timed.
  - intros h e H. exact H.
  - intros h e H. exact H.
  - intros e H. exact H.
  - intros e w _. apply reset_timed.
Qed.
End Steps.
End TimedFacts.

(** ** What holds in every state the page can reach *)

Lemma play_reachable (ops : list Op) (s : GameEngine.Machine) :
  reachable plainMath s -> reachable plainMath (play ops s).
Proof.
  revert s. induction ops as [|o ops IH]; intros s H; [ exact H | ].
  apply IH. apply Driven, H.
Qed.

Module ReachedFacts.
Import GameState GameEngine.

(** X10: The player's health stays between 0 and 100, its maximum is 100, and
    the game state shows both as they are, after every call of every entry
    point. *)
Theorem health_stays_in_range (M : MathLib) (s : Machine) :
  reachable M s ->
  (0 <= Base.health (base (fst s)) <= 100)%Z
  /\ Base.maxHealth (base (fst s)) = 100%Z
  /\ playerHealth (gameState (fst s)) = Base.health (base (fst s))
  /\ maxPlayerHealth (gameState (fst s)) = 100%Z.
Proof.
  intros reached.
  destruct (SoundFacts.reachable_sound M s reached)
    as (_ & Hh & Hm & Hs & Hsm & _).
  auto.
Qed.

(** X11: Every bullet in flight does the damage of its side, 20 from the player
    and 10 from an enemy, and on level 1 every bullet is the player's. *)
Theorem bullets_carry_their_damage (M : MathLib) (s : Machine) (b : Bullet.t) :
  reachable M s ->
  In b (bullets (fst s)) ->
  Bullet.damage b = (if Bullet.isPlayerBullet b then 20 else 10)%Z
  /\ (level (gameState (fst s)) = 1%Z -> Bullet.isPlayerBullet b = true).
Proof.
  intros reached Hin.
  destruct (SoundFacts.reachable_sound M s reached)
    as (_ & _ & _ & _ & _ & Hb & H1 & _).
  split.
  - eapply Forall_forall in Hb; [ exact Hb | exact Hin ].
  - intros L. specialize (H1 L).
    eapply Forall_forall in H1; [ exact H1 | exact Hin ].
Qed.

(** X12: Every enemy on the field was built from a configuration of the current
    level, so that none is left over from the level before; it has that
    configuration's size and speed; its health lies between 0 and its full
    health, which is at most 100, so that the 100 points of damage of a melee
    contact always bring it to 0; and it can fire exactly when the level is
    not 1. *)
Theorem enemies_are_of_the_level (M : MathLib) (s : Machine) (en : Enemy.t) :
  reachable M s ->
  In en (enemies (fst s)) ->
  EnemyConfig.level (Enemy.config en) = level (gameState (fst s))
  /\ (exists cs, EnemyFactory.enemyConfigs (level (gameState (fst s))) = Some cs
                 /\ In (Enemy.config en) cs)
  /\ Enemy.maxHealth en = EnemyConfig.health (Enemy.config en)
  /\ (0 <= Enemy.health en <= Enemy.maxHealth en)%Z
  /\ (Enemy.maxHealth en <= 100)%Z
  /\ Enemy.health (Enemy.takeDamage 100 en) = 0%Z
  /\ Enemy.speed en = EnemyConfig.speed (Enemy.config en)
  /\ Enemy.size en
     = {| Size.width := EnemyConfig.width (Enemy.config en);
          Size.height := EnemyConfig.height (Enemy.config en) |}
  /\ EnemyConfig.canShoot (Enemy.config en)
     = negb (level (gameState (fst s)) =? 1)%Z.
Proof.
  intros reached Hin.
  destruct (SoundFacts.reachable_sound M s reached)
    as (_ & _ & _ & _ & _ & _ & _ & He & _).
  eapply Forall_forall in He; [ | exact Hin ].
  destruct He as ((cs & E & Hc) & Hm & Hh & Hsp & Hsz).
  destruct (SpawnFacts.enemyConfigs_entry _ _ _ E Hc)
    as (_ & _ & Lc & Hcs & Hhc & _).
  refine (conj Lc (conj _ (conj Hm (conj Hh (conj _ (conj _
            (conj Hsp (conj Hsz Hcs)))))))).
  - exists cs. auto.
  - lia.
  - unfold Enemy.takeDamage, Enemy.set_health. cbn. lia.
Qed.

(** X13: A game is over only after enemy fire has brought the player's health to
    0 on level 2 or 3, or at the end of level 3.  On level 1 the game is
    never over, whatever the player's health: melee contacts lower the
    health, down to 0, and the game goes on. *)
Theorem level_one_is_never_lost (M : MathLib) (s : Machine) :
  reachable M s ->
  (isGameOver (gameState (fst s)) = true ->
   (2 <= level (gameState (fst s)))%Z
   /\ (Base.health (base (fst s)) = 0%Z \/ level (gameState (fst s)) = 3%Z))
  /\ (level (gameState (fst s)) = 1%Z ->
      isGameOver (gameState (fst s)) = false).
Proof.
  intros reached.
  destruct (SoundFacts.reachable_sound M s reached)
    as (_ & _ & _ & _ & _ & _ & _ & _ & Ho).
  split; [ exact Ho | ].
  intros L. destruct (isGameOver (gameState (fst s))); [ | reflexivity ].
  destruct (Ho eq_refl). lia.
Qed.

(** X14: The counter of hits counts the kills: a bullet that wounds an enemy
    without killing it is no hit.  Every kill has brought between 10 and
    1500 points, and no counter is negative. *)
Theorem counters_in_order (M : MathLib) (s : Machine) :
  reachable M s ->
  bulletsHit (gameState (fst s)) = enemiesKilled (gameState (fst s))
  /\ (0 <= enemiesKilled (gameState (fst s)))%Z
  /\ (10 * enemiesKilled (gameState (fst s)) <= score (gameState (fst s)))%Z
  /\ (score (gameState (fst s)) <= 1500 * enemiesKilled (gameState (fst s)))%Z
  /\ (0 <= bulletsShot (gameState (fst s)))%Z.
Proof.
  intros reached.
  destruct (LedgerFacts.reachable_ledger M s reached)
    as (Hh & Hk & _ & Hn & Hs & _).
  repeat split; try assumption; apply Hs.
Qed.

(** X15: No entry point but [reset] lowers the score, the kills or the shots. *)
Theorem counters_never_fall (M : MathLib) (s : Machine) (o : Op) :
  reachable M s ->
  o <> Reset ->
  (score (gameState (fst s)) <= score (gameState (fst (apply M o s))))%Z
  /\ (enemiesKilled (gameState (fst s))
      <= enemiesKilled (gameState (fst (apply M o s))))%Z
  /\ (bulletsShot (gameState (fst s))
      <= bulletsShot (gameState (fst (apply M o s))))%Z.
Proof.
  intros reached Ho.
  pose proof (LedgerFacts.reachable_ledger M s reached) as H.
  apply (LedgerFacts.ledger_weaken (score (gameState (fst s)))
           (enemiesKilled (gameState (fst s)))
           (bulletsShot (gameState (fst s)))) in H; try lia.
  apply (LedgerFacts.apply_ledger M _ _ _ o s Ho) in H.
  destruct H as (_ & Hk & Hc & Hn & _). auto.
Qed.

(** X16: The duration of the level is always the table's entry for the level:
    30, 60 or 40 seconds, never undefined, so that the level check of
    [update] always compares against a number. *)
Theorem level_has_its_duration (M : MathLib) (s : Machine) :
  reachable M s ->
  levelDuration (gameState (fst s))
  = levelDurations (level (gameState (fst s)))
  /\ exists d, levelDuration (gameState (fst s)) = Some d
               /\ (30000 <= d <= 60000)%Z.
Proof.
  intros reached.
  destruct (LedgerFacts.reachable_ledger M s reached)
    as (_ & _ & _ & _ & _ & Hl & _ & Hd).
  split; [ exact Hd | ]. rewrite Hd.
  assert (level (gameState (fst s)) = 1 \/ level (gameState (fst s)) = 2
          \/ level (gameState (fst s)) = 3)%Z as [-> | [-> | ->]] by lia;
    cbn; eexists; (split; [ reflexivity | lia ]).
Qed.

(** X17: A modifier is away from its baseline only while its type has an
    expiration recorded, so that every boost ends; while the expiration is
    recorded the modifier is boosted, but for the shield, which a hit may
    have used up.  The modifiers take no values but the two. *)
Theorem boosts_are_timed (M : MathLib) (s : Machine) :
  reachable M s ->
  (forall ty,
     match Map_get ty (activePowerUps (fst s)) with
     | Some _ => ty = SHIELD \/ Modifier.boosted ty (fst s)
     | None => Modifier.baseline ty (fst s)
     end)
  /\ (baseSpeedMultiplier (fst s) = 1 \/ baseSpeedMultiplier (fst s) = 1.5)
  /\ (shootCooldownMultiplier (fst s) = 1
      \/ shootCooldownMultiplier (fst s) = 0.5)
  /\ (multiShotCount (fst s) = 1%Z \/ multiShotCount (fst s) = 3%Z).
Proof.
  intros reached.
  pose proof (TimedFacts.reachable_timed M s reached) as H.
  split; [ exact H | ].
  pose proof (H SPEED_BOOST) as H1. pose proof (H RAPID_FIRE) as H2.
  pose proof (H MULTI_SHOT) as H3.
  destruct (Map_get SPEED_BOOST _), (Map_get RAPID_FIRE _),
           (Map_get MULTI_SHOT _); cbn in H1, H2, H3;
    repeat split;
    repeat match goal with
           | H : _ = SHIELD \/ _ |- _ =>
               destruct H as [H | H]; [ discriminate H | ]
           end; auto.
Qed.
End ReachedFacts.

Lemma health_stays_in_range_witness :
  (0 <= Base.health (GameEngine.base (fst firstKill)) <= 100)%Z.
Proof.
  apply (ReachedFacts.health_stays_in_range plainMath firstKill).
  unfold firstKill. apply play_reachable, Built.
Defined.

Lemma bullets_carry_their_damage_witness :
  Bullet.damage
    (nth 0 (GameEngine.bullets (fst (play [Shoot] builtTick))) (shotAt 0 0))
  = 20%Z.
Proof.
  apply (ReachedFacts.bullets_carry_their_damage plainMath
           (play [Shoot] builtTick)
           (nth 0 (GameEngine.bullets (fst (play [Shoot] builtTick)))
                (shotAt 0 0))).
  - apply play_reachable, Built.
  - vm_compute. left. reflexivity.
Defined.

Lemma enemies_are_of_the_level_witness :
  EnemyConfig.level
    (Enemy.config
       (nth 0 (GameEngine.enemies (fst (play [Update] builtTick)))
            (enemyAt (EnemyFactory.tank ARB "") 0 0)))
  = GameState.level (GameEngine.gameState (fst (play [Update] builtTick))).
Proof.
  apply (ReachedFacts.enemies_are_of_the_level plainMath
           (play [Update] builtTick)
           (nth 0 (GameEngine.enemies (fst (play [Update] builtTick)))
                (enemyAt (EnemyFactory.tank ARB "") 0 0))).
  - apply play_reachable, Built.
  - vm_compute. left. reflexivity.
Defined.

Lemma level_one_is_never_lost_witness :
  GameState.isGameOver (GameEngine.gameState (fst firstKill)) = false.
Proof.
  apply (ReachedFacts.level_one_is_never_lost plainMath firstKill).
  - unfold firstKill. apply play_reachable, Built.
  - vm_compute. reflexivity.
Defined.

Lemma counters_in_order_witness :
  GameState.bulletsHit (GameEngine.gameState (fst firstKill))
  = GameState.enemiesKilled (GameEngine.gameState (fst firstKill)).
Proof.
  apply (ReachedFacts.counters_in_order plainMath firstKill).
  unfold firstKill. apply play_reachable, Built.
Defined.

Lemma counters_never_fall_witness :
  (GameState.score (GameEngine.gameState (fst firstKill))
   <= GameState.score
        (GameEngine.gameState (fst (apply plainMath Update firstKill))))%Z.
Proof.
  apply (ReachedFacts.counters_never_fall plainMath firstKill Update).
  - unfold firstKill. apply play_reachable, Built.
  - discriminate.
Defined.

Lemma level_has_its_duration_witness :
  GameState.levelDuration (GameEngine.gameState (fst firstKill))
  = GameEngine.levelDurations
      (GameState.level (GameEngine.gameState (fst firstKill))).
Proof.
  apply (ReachedFacts.level_has_its_duration plainMath firstKill).
  unfold firstKill. apply play_reachable, Built.
Defined.

Lemma boosts_are_timed_witness :
  GameEngine.multiShotCount (fst firstKill) = 1%Z
  \/ GameEngine.multiShotCount (fst firstKill) = 3%Z.
Proof.
  apply (ReachedFacts.boosts_are_timed plainMath firstKill).
  unfold firstKill. apply play_reachable, Built.
Defined.

(** * The achievement manager *)

Module AchievementFacts.
Import AchievementManager.

Lemma lookup_id (id : string) (m : t) (a : Achievement.t) :
  lookup id m = Some a -> Achievement.id a = id /\ In a m.
Proof.
  unfold lookup. intros H. apply find_some in H. destruct H as [Hin He].
  apply String.eqb_eq in He. auto.
Qed.

Lemma lookup_mark_same (id : string) (ts : Z) (m : t) (a : Achievement.t) :
  lookup id m = Some a ->
  lookup id (mark id ts m) = Some (Achievement.unlockAt ts a).
Proof.
  unfold lookup. induction m as [|x m IH]; cbn; [ discriminate | ].
  destruct (String.eqb (Achievement.id x) id) eqn:E.
  - intros [= ->]. cbn. now rewrite E.
  - intros H. cbn. rewrite E. auto.
Qed.

Lemma lookup_mark_other (id id' : string) (ts : Z) (m : t) :
  id' <> id -> lookup id' (mark id ts m) = lookup id' m.
Proof.
  intros Hne. unfold lookup. induction m as [|x m IH]; cbn; [ reflexivity | ].
  destruct (String.eqb (Achievement.id x) id) eqn:E.
  - apply String.eqb_eq in E. cbn.
    destruct (String.eqb (Achievement.id x) id') eqn:E';
      [ apply String.eqb_eq in E'; congruence | reflexivity ].
  - cbn. destruct (String.eqb (Achievement.id x) id'); auto.
Qed.

Lemma mark_ids (id : string) (ts : Z) (m : t) :
  map Achievement.id (mark id ts m) = map Achievement.id m
  /\ map Achievement.name (mark id ts m) = map Achievement.name m
  /\ map Achievement.description (mark id ts m)
     = map Achievement.description m.
Proof.
  induction m as [|x m (IH1 & IH2 & IH3)]; cbn; [ auto | ].
  destruct (String.eqb (Achievement.id x) id); cbn;
    rewrite ?IH1, ?IH2, ?IH3; auto.
Qed.

Lemma mark_keeps_unlocked (id : string) (ts : Z) (m : t) (a : Achievement.t) :
  lookup id m = None \/ isUnlocked id m = false ->
  In a m -> Achievement.unlocked a = true -> In a (mark id ts m).
Proof.
  unfold isUnlocked, lookup.
  induction m as [|x m IH]; cbn; [ tauto | ].
  destruct (String.eqb (Achievement.id x) id) eqn:E.
  - intros [H | H] [-> | Hin] Hu; try discriminate; try congruence.
    right. exact Hin.
  - intros H [-> | Hin] Hu; [ left; reflexivity | right; auto ].
Qed.

Lemma isUnlocked_mark (id id' : string) (ts : Z) (m : t) (a : Achievement.t) :
  lookup id m = Some a ->
  isUnlocked id' (mark id ts m)
  = if String.eqb id' id then true else isUnlocked id' m.
Proof.
  intros H. unfold isUnlocked.
  destruct (String.eqb id' id) eqn:E.
  - apply String.eqb_eq in E. subst id'.
    now rewrite (lookup_mark_same id ts m a H).
  - apply String.eqb_neq in E. now rewrite lookup_mark_other.
Qed.

Lemma attempt_outcome (now : Z) (rule : bool * string) (m : t)
    (out : list (option Achievement.t)) :
  outcome now rule m out (attempt now (m, out) rule).
Proof.
  unfold attempt. destruct rule as [c id].
  destruct (c && negb (isUnlocked id m)) eqn:E.
  - apply andb_prop in E. destruct E as [-> E].
    apply negb_true_iff in E. unfold unlock. unfold isUnlocked in E.
    destruct (lookup id m) as [a|] eqn:L.
    + rewrite E. cbn [negb]. apply (Unlocked now (true, id) m out a); auto.
    + apply (Missing now (true, id)); auto.
  - apply Passed. exact E.
Qed.

Lemma announced_app (l1 l2 : list (option Achievement.t)) :
  announced (l1 ++ l2) = announced l1 ++ announced l2.
Proof. unfold announced. apply flat_map_app. Qed.

Lemma announced_In (id : string) (l : list (option Achievement.t)) :
  In id (announced l) <-> exists a, In (Some a) l /\ Achievement.id a = id.
Proof.
  unfold announced. rewrite in_flat_map. split.
  - intros ([a|] & Hin & Hid); [ | contradiction ].
    destruct Hid as [<- | []]. eauto.
  - intros (a & Hin & <-). exists (Some a). split; [ exact Hin | now left ].
Qed.

Lemma checked_nil (now : Z) (m : t) : checked now [] m m [].
Proof.
  unfold checked. repeat split; auto; try contradiction; try constructor.
Qed.

Lemma checked_weaken (now : Z) (rule : bool * string)
    (rules : list (bool * string)) (m m' : t)
    (new : list (option Achievement.t)) :
  checked now rules m m' new -> checked now (rule :: rules) m m' new.
Proof.
  intros (H1 & H2 & H3 & H4 & H5 & H6 & H7 & H8 & H9).
  refine (conj H1 (conj H2 (conj H3 (conj H4 (conj H5 (conj _
            (conj _ (conj H8 H9)))))))).
  - intros a Ha. destruct (H6 a Ha) as (A & B & C & D & E).
    repeat split; auto. right. exact E.
  - intros Hn. destruct (H7 Hn) as (id & Hin & L). exists id. split; auto.
    right. exact Hin.
Qed.

Lemma run_checked (now : Z) (rules : list (bool * string)) :
  forall (m : t) (out : list (option Achievement.t)),
  exists new,
    snd (fold_left (attempt now) rules (m, out)) = out ++ new
    /\ checked now rules m (fst (fold_left (attempt now) rules (m, out))) new.
Proof.
  induction rules as [|rule rules IH]; intros m out.
  - exists []. cbn. rewrite app_nil_r. split; [ reflexivity | ].
    apply checked_nil.
  - cbn [fold_left].
    destruct (attempt_outcome now rule m out) as [Hp | Hc Hl | a Hc Hl Hu].
    + destruct (IH m out) as (new & E & C).
      exists new. split; [ exact E | apply checked_weaken, C ].
    + destruct (IH m (out ++ [None])) as (new & E & C).
      exists (None :: new). rewrite E, <- app_assoc. split; [ reflexivity | ].
      destruct C as (H1 & H2 & H3 & H4 & H5 & H6 & H7 & H8 & H9).
      refine (conj H1 (conj H2 (conj H3 (conj H4 (conj H5 (conj _
                (conj _ (conj H8 H9)))))))).
      * intros a [Ha | Ha]; [ discriminate | ].
        destruct (H6 a Ha) as (A & B & C & D & E0).
        repeat split; auto. right. exact E0.
      * intros _. exists (snd rule). split; [ | exact Hl ].
        left. destruct rule as [c id]. cbn in Hc |- *. now rewrite Hc.
    + set (m1 := mark (snd rule) now m) in *.
      set (a1 := Achievement.unlockAt now a) in *.
      destruct (IH m1 (out ++ [Some a1])) as (new & E & C).
      exists (Some a1 :: new). rewrite E, <- app_assoc.
      split; [ reflexivity | ].
      destruct C as (H1 & H2 & H3 & H4 & H5 & H6 & H7 & H8 & H9).
      destruct (lookup_id _ _ _ Hl) as [Hid Hin].
      destruct (mark_ids (snd rule) now m) as (I1 & I2 & I3).
      assert (Hlocked : isUnlocked (snd rule) m = false)
        by (unfold isUnlocked; now rewrite Hl).
      assert (Hnow : isUnlocked (snd rule) m1 = true).
      { unfold m1. rewrite (isUnlocked_mark _ _ _ _ _ Hl).
        now rewrite String.eqb_refl. }
      assert (Hmono : forall id, isUnlocked id m = true ->
                                 isUnlocked id m1 = true).
      { intros id Hi. unfold m1. rewrite (isUnlocked_mark _ _ _ _ _ Hl).
        destruct (String.eqb id (snd rule)); auto. }
      assert (Hback : forall id, isUnlocked id m1 = false ->
                                 isUnlocked id m = false).
      { intros id Hi. destruct (isUnlocked id m) eqn:Hm; [ | reflexivity ].
        apply Hmono in Hm. congruence. }
      unfold checked. fold m1.
      refine (conj _ (conj _ (conj _ (conj _ (conj _ (conj _
                (conj _ (conj _ _)))))))).
      * now rewrite H1.
      * now rewrite H2.
      * now rewrite H3.
      * intros id Hi. apply H4, Hmono, Hi.
      * intros b Hb Hbu. apply H5; [ | exact Hbu ].
        apply mark_keeps_unlocked; auto.
      * intros b [Hb | Hb].
        -- injection Hb as <-. unfold a1. cbn.
           rewrite Hid. repeat split; auto.
           left. destruct rule as [c id]. cbn in Hc |- *. now rewrite Hc.
        -- destruct (H6 b Hb) as (A & B & C & D & E0).
           repeat split; auto. right. exact E0.
      * intros [Hn | Hn]; [ discriminate | ].
        destruct (H7 Hn) as (id & Hr & L). exists id. split; [ now right | ].
        destruct (String.eqb id (snd rule)) eqn:Eq.
        -- apply String.eqb_eq in Eq. subst id.
           unfold m1 in L. rewrite (lookup_mark_same _ _ _ _ Hl) in L.
           discriminate.
        -- apply String.eqb_neq in Eq.
           unfold m1 in L. rewrite lookup_mark_other in L; assumption.
      * cbn. constructor; [ | exact H8 ].
        intros Hdup. apply announced_In in Hdup.
        destruct Hdup as (b & Hb & Hbid).
        destruct (H6 b Hb) as (_ & _ & C & _).
        unfold a1 in Hbid. cbn in Hbid. rewrite Hbid, Hid in C. congruence.
      * intros id Hi. destruct (H9 id Hi) as [Hm1 | Hann].
        -- unfold m1 in Hm1. rewrite (isUnlocked_mark _ _ _ _ _ Hl) in Hm1.
           destruct (String.eqb id (snd rule)) eqn:Eq; [ | now left ].
           apply String.eqb_eq in Eq. subst id. right. cbn. left.
           exact Hid.
        -- right. cbn. right. exact Hann.
Qed.

Lemma check_checked (g : GameState.t) (stats : Stats.t) (m : t) (w : World) :
  checkAchievements g stats m w
  = (snd (fold_left (attempt (fst (Date_now w)))
            (rules g stats (fst (Date_now w))) (m, [])),
     fst (fold_left (attempt (fst (Date_now w)))
            (rules g stats (fst (Date_now w))) (m, [])),
     snd (Date_now w))
  /\ checked (fst (Date_now w)) (rules g stats (fst (Date_now w))) m
       (snd (fst (checkAchievements g stats m w)))
       (fst (fst (checkAchievements g stats m w))).
Proof.
  unfold checkAchievements. cbn [Date_now fst snd].
  destruct (run_checked (clock w 0) (rules g stats (clock w 0)) m [])
    as (new & E & C).
  destruct (fold_left _ _ (m, [])) as [m' out]. cbn [fst snd] in *.
  subst out. split; [ reflexivity | exact C ].
Qed.

(** X21: A check never locks, removes, renames or reorders an achievement: the
    list keeps its ids, names and descriptions, whatever was unlocked stays
    unlocked, and an entry that was unlocked is left as it was, with its
    date. *)
Theorem check_never_locks (g : GameState.t) (stats : Stats.t) (m : t)
    (w : World) :
  let m' := snd (fst (checkAchievements g stats m w)) in
  map Achievement.id m' = map Achievement.id m
  /\ map Achievement.name m' = map Achievement.name m
  /\ map Achievement.description m' = map Achievement.description m
  /\ (forall id, isUnlocked id m = true -> isUnlocked id m' = true)
  /\ (forall a, In a m -> Achievement.unlocked a = true -> In a m').
Proof.
  destruct (check_checked g stats m w)
    as (_ & H1 & H2 & H3 & H4 & H5 & _).
  cbv zeta. auto.
Qed.

(** X22: The array a check returns holds exactly what the check unlocked: every
    achievement in it was locked before and is unlocked after, dated with
    the time of the check; an achievement is unlocked after the check
    exactly when it was before or is in the array; none is in it twice; and
    an [undefined] gets into it only for a condition that holds on an id
    that has no entry. *)
Theorem check_announces_what_it_unlocks (g : GameState.t) (stats : Stats.t)
    (m : t) (w : World) :
  let out := fst (fst (checkAchievements g stats m w)) in
  let m' := snd (fst (checkAchievements g stats m w)) in
  (forall a, In (Some a) out ->
     Achievement.unlocked a = true
     /\ Achievement.unlockedAt a = Some (fst (Date_now w))
     /\ isUnlocked (Achievement.id a) m = false
     /\ isUnlocked (Achievement.id a) m' = true)
  /\ (forall id, isUnlocked id m' = true
                 <-> isUnlocked id m = true \/ In id (announced out))
  /\ NoDup (announced out)
  /\ (In None out ->
      exists id, In (true, id) (rules g stats (fst (Date_now w)))
                 /\ lookup id m = None).
Proof.
  destruct (check_checked g stats m w)
    as (_ & _ & _ & _ & H4 & _ & H6 & H7 & H8 & H9).
  cbv zeta. refine (conj _ (conj _ (conj H8 H7))).
  - intros a Ha. destruct (H6 a Ha) as (A & B & C & D & _). auto.
  - intros id. split; [ apply H9 | ].
    intros [Hm | Hann]; [ apply H4, Hm | ].
    apply announced_In in Hann. destruct Hann as (a & Ha & <-).
    destruct (H6 a Ha) as (_ & _ & _ & D & _). exact D.
Qed.

(** The state of a session: nothing was announced twice, and all that was
    announced is unlocked. *)
Lemma session_step (out : list (option Achievement.t)) (m : t) (w : World)
    (g : GameState.t) (stats : Stats.t) :
  NoDup (announced out) ->
  (forall id, In id (announced out) -> isUnlocked id m = true) ->
  NoDup (announced (out ++ fst (fst (checkAchievements g stats m w))))
  /\ (forall id,
        In id (announced (out ++ fst (fst (checkAchievements g stats m w)))) ->
        isUnlocked id (snd (fst (checkAchievements g stats m w))) = true).
Proof.
  intros Hnd Hun.
  destruct (check_checked g stats m w)
    as (_ & _ & _ & _ & H4 & _ & H6 & _ & H8 & _).
  set (o := fst (fst (checkAchievements g stats m w))) in *.
  set (m' := snd (fst (checkAchievements g stats m w))) in *.
  rewrite announced_app. split.
  - apply NoDup_app; [ exact Hnd | exact H8 | ].
    intros id Hin Hin'. apply Hun in Hin.
    apply announced_In in Hin'. destruct Hin' as (a & Ha & <-).
    destruct (H6 a Ha) as (_ & _ & C & _). congruence.
  - intros id Hin. apply in_app_or in Hin. destruct Hin as [Hin | Hin].
    + apply H4, Hun, Hin.
    + apply announced_In in Hin. destruct Hin as (a & Ha & <-).
      destruct (H6 a Ha) as (_ & _ & _ & D & _). exact D.
Qed.

Lemma session_inv (inputs : list (GameState.t * Stats.t)) :
  forall (out : list (option Achievement.t)) (m : t) (w : World),
  NoDup (announced out) ->
  (forall id, In id (announced out) -> isUnlocked id m = true) ->
  let r :=
    fold_left
      (fun (acc : list (option Achievement.t) * t * World)
           (input : GameState.t * Stats.t) =>
         let '(out, m, w) := acc in
         let '(o, m, w) :=
           checkAchievements (fst input) (snd input) m w in
         (out ++ o, m, w))
      inputs (out, m, w) in
  NoDup (announced (fst (fst r)))
  /\ (forall id, In id (announced (fst (fst r))) ->
                 isUnlocked id (snd (fst r)) = true).
Proof.
  induction inputs as [|[g stats] inputs IH]; intros out m w Hnd Hun.
  - cbn. auto.
  - cbn [fold_left fst snd].
    destruct (session_step out m w g stats Hnd Hun) as [Hnd' Hun'].
    destruct (checkAchievements g stats m w) as [[o m'] w'].
    cbn [fst snd] in Hnd', Hun'. apply IH; assumption.
Qed.

(** X23: Over a whole session of checks, on whatever game states and
    statistics, no achievement is announced twice, and every achievement
    announced is unlocked at the end. *)
Theorem announced_once (inputs : list (GameState.t * Stats.t)) (m : t)
    (w : World) :
  NoDup (announced (fst (fst (checkAll inputs m w))))
  /\ (forall id, In id (announced (fst (fst (checkAll inputs m w)))) ->
                 isUnlocked id (snd (fst (checkAll inputs m w))) = true).
Proof.
  unfold checkAll. apply session_inv.
  - constructor.
  - intros id [].
Qed.

(** X24: The check of the page never unlocks nor announces the achievement
    [level_3], Level 3 Complete: its condition asks for a game that is over,
    and the page checks only while the game is not over. *)
Theorem level_3_is_out_of_reach (powerUpsCollected : Z) (e : GameEngine.t)
    (m : t) (w : World) :
  let out := fst (fst (Page.achievementTick powerUpsCollected e m w)) in
  let m' := snd (fst (Page.achievementTick powerUpsCollected e m w)) in
  isUnlocked "level_3" m' = isUnlocked "level_3" m
  /\ ~ In "level_3"%string (announced out).
Proof.
  cbv zeta. unfold Page.achievementTick.
  destruct (negb (GameState.isPaused (GameEngine.gameState e))) ;
    [ | cbn; auto ].
  destruct (GameState.isGameOver (GameEngine.gameState e)) eqn:Hover;
    [ cbn; auto | ].
  cbn [negb andb].
  match goal with |- context [checkAchievements ?g ?st m w] =>
    destruct (check_checked g st m w)
      as (_ & _ & _ & _ & H4 & _ & H6 & _ & _ & H9);
    set (r := checkAchievements g st m w) in *
  end.
  assert (Hno : ~ In "level_3"%string (announced (fst (fst r)))).
  { intros Hin. apply announced_In in Hin. destruct Hin as (a & Ha & Hid).
    destruct (H6 a Ha) as (_ & _ & _ & _ & Hr). rewrite Hid in Hr.
    unfold rules in Hr. rewrite Hover in Hr. cbn [andb] in Hr.
    cbv zeta in Hr.
    repeat (destruct Hr as [Hr | Hr]; [ discriminate Hr | ]).
    exact Hr. }
  split; [ | exact Hno ].
  destruct (isUnlocked "level_3" m) eqn:Hm.
  - apply H4, Hm.
  - destruct (isUnlocked "level_3" (snd (fst r))) eqn:Hm'; [ | reflexivity ].
    destruct (H9 _ Hm') as [H | H]; [ congruence | contradiction ].
Qed.
End AchievementFacts.

(** * The touch button *)

Module PageFacts.
Import GameState GameEngine.

(** X25: A press of the touch button fires at most one call of [shoot], and only
    in a game that is neither paused nor over; it fires exactly when the time
    since the last press that fired is at least 1500 ms times the cooldown
    modifier.  In an engine the page can reach that is 1500 ms, or 750 ms
    under rapid fire, so that two shots of the button are never less than
    750 ms apart; a press that does not fire changes nothing. *)
Theorem handleShoot_cooldown (M : MathLib) (s : Machine) (last : Z) :
  reachable M s ->
  let now := fst (Date_now (snd s)) in
  let last' := fst (Page.handleShoot last s) in
  let e' := fst (snd (Page.handleShoot last s)) in
  (last' = last /\ e' = fst s
   /\ (running (fst s) -> (now - last < 1500)%Z))
  \/ (last' = now /\ e' = shoot (fst s) /\ running (fst s)
      /\ (750 <= now - last)%Z
      /\ (shootCooldownMultiplier (fst s) = 1 -> (1500 <= now - last)%Z)).
Proof.
  intros reached. destruct s as [e w]. cbv zeta. cbn [fst snd].
  unfold Page.handleShoot, Page.BASE_SHOOT_COOLDOWN. cbn [Date_now fst snd].
  pose proof (TimedFacts.reachable_timed M (e, w) reached RAPID_FIRE) as Ht.
  cbn [fst] in Ht.
  assert (Hv : shootCooldownMultiplier e = 1
               \/ shootCooldownMultiplier e = 0.5).
  { destruct (Map_get RAPID_FIRE (activePowerUps e)); cbn in Ht.
    - destruct Ht as [Ht | Ht]; [ discriminate Ht | now right ].
    - now left. }
  destruct (isGameOver (gameState e)) eqn:Ho;
    [ left; repeat split; intros [_ Hr]; congruence | ].
  destruct (isPaused (gameState e)) eqn:Hp;
    [ left; repeat split; intros [Hr _]; congruence | ].
  cbn [negb andb].
  destruct (Qleb (1500 * shootCooldownMultiplier e)
                 (inject_Z (clock w 0 - last))) eqn:Hc.
  - right. cbn [fst snd]. apply Qleb_le in Hc.
    refine (conj eq_refl (conj eq_refl (conj _ _))).
    + split; assumption.
    + destruct Hv as [Hv | Hv]; rewrite Hv in Hc.
      * assert (Hd : (1500 <= clock w 0 - last)%Z).
        { rewrite Zle_Qle. change (inject_Z 1500) with 1500. lra. }
        split; [ lia | auto ].
      * assert (Hd : (750 <= clock w 0 - last)%Z).
        { rewrite Zle_Qle. change (inject_Z 750) with 750. lra. }
        split; [ exact Hd | ].
        intros H1. rewrite Hv in H1. discriminate H1.
  - left. cbn [fst snd]. refine (conj eq_refl (conj eq_refl _)).
    intros _. apply Z.lt_nge. intros Hd.
    rewrite Zle_Qle in Hd. change (inject_Z 1500) with 1500 in Hd.
    apply not_true_iff_false in Hc. apply Hc. apply Qleb_le.
    destruct Hv as [Hv | Hv]; rewrite Hv; lra.
Qed.
End PageFacts.

Lemma handleShoot_cooldown_witness :
  fst (snd (Page.handleShoot (-1000) builtTick))
  = GameEngine.shoot (fst builtTick).
Proof.
  destruct (PageFacts.handleShoot_cooldown plainMath builtTick (-1000))
    as [(_ & _ & H) | (_ & H & _)].
  - unfold builtTick. apply Built.
  - assert (Hr : running (fst builtTick)) by (split; reflexivity).
    apply H in Hr. vm_compute in Hr. discriminate Hr.
  - exact H.
Defined.

(** ** Enemies stay on the field *)

Module FieldFacts.
Import GameState GameEngine Sound SoundFacts.

Section Steps.
Variable M : MathLib.

Lemma arena_same (e e' : GameEngine.t) :
  sound e' ->
  canvasWidth e' = canvasWidth e -> canvasHeight e' = canvasHeight e ->
  (forall en, In en (enemies e') -> In en (enemies e)) ->
  contained e -> contained e'.
Proof.
  intros Hs Hw Hh Hsub [_ Ha]. split; [ exact Hs | ].
  rewrite Hw, Hh. intros H70. specialize (Ha H70).
  apply Forall_forall. intros en Hin.
  eapply Forall_forall in Ha; [ exact Ha | auto ].
Qed.

Lemma onField_new (lvl : Z) (cs : list EnemyConfig.t) (c : EnemyConfig.t)
    (W H : Q) (w : World) :
  EnemyFactory.enemyConfigs lvl = Some cs -> In c cs -> 70 <= H ->
  onField_enemy W H (fst (Enemy.new c W H w)).
Proof.
  intros E Hin H70.
  destruct (SpawnFacts.enemyConfigs_entry lvl cs c E Hin)
    as (_ & _ & _ & _ & _ & _ & _ & _ & Hh).
  destruct (SpawnFacts.Enemy_new_shape c W H w)
    as (_ & _ & _ & _ & S5 & _ & _ & S8 & S9).
  cbv zeta in *. unfold onField_enemy. rewrite S5, S8. cbn [Size.height].
  destruct S9 as [Y0 Y1]; [ lra | ]. repeat split; try assumption. lra.
Qed.

Lemma onField_update (lvl : Z) (W H : Q) (en : Enemy.t) :
  enemyOk lvl en -> 70 <= H ->
  onField_enemy W H en -> onField_enemy W H (Enemy.update W H en).
Proof.
  intros ((cs & E & Hin) & _ & _ & Hsp & Hsz) H70 (Y0 & Y1 & X).
  destruct (SpawnFacts.enemyConfigs_entry lvl cs _ E Hin)
    as (_ & _ & _ & _ & _ & _ & Hs & _ & Hh).
  assert (Hfit : Size.height (Enemy.size en) <= H).
  { rewrite Hsz. cbn. lra. }
  unfold onField_enemy, Enemy.update.
  destruct (Qleb _ 0 || Qleb _ _); cbn;
    (split; [ apply Q.le_max_l | split;
       [ apply Q.max_lub; [ lra | apply Q.le_min_l ]
       | rewrite Hsp; lra ] ]).
Qed.

Lemma onField_shoot (W H : Q) (p : Position.t) (en : Enemy.t) (w : World) :
  onField_enemy W H en ->
  onField_enemy W H (snd (fst (Enemy.shoot M p en w))).
Proof.
  intros Hf. destruct (Enemy.canShoot (fst (Date_now w)) en) eqn:Hc.
  - destruct (Enemy_shoot_fired M p en w Hc) as (bs & -> & _). exact Hf.
  - rewrite (Enemy_shoot_refused M p en w Hc). exact Hf.
Qed.

Lemma spawn_arena (now : Z) (e : GameEngine.t) (w : World) :
  contained e -> contained (fst (spawnEnemies now (e, w))).
Proof.
  intros [Hs Ha]. split; [ apply spawn_sound, Hs | ].
  destruct (spawnInterval e <=? now - lastSpawnTime e)%Z eqn:Hd.
  - rewrite SpawnFacts.spawnEnemies_due by (apply Z.leb_le, Hd). cbn [fst].
    pose proof (SpawnFacts.createRandomEnemy_cases (level (gameState e))
                  (canvasWidth e) (canvasHeight e) w) as C.
    destruct (EnemyFactory.createRandomEnemy _ _ _ w) as [[en|] w1];
      cbn [fst]; [ | exact Ha ].
    destruct C as (c & cs & w0 & E & Hin & ->).
    intros H70.
    change (Forall (onField_enemy (canvasWidth e) (canvasHeight e))
              (enemies e ++ [fst (Enemy.new c (canvasWidth e)
                                    (canvasHeight e) w0)])).
    apply Forall_app. split; [ apply Ha, H70 | ].
    constructor; [ | constructor ]. eapply onField_new; eauto.
  - rewrite SpawnFacts.spawnEnemies_idle by (apply Z.leb_gt, Hd). exact Ha.
Qed.

Lemma enemy_arena (now : Z) (en : Enemy.t) (k : nat) (e : GameEngine.t)
    (w : World) :
  nth_error (enemies e) k = Some en ->
  contained e -> contained (fst (updateEnemy M now en k (e, w))).
Proof.
  intros Hk [Hs Ha]. split; [ apply enemy_sound; assumption | ].
  pose proof (sound_enemy e k en Hs Hk) as Hok.
  unfold updateEnemy.
  set (en1 := Enemy.update (canvasWidth e) (canvasHeight e) en).
  assert (H1 : 70 <= canvasHeight e ->
               onField_enemy (canvasWidth e) (canvasHeight e) en1).
  { intros H70. apply (onField_update (level (gameState e))); auto.
    specialize (Ha H70). eapply Forall_forall in Ha;
      [ exact Ha | eapply nth_error_In, Hk ]. }
  assert (Hend :
    forall (e1 : GameEngine.t) (en2 : Enemy.t) (w2 : World),
      canvasWidth e1 = canvasWidth e -> canvasHeight e1 = canvasHeight e ->
      enemies e1 = enemies e ->
      (70 <= canvasHeight e ->
       onField_enemy (canvasWidth e) (canvasHeight e) en2) ->
      let r :=
        fst
          (let (e2, enemy) :=
             if negb (EnemyConfig.canShoot (Enemy.config en2))
                && enemyBaseCollision en2 (base e1)
             then
               (set_gameState
                  (set_playerHealth
                     (Base.health
                        (base (set_base (Base.takeDamage 5 (base e1)) e1)))
                     (gameState (set_base (Base.takeDamage 5 (base e1)) e1)))
                  (set_base (Base.takeDamage 5 (base e1)) e1),
                Enemy.takeDamage 100 en2)
             else (e1, en2) in
           (set_enemies (assign k enemy (enemies e2)) e2, w2)) in
      70 <= canvasHeight r ->
      Forall (onField_enemy (canvasWidth r) (canvasHeight r)) (enemies r)).
  { intros e1 en2 w2 Hw Hh He H2.
    destruct (negb _ && _); cbn [fst]; cbv zeta;
      cbn [canvasWidth canvasHeight enemies set_enemies set_gameState
           set_base];
      rewrite Hw, Hh, He; intros H70;
      (apply Forall_assign; [ | apply Ha, H70 ]).
    - exact (H2 H70).
    - exact (H2 H70). }
  destruct (Enemy.canShoot now en1).
  - pose proof (fun H70 =>
                  onField_shoot (canvasWidth e) (canvasHeight e)
                    (Base.getCenter (base e)) en1 w (H1 H70)) as H2.
    destruct (Enemy.shoot M (Base.getCenter (base e)) en1 w)
      as [[fired en2] w2].
    cbn [fst snd] in H2. apply Hend; auto.
  - apply Hend; auto.
Qed.

Lemma hit_arena (b : Bullet.t) (kb : nat) (en : Enemy.t) (ke : nat)
    (e : GameEngine.t) (w : World) :
  bulletOk b -> Bullet.isPlayerBullet b = true ->
  nth_error (enemies e) ke = Some en ->
  contained e -> contained (fst (hitEnemy M b kb en ke (e, w))).
Proof.
  intros Hb Hp Hk [Hs Ha]. split; [ apply hit_sound; assumption | ].
  unfold hitEnemy.
  destruct (bulletEnemyCollision b en); [ | exact Ha ].
  assert (Hen : 70 <= canvasHeight e ->
                onField_enemy (canvasWidth e) (canvasHeight e)
                  (Enemy.takeDamage (Bullet.damage b) en)).
  { intros H70. specialize (Ha H70).
    assert (H0 : onField_enemy (canvasWidth e) (canvasHeight e) en).
    { eapply Forall_forall in Ha; [ exact Ha | eapply nth_error_In, Hk ]. }
    exact H0. }
  destruct (negb (Enemy.isAlive _)).
  - match goal with |- context [registerKill M ?x ?k (?e1, ?w1)] =>
      destruct (RunFacts.registerKill_shape M x k e1 w1)
        as (pops & ps & pus & w' & E & _);
      rewrite E
    end.
    cbn [fst]. intros H70.
    change (Forall (onField_enemy (canvasWidth e) (canvasHeight e))
              (splice1 ke
                 (assign ke (Enemy.takeDamage (Bullet.damage b) en)
                    (enemies e)))).
    apply Forall_splice1, Forall_assign; auto.
  - cbn [fst]. intros H70.
    change (Forall (onField_enemy (canvasWidth e) (canvasHeight e))
              (assign ke (Enemy.takeDamage (Bullet.damage b) en)
                 (enemies e))).
    apply Forall_assign; auto.
Qed.

Lemma reachable_arena (s : Machine) : reachable M s -> contained (fst s).
Proof.
  apply (PassFacts.reachable_inv M contained bulletOk).
  - intros e b [Hs _]. apply sound_bullet, Hs.
  - exact spawn_arena.
  - exact enemy_arena.
  - intros e [Hs Ha]. split; [ apply move_sound, Hs | exact Ha ].
  - intros e w [Hs Ha]. split; [ apply combo_sound, Hs | ].
    unfold updateCombo. cbn [Date_now]. destruct (_ && _); exact Ha.
  - intros l e H. exact H.
  - intros l e H. exact H.
  - intros f e [Hs Ha]. split; [ apply filter_bullets_sound, Hs | exact Ha ].
  - intros f e [Hs Ha]. split; [ apply filter_enemies_sound, Hs | ].
    intros H70. apply Forall_filter, Ha, H70.
  - exact hit_arena.
  - intros b k e w Hk [Hs Ha]. split; [ apply base_sound; assumption | ].
    unfold hitBase. destruct (negb _); [ | exact Ha ].
    destruct (bulletBaseCollision b (base e)); [ | exact Ha ].
    destruct (hasShield e); destruct (negb (Base.isAlive _)); exact Ha.
  - intros now e [Hs Ha]. split; [ apply powerUps_sound, Hs | ].
    unfold updatePowerUps.
    cbn [canvasWidth canvasHeight enemies set_powerUps].
    destruct (fold_expire_parts now (activePowerUps e) e) as (_ & _ & _ & d).
    destruct (RunFacts.fold_expire_game now (activePowerUps e) e)
      as (_ & b' & c' & _).
    rewrite d, b', c'. exact Ha.
  - intros p k e w [Hs Ha]. split; [ apply collect_sound, Hs | ].
    unfold collect. destruct (Qltb _ _); [ | exact Ha ].
    unfold activatePowerUp. cbn [Date_now].
    destruct (PowerUp.type p); exact Ha.
  - intros now e w [Hs Ha]. split; [ apply periodic_sound, Hs | ].
    unfold periodicPowerUp. destruct (15000 <? _)%Z; [ | exact Ha ].
    cbn [Math_random]. destruct (Qltb _ _); exact Ha.
  - intros e [Hs Ha]. split; [ apply mirror_sound, Hs | exact Ha ].
  - intros cw ch w. split; [ apply new_sound | ].
    intros _. constructor.
  - intros e w [Hs Ha]. split; [ apply next_sound, Hs | ].
    unfold nextLevel. destruct (level (gameState e) <? 3)%Z; [ | exact Ha ].
    cbn [Date_now]. destruct (level (gameState e) =? 2)%Z;
      intros _; constructor.
  - intros e [Hs Ha]. split; [ apply shoot_sound, Hs | ].
    unfold shoot. destruct (1 <? multiShotCount e)%Z; exact Ha.
  - intros h e H. exact H.
  - intros h e H. exact H.
  - intros e H. exact H.
  - intros e w [Hs Ha]. split; [ apply reset_sound, Hs | ].
    intros _. constructor.
Qed.
End Steps.

(** X18: On a canvas at least 70 high, the height of the largest enemy, every
    enemy of every state the page can reach lies between the top and the
    bottom edge of the canvas and not beyond its right edge. *)
Theorem enemies_stay_on_the_field (M : MathLib) (s : Machine) (en : Enemy.t) :
  reachable M s ->
  70 <= canvasHeight (fst s) ->
  In en (enemies (fst s)) ->
  0 <= Position.y (Enemy.position en)
  /\ Position.y (Enemy.position en)
     <= canvasHeight (fst s) - Size.height (Enemy.size en)
  /\ Position.x (Enemy.position en) <= canvasWidth (fst s).
Proof.
  intros reached H70 Hin.
  destruct (reachable_arena M s reached) as [_ Ha].
  specialize (Ha H70). eapply Forall_forall in Ha; [ exact Ha | exact Hin ].
Qed.
End FieldFacts.

Lemma enemies_stay_on_the_field_witness :
  0 <= Position.y
         (Enemy.position
            (nth 0 (GameEngine.enemies (fst (play [Update] builtTick)))
                 (enemyAt (EnemyFactory.tank ARB "") 0 0))).
Proof.
  apply (FieldFacts.enemies_stay_on_the_field plainMath
           (play [Update] builtTick)
           (nth 0 (GameEngine.enemies (fst (play [Update] builtTick)))
                (enemyAt (EnemyFactory.tank ARB "") 0 0))).
  - apply play_reachable, Built.
  - vm_compute. discriminate.
  - vm_compute. left. reflexivity.
Defined.

(** ** Pickups in play *)

Module FreshFacts.
Import GameState GameEngine.

Lemma dropAt_fresh (c : Position.t) (p : PowerUp.t) : dropAt c p -> fresh p.
Proof.
  intros (_ & _ & Hl & Hm & Hs). unfold fresh. rewrite Hl, Hm, Hs.
  repeat split; lra.
Qed.

Lemma spawnPowerUp_fresh (x y : Q) (e : GameEngine.t) (w : World) :
  Forall fresh (powerUps e) ->
  Forall fresh (powerUps (fst (spawnPowerUp x y (e, w)))).
Proof.
  intros H. unfold spawnPowerUp. cbn [Math_random fst powerUps set_powerUps].
  apply Forall_app. split; [ exact H | ].
  constructor; [ | constructor ]. unfold fresh. cbn. repeat split; lra.
Qed.

Lemma age_fresh (l : list PowerUp.t) :
  Forall fresh l -> Forall fresh (filter onField (map agePowerUp l)).
Proof.
  intros H. apply Forall_forall. intros p Hp.
  apply filter_In in Hp. destruct Hp as [Hin Hon].
  apply in_map_iff in Hin. destruct Hin as (q & <- & Hq).
  eapply Forall_forall in H; [ | exact Hq ].
  destruct H as (H0 & _ & Hm & Hs).
  unfold onField in Hon. apply Qltb_lt in Hon.
  unfold fresh. cbn in *. repeat split; try assumption. lra.
Qed.

Section Steps.
Variable M : MathLib.

Let P (e : GameEngine.t) : Prop := Forall fresh (powerUps e).

Lemma hit_fresh (b : Bullet.t) (kb : nat) (en : Enemy.t) (ke : nat)
    (e : GameEngine.t) (w : World) :
  P e -> P (fst (hitEnemy M b kb en ke (e, w))).
Proof.
  intros H. unfold hitEnemy.
  destruct (bulletEnemyCollision b en); [ | exact H ].
  destruct (negb (Enemy.isAlive _)); [ | exact H ].
  unfold registerKill. cbn [Date_now].
  destruct (scoreKill _ _) as [g' pts].
  match goal with |- context [explosion M ?c ?n ?i (?e1, ?w1)] =>
    destruct (RunFacts.explosion_shape M c n i e1 w1) as (ps & w2 & E & _);
    rewrite E
  end.
  cbn [Math_random]. destruct (Qltb _ 0.1).
  - match goal with |- context [spawnPowerUp ?x ?y (?e1, ?w1)] =>
      pose proof (spawnPowerUp_fresh x y e1 w1 H) as H1;
      destruct (spawnPowerUp x y (e1, w1)) as [e2 w3]
    end.
    exact H1.
  - exact H.
Qed.

Lemma periodic_fresh (now : Z) (e : GameEngine.t) (w : World) :
  P e -> P (fst (periodicPowerUp now (e, w))).
Proof.
  intros H. unfold periodicPowerUp.
  destruct (15000 <? _)%Z; [ | exact H ].
  cbn [Math_random]. destruct (Qltb _ 0.3); [ | exact H ].
  match goal with |- context [spawnPowerUp ?x ?y (?e1, ?w1)] =>
    pose proof (spawnPowerUp_fresh x y e1 w1 H) as H1;
    destruct (spawnPowerUp x y (e1, w1)) as [e2 w3]
  end.
  exact H1.
Qed.

Lemma collect_fresh (p : PowerUp.t) (k : nat) (e : GameEngine.t) (w : World) :
  P e -> P (fst (collect M p k (e, w))).
Proof.
  intros H. unfold collect.
  destruct (Qltb _ _); [ | exact H ].
  unfold activatePowerUp. cbn [Date_now].
  destruct (PowerUp.type p); apply SoundFacts.Forall_splice1; exact H.
Qed.

Lemma reachable_fresh (s : Machine) : reachable M s -> P (fst s).
Proof.
  apply (PassFacts.reachable_inv M P (fun _ => True)).
  - intros; exact I.
  - intros now e w H. unfold spawnEnemies.
    destruct (_ <=? _)%Z; [ | exact H ].
    destruct (EnemyFactory.createRandomEnemy _ _ _ w) as [[en|] w1]; exact H.
  - intros now en i e w _ H. unfold updateEnemy.
    destruct (Enemy.canShoot now _).
    + destruct (Enemy.shoot M _ _ w) as [[fired en2] w2].
      destruct (negb _ && _); exact H.
    + destruct (negb _ && _); exact H.
  - intros e H. exact H.
  - intros e w H. unfold updateCombo. cbn [Date_now].
    destruct (_ && _); exact H.
  - intros l e H. exact H.
  - intros l e H. exact H.
  - intros f e H. exact H.
  - intros f e H. exact H.
  - intros b kb en ke e w _ _ _. apply hit_fresh.
  - intros b i e w _ H. unfold hitBase.
    destruct (negb _); [ | exact H ].
    destruct (bulletBaseCollision b (base e)); [ | exact H ].
    destruct (hasShield e); destruct (negb (Base.isAlive _)); exact H.
  - intros now e H. unfold P.
    rewrite PickupFacts.updatePowerUps_powerUps. apply age_fresh, H.
  - exact collect_fresh.
  - exact periodic_fresh.
  - intros e H. exact H.
  - intros cw ch w. constructor.
  - intros e w H. unfold nextLevel.
    destruct (level (gameState e) <? 3)%Z; [ | exact H ].
    cbn [Date_now]. destruct (level (gameState e) =? 2)%Z; exact H.
  - intros e H. unfold shoot. destruct (1 <? multiShotCount e)%Z; exact H.
  - intros h e H. exact H.
  - intros h e H. exact H.
  - intros e H. exact H.
  - intros e w _. constructor.
Qed.
End Steps.

(** X19: Every pickup of a state the page can reach is good for 10000 ms, of
    side 30, and short of its time: none that has run out is left on the
    field to be collected or drawn. *)
Theorem pickups_are_in_time (M : MathLib) (s : Machine) (p : PowerUp.t) :
  reachable M s ->
  In p (powerUps (fst s)) ->
  0 <= PowerUp.lifetime p
  /\ PowerUp.lifetime p < 10000
  /\ PowerUp.maxLifetime p = 10000
  /\ PowerUp.size p = 30.
Proof.
  intros reached Hin.
  pose proof (reachable_fresh M s reached) as H.
  eapply Forall_forall in H; [ | exact Hin ].
  destruct H as (H0 & H1 & H2 & H3). rewrite H2 in H1. auto.
Qed.

(** X20: The periodic pickup: nothing happens, not even a draw, until more than
    15000 ms have passed since the last periodic pickup; then each call
    draws, and with a draw below 0.3 appends one new pickup 50 short of the
    right edge and restarts the 15000 ms; with any other draw it leaves the
    engine as it is, so that the next call tries again. *)
Theorem periodicPowerUp_cadence (now : Z) (e : GameEngine.t) (w : World) :
  let r := periodicPowerUp now (e, w) in
  if (15000 <? now - lastPowerUpSpawn e)%Z
  then (fst r = e
        /\ 0.3 <= fst (Math_random w)
        /\ snd r = snd (Math_random w))
       \/ (fst (Math_random w) < 0.3
           /\ (exists p, powerUps (fst r) = powerUps e ++ [p]
                         /\ PowerUp.x p = canvasWidth e - 50
                         /\ PowerUp.lifetime p = 0
                         /\ PowerUp.maxLifetime p = 10000)
           /\ lastPowerUpSpawn (fst r) = now
           /\ forall (t : Z) (w2 : World),
                (t - now <= 15000)%Z ->
                periodicPowerUp t (fst r, w2) = (fst r, w2))
  else r = (e, w).
Proof.
  cbv zeta. destruct (15000 <? now - lastPowerUpSpawn e)%Z eqn:Hd.
  2: { unfold periodicPowerUp. now rewrite Hd. }
  destruct (Qltb (fst (Math_random w)) 0.3) eqn:Hr.
  - right. split; [ apply Qltb_lt, Hr | ].
    assert (E : exists p w',
              periodicPowerUp now (e, w)
              = (set_lastPowerUpSpawn now
                   (set_powerUps (powerUps e ++ [p]) e), w')
              /\ PowerUp.x p = canvasWidth e - 50
              /\ PowerUp.lifetime p = 0
              /\ PowerUp.maxLifetime p = 10000).
    { unfold periodicPowerUp. rewrite Hd.
      cbn [Math_random fst] in Hr |- *. rewrite Hr.
      unfold spawnPowerUp. cbn [Math_random].
      eexists _, _. split; [ reflexivity | ]. cbn. auto. }
    destruct E as (p & w' & E & Hx & Hl & Hm). rewrite E. cbn [fst snd].
    refine (conj _ (conj eq_refl _)).
    + exists p. auto.
    + intros t w2 Ht. unfold periodicPowerUp.
      cbn [lastPowerUpSpawn set_lastPowerUpSpawn].
      apply Z.ltb_ge in Ht. now rewrite Ht.
  - left. unfold periodicPowerUp. rewrite Hd.
    cbn [Math_random fst snd] in Hr |- *. rewrite Hr. cbn [fst snd].
    apply Qltb_ge in Hr. auto.
Qed.
End FreshFacts.


Lemma pickups_are_in_time_witness :
  PowerUp.maxLifetime
    (nth 0 (GameEngine.powerUps (fst (play [Update] pickupDue)))
         {| PowerUp.x := 0; PowerUp.y := 0; PowerUp.type := SHIELD;
            PowerUp.lifetime := 0; PowerUp.maxLifetime := 0;
            PowerUp.size := 0 |})
  = 10000.
Proof.
  apply (FreshFacts.pickups_are_in_time plainMath
           (play [Update] pickupDue)
           (nth 0 (GameEngine.powerUps (fst (play [Update] pickupDue)))
                {| PowerUp.x := 0; PowerUp.y := 0; PowerUp.type := SHIELD;
                   PowerUp.lifetime := 0; PowerUp.maxLifetime := 0;
                   PowerUp.size := 0 |})).
  - apply play_reachable, Built.
  - vm_compute. left. reflexivity.
Defined.
